(** * xorgontui: the framebuffer-to-character-grid pipeline of [start.py]

    A shallow embedding of the streaming loop of [run_xorg_app_in_xephyr]
    and of the pixel classifier [get_ascii_char_and_color], with the
    properties of the conversion pipeline proved over it.

    - The capture process is its output: a finite list of bytes, read by
      the loop in chunks of one frame. The canvas and the display are the
      state they hold (the cells drawn and the current colour) and the
      trace of the calls made on them.
    - Python floats, and numpy's [float64] that the arithmetic on a [uint8]
      channel is carried out in, are IEEE 754 binary64 numbers. They are
      modelled by the primitive floats, which are the same format with the
      same round-to-nearest-even operations, and reasoned about through the
      [SpecFloat] specification of those operations.
    - An exception that leaves the loop ends the run; the keyboard
      interrupt, which can arrive at any time, is not modelled. *)

From stdpp Require Import base gmap list.
From Stdlib Require Import ZArith Lia List Bool Ascii String.
From Stdlib Require Import Floats Uint63.
Import ListNotations.

Set Warnings "-inexact-float".

(** ** Python exceptions and the result of fallible code *)

(** The exceptions the modelled code can raise. [ValueError_reshape] is the
    [ValueError] numpy raises when a buffer cannot be reshaped to the frame
    geometry: the design calls it [MalformedFrame]. *)
Inductive exn : Type :=
| ValueError_reshape
| ValueError_int_nan
| OverflowError_int_inf
| IndexError_string
| ZeroDivisionError.

Abbreviation MalformedFrame := ValueError_reshape (only parsing).

Inductive result (A : Type) : Type :=
| Ok (a : A)
| Raise (e : exn).
Arguments Ok {A} a.
Arguments Raise {A} e.

Definition rbind {A B : Type} (r : result A) (k : A -> result B) : result B :=
  match r with
  | Ok a => k a
  | Raise e => Raise e
  end.

Notation "'let!' x ':=' r 'in' k" := (rbind r (fun x => k))
  (at level 10, x name, r at level 100, k at level 200).

(** ** Python numbers *)

Module Py.

(** [float(n)] for an integer that a binary64 holds exactly
    ([0 <= n < 2^53]); the classifier only converts [uint8] values and the
    literals [255] and [9]. *)
Definition float_of_int (n : Z) : float := of_uint63 (Uint63.of_Z n).

(** [int(x)] for a float: truncation toward zero; [int(nan)] raises
    [ValueError] and [int(inf)] raises [OverflowError]. *)
Definition trunc_SF (x : spec_float) : result Z :=
  match x with
  | S754_nan => Raise ValueError_int_nan
  | S754_infinity _ => Raise OverflowError_int_inf
  | S754_zero _ => Ok 0%Z
  | S754_finite s m e =>
      let mag := Z.shiftl (Z.pos m) e in
      Ok (if s then Z.opp mag else mag)
  end.

Definition int_of_float (x : float) : result Z := trunc_SF (Prim2SF x).

(** [s[i]] on a string: negative indices count from the end, and an index
    outside [-len, len) raises [IndexError]. *)
Definition str_index (s : string) (i : Z) : result ascii :=
  let len := Z.of_nat (String.length s) in
  let j := if (i <? 0)%Z then (i + len)%Z else i in
  if ((0 <=? j) && (j <? len))%Z
  then match String.get (Z.to_nat j) s with
       | Some c => Ok c
       | None => Raise IndexError_string
       end
  else Raise IndexError_string.

End Py.

(** ** The pixel classifier *)

(** A pixel is the triple of its channel values; numpy hands them over as
    [uint8], that is integers of [0, 255]. *)
Definition pixel : Type := (Z * Z * Z)%type.

Definition uint8 (z : Z) : Prop := (0 <= z <= 255)%Z.

Definition pixel_ok (p : pixel) : Prop :=
  uint8 (fst (fst p)) /\ uint8 (snd (fst p)) /\ uint8 (snd p).

Definition ascii_chars : string := " .:-=+*%@#".

(** [0.2126 * pixel[0] + 0.7152 * pixel[1] + 0.0722 * pixel[2]], every
    operation a binary64 operation, summed from the left. *)
Definition intensity (p : pixel) : float :=
  let '(p0, p1, p2) := p in
  (0.2126 * Py.float_of_int p0 + 0.7152 * Py.float_of_int p1
   + 0.0722 * Py.float_of_int p2)%float.

(** [int((intensity / 255) * (len(ascii_chars) - 1))] *)
Definition glyph_index_of (lum : float) : result Z :=
  Py.int_of_float
    ((lum / Py.float_of_int 255)
     * Py.float_of_int (Z.of_nat (String.length ascii_chars) - 1))%float.

Definition glyph_index (p : pixel) : result Z := glyph_index_of (intensity p).

(** The colour: bit 0 for red, bit 1 for green, bit 2 for blue, each set
    when the channel exceeds 128. *)
Definition color_of (p : pixel) : Z :=
  let '(r, g, b) := p in
  let color := 0%Z in
  let color := if (128 <? r)%Z then Z.lor color 1 else color in
  let color := if (128 <? g)%Z then Z.lor color 2 else color in
  let color := if (128 <? b)%Z then Z.lor color 4 else color in
  color.

Definition get_ascii_char_and_color (p : pixel) : result (ascii * Z) :=
  let! i := glyph_index p in
  let! char := Py.str_index ascii_chars i in
  Ok (char, color_of p).

(** ** Decoding a raw frame *)

(** [np.frombuffer(raw, dtype=np.uint8)] *)
Definition frombuffer (raw : list Byte.byte) : list Z :=
  map (fun b => Z.of_N (Byte.to_N b)) raw.

(** The first [w] pixels of a flat run of channel values. *)
Fixpoint pixels_of (w : nat) (a : list Z) : list pixel :=
  match w with
  | O => []
  | S w' =>
      match a with
      | r :: g :: b :: rest => (r, g, b) :: pixels_of w' rest
      | _ => []
      end
  end.

(** [h] consecutive rows of [w] pixels each, in C (row-major) order. *)
Fixpoint rows_of (h w : nat) (a : list Z) : list (list pixel) :=
  match h with
  | O => []
  | S h' => pixels_of w (firstn (w * 3) a) :: rows_of h' w (skipn (w * 3) a)
  end.

(** [a.reshape(h, w, 3)]: numpy raises [ValueError] unless the array has
    exactly [h * w * 3] elements. *)
Definition reshape (a : list Z) (h w : nat) : result (list (list pixel)) :=
  if Nat.eqb (List.length a) (h * w * 3)
  then Ok (rows_of h w a)
  else Raise ValueError_reshape.

Definition decode (raw : list Byte.byte) (h w : nat)
  : result (list (list pixel)) :=
  reshape (frombuffer raw) h w.

(** ** The streaming loop *)

Definition cell : Type := (ascii * Z)%type.
Definition grid : Type := gmap (nat * nat) cell.

(** What the loop does to its collaborators, in the order it does it. *)
Inductive event : Type :=
| EvRead (n : nat) (data : list Byte.byte)
| EvSetColor (color : Z)
| EvPutChar (x y : nat) (ch : ascii)
| EvRefresh (frame : grid).

(** The byte source is the rest of the capture's output; the canvas is the
    character grid with its current colour attribute; the trace records the
    calls made so far, oldest first. *)
Record pump_state : Type := MkState {
  source : list Byte.byte;
  cells : grid;
  attr : Z;
  trace : list event
}.

Definition log (ev : event) (st : pump_state) : pump_state :=
  MkState (source st) (cells st) (attr st) (trace st ++ [ev]).

(** [ffmpeg.stdout.read(n)] on the buffered pipe: blocks until [n] bytes
    are there or the stream has ended, so a short result means the end of
    the stream. *)
Definition read (n : nat) (st : pump_state) : list Byte.byte * pump_state :=
  let data := firstn n (source st) in
  (data,
   log (EvRead n data)
     (MkState (skipn n (source st)) (cells st) (attr st) (trace st))).

Definition set_color_ansi (color : Z) (st : pump_state) : pump_state :=
  log (EvSetColor color) (MkState (source st) (cells st) color (trace st)).

Definition put_char (x y : nat) (ch : ascii) (st : pump_state) : pump_state :=
  log (EvPutChar x y ch)
    (MkState (source st) (<[(x, y) := (ch, attr st)]> (cells st))
       (attr st) (trace st)).

Definition refresh (st : pump_state) : pump_state :=
  log (EvRefresh (cells st)) st.

(** [for x, pixel in enumerate(row): ...], from column [x] on. *)
Fixpoint render_row (y x : nat) (row : list pixel) (st : pump_state)
  : result unit * pump_state :=
  match row with
  | [] => (Ok tt, st)
  | p :: rest =>
      match get_ascii_char_and_color p with
      | Raise e => (Raise e, st)
      | Ok (ch, color) =>
          render_row y (S x) rest (put_char x y ch (set_color_ansi color st))
      end
  end.

(** [for y, row in enumerate(frame): ...], from row [y] on. *)
Fixpoint render_rows (y : nat) (rows : list (list pixel)) (st : pump_state)
  : result unit * pump_state :=
  match rows with
  | [] => (Ok tt, st)
  | row :: rest =>
      match render_row y 0 row st with
      | (Raise e, st') => (Raise e, st')
      | (Ok _, st') => render_rows (S y) rest st'
      end
  end.

(** How a run of the loop ends: the source is exhausted, or an exception
    leaves the loop. *)
Inductive outcome : Type :=
| Drained
| Failed (e : exn).

(** [while True: ...] for a canvas of [cw] columns and [ch] rows. The loop
    is unbounded in the source; [fuel] bounds the iterations here and [None]
    says it ran out. *)
Fixpoint pump_loop (fuel : nat) (cw ch : nat) (st : pump_state)
  : option (outcome * pump_state) :=
  match fuel with
  | O => None
  | S fuel' =>
      let (raw_frame, st1) := read (cw * ch * 3) st in
      match raw_frame with
      | [] => Some (Drained, st1)
      | _ :: _ =>
          match decode raw_frame ch cw with
          | Raise e => Some (Failed e, st1)
          | Ok frame =>
              match render_rows 0 frame st1 with
              | (Raise e, st2) => Some (Failed e, st2)
              | (Ok _, st2) => pump_loop fuel' cw ch (refresh st2)
              end
          end
      end
  end.

Definition initial_state (src : list Byte.byte) : pump_state :=
  MkState src ∅ 0%Z [].

(** A run over a finite source: every iteration but the last consumes at
    least one byte, so one more iteration than there are bytes is enough. *)
Definition run (src : list Byte.byte) (cw ch : nat)
  : option (outcome * pump_state) :=
  pump_loop (S (List.length src)) cw ch (initial_state src).

(** The frames handed to the display, oldest first. *)
Fixpoint deliveries (tr : list event) : list grid :=
  match tr with
  | [] => []
  | EvRefresh f :: rest => f :: deliveries rest
  | _ :: rest => deliveries rest
  end.

(** ** Binary64 arithmetic on exact values

    The definitions the proofs about the float operations are stated with:
    exact values as integers, and the rounding of binary64 as an integer
    function. *)

Module B64.
Local Open Scope Z_scope.

(** Where [P / Q] sits between [floor (P / Q)] and the next integer. *)
Definition frac_loc (P Q : Z) : location :=
  if (P mod Q =? 0) then loc_Exact
  else loc_Inexact (2 * (P mod Q) ?= Q).

(** [P / Q] rounded to the nearest integer, ties to the even one. *)
Definition rne (P Q : Z) : Z := round_nearest_even (P / Q) (frac_loc P Q).

(** [N / D], in units of the smallest positive binary64 number, rounded to
    the nearest binary64 number in the same units: values below [2^53] units
    are rounded to an integer, larger ones keep 53 significant bits. *)
Definition rnd_shift (N D : Z) : Z := Z.max (Zdigits2 (N / D) - 53) 0.

Definition rnd_frac (N D : Z) : Z :=
  rne N (D * 2 ^ rnd_shift N D) * 2 ^ rnd_shift N D.

(** The shift record that stands for the fraction [P / Q]: its integer
    part, whether the rest reaches one half, and whether anything is left
    beyond that. *)
Definition rec_of (P Q : Z) : shr_record :=
  {| shr_m := P / Q;
     shr_r := Q <=? 2 * (P mod Q);
     shr_s := negb ((2 * (P mod Q)) mod Q =? 0) |}.

(** One, in units of [2^-1074]. *)
Definition one_u : Z := 2 ^ 1074.

(** The first value too large for a finite binary64 number, in the same
    units: [2^1024]. *)
Definition ovf : Z := 2 ^ 2098.

(** The value of a non-negative number, in units of [2^-1074]. *)
Definition sc (x : spec_float) : Z :=
  match x with
  | S754_finite _ m e => Z.pos m * 2 ^ (e + 1074)
  | _ => 0
  end.

(** Zero of either sign, or a positive finite number in canonical form. *)
Definition nnf (x : spec_float) : Prop :=
  match x with
  | S754_zero _ => True
  | S754_finite false m e => bounded prec emax m e = true
  | _ => False
  end.

Definition nnfb (x : spec_float) : bool :=
  match x with
  | S754_zero _ => true
  | S754_finite false m e => bounded prec emax m e
  | _ => false
  end.

(** What [binary_round_aux] settles on for the fraction [P / Q] at
    exponent [ex]: the bit length of the integer part, the exponent of the
    result, the number of bits cut off and the rounded mantissa. *)
Definition ra_digits (P Q : Z) : Z := Zdigits2 (P / Q).
Definition ra_exp (P Q ex : Z) : Z := fexp prec emax (ra_digits P Q + ex).
Definition ra_cut (P Q ex : Z) : Z := ra_exp P Q ex - ex.
Definition ra_mant (P Q ex : Z) : Z := rne P (Q * 2 ^ ra_cut P Q ex).

(** The same for a primitive float. *)
Definition fval (x : float) : Z := sc (Prim2SF x).
Definition fnn (x : float) : Prop := nnf (Prim2SF x).

(** The glyph index as a function of the exact luminance [v] (in units of
    [2^-1074]): divide by 255, round, multiply by 9, round, truncate. *)
Definition lum_index (v : Z) : Z :=
  rnd_frac (rnd_frac (v * one_u) (255 * one_u) * (9 * one_u)) one_u / one_u.

(** The values of a [uint8]. *)
Definition uint8_values : list Z := map Z.of_nat (seq 0 256).

(** Whether the product of a weight and a channel value is a non-negative
    number no larger than the product for the channel value 255, itself at
    most 256. *)
Definition channel_ok (w : float) (r : Z) : bool :=
  nnfb (Prim2SF (w * Py.float_of_int r)%float)
  && (fval (w * Py.float_of_int r)%float
      <=? fval (w * Py.float_of_int 255)%float)
  && (fval (w * Py.float_of_int 255)%float <=? 256 * one_u).

End B64.

(** ** What the properties of the loop are stated with *)

(** The channel value at an offset of a raw frame. *)
Definition chan (raw : list Byte.byte) (i : nat) : Z :=
  Z.of_N (Byte.to_N (nth i raw Byte.x00)).

(** The pixel at column [x] of row [y] of a raw frame [cw] pixels wide. *)
Definition pixel_at (raw : list Byte.byte) (cw x y : nat) : pixel :=
  let i := (y * cw + x) * 3 in
  (chan raw i, chan raw (i + 1), chan raw (i + 2)).

(** [g] is the frame of the raw chunk: every cell of the canvas holds the
    classification of its pixel, and nothing lies outside the canvas. *)
Definition is_frame_of (cw ch : nat) (g : grid) (raw : list Byte.byte)
  : Prop :=
  forall x y : nat,
    if (x <? cw)%nat && (y <? ch)%nat
    then exists c : cell,
           get_ascii_char_and_color (pixel_at raw cw x y) = Ok c
           /\ g !! (x, y) = Some c
    else g !! (x, y) = None.

(** Nothing is drawn outside the canvas. *)
Definition canvas_inv (cw ch : nat) (g : grid) : Prop :=
  forall x y : nat,
    (x <? cw)%nat && (y <? ch)%nat = false -> g !! (x, y) = None.



Definition is_draw (ev : event) : bool :=
  match ev with
  | EvSetColor _ | EvPutChar _ _ _ => true
  | _ => false
  end.



(** The traces of the loop, with whether a chunk has been read and not yet
    shown: a read happens only when nothing is in flight, drawing and the
    refresh only when a chunk is. *)
Inductive pump_trace : bool -> list event -> Prop :=
| pt_nil : pump_trace false []
| pt_eof (tr : list event) (n : nat) :
    pump_trace false tr -> pump_trace false (tr ++ [EvRead n []])
| pt_read (tr : list event) (n : nat) (b : Byte.byte) (data : list Byte.byte) :
    pump_trace false tr -> pump_trace true (tr ++ [EvRead n (b :: data)])
| pt_color (tr : list event) (c : Z) :
    pump_trace true tr -> pump_trace true (tr ++ [EvSetColor c])
| pt_put (tr : list event) (x y : nat) (ch : ascii) :
    pump_trace true tr -> pump_trace true (tr ++ [EvPutChar x y ch])
| pt_refresh (tr : list event) (g : grid) :
    pump_trace true tr -> pump_trace false (tr ++ [EvRefresh g]).

(** ** What the further properties are stated with *)

(** The chunks the reads returned, oldest first. *)
Fixpoint reads (tr : list event) : list (list Byte.byte) :=
  match tr with
  | [] => []
  | EvRead _ data :: rest => data :: reads rest
  | _ :: rest => reads rest
  end.

(** The calls that draw one pixel, one row and one frame of a raw chunk:
    the colour is set, then the character is put, column by column and row
    by row. *)
Definition pixel_calls (x y : nat) (p : pixel) : list event :=
  match get_ascii_char_and_color p with
  | Ok (c, color) => [EvSetColor color; EvPutChar x y c]
  | Raise _ => []
  end.

Definition row_calls (raw : list Byte.byte) (cw y : nat) : list event :=
  flat_map (fun x => pixel_calls x y (pixel_at raw cw x y)) (seq 0 cw).

Definition frame_calls (raw : list Byte.byte) (cw ch : nat) : list event :=
  flat_map (row_calls raw cw) (seq 0 ch).

(** The calls of one iteration over a full chunk, and of a run of them. *)
Definition iteration_calls (cw ch : nat) (raw : list Byte.byte) (g : grid)
  : list event :=
  EvRead (cw * ch * 3) raw :: frame_calls raw cw ch ++ [EvRefresh g].

Fixpoint iterations_calls (cw ch : nat) (frames : list (list Byte.byte))
         (grids : list grid) : list event :=
  match frames, grids with
  | f :: frames', g :: grids' =>
      iteration_calls cw ch f g ++ iterations_calls cw ch frames' grids'
  | _, _ => []
  end.


(** Whether the product of a weight and a channel value does not exceed
    the product for the next channel value. *)
Definition channel_step_ok (w : float) (r : Z) : bool :=
  (B64.fval (w * Py.float_of_int r)%float
   <=? B64.fval (w * Py.float_of_int (r + 1))%float)%Z.

(** Whether a grey level gets the index [floor (9 v / 255)], but for 255,
    which gets 8. *)
Definition grey_index (v : Z) : Z :=
  if (v =? 255)%Z then 8%Z else (9 * v / 255)%Z.

Definition grey_ok (v : Z) : bool :=
  match glyph_index (v, v, v) with
  | Ok i => (i =? grey_index v)%Z
  | Raise _ => false
  end.

(** The luminances at which the glyph index steps up, and the bucket of a
    luminance: the number of steps at or below it. *)
Definition glyph_thresholds : list float :=
  [28.333333333333332; 56.666666666666664; 85; 113.33333333333333;
   141.66666666666669; 170; 198.33333333333334; 226.66666666666666;
   255]%float.

Definition bucket (lum : float) : Z :=
  Z.of_nat (List.length (filter (fun t => (t <=? lum)%float) glyph_thresholds)).

(** Whether [t] is a step to index [k]: [t] has index [k], the float just
    below it, [p], has index [k - 1], and [t] is not a power of two. *)
Definition threshold_ok (t p : float) (k : Z) : bool :=
  match Prim2SF t, Prim2SF p with
  | S754_finite false m e, S754_finite false m' e' =>
      bounded prec emax m e && bounded prec emax m' e'
      && (2 ^ 52 <? Z.pos m)%Z && (Z.pos m' =? Z.pos m - 1)%Z && (e' =? e)%Z
      && (B64.fval t <=? 255 * B64.one_u)%Z
      && match glyph_index_of t, glyph_index_of p with
         | Ok i, Ok j => (i =? k)%Z && (j =? k - 1)%Z
         | _, _ => false
         end
  | _, _ => false
  end.

(** ** The script around the loop

    The rest of [start.py]: the imports, the dependency check, the function
    that starts the processes, runs the loop and cleans up, and the main
    block. What the script asks of its surroundings is answered by a
    [host]; what it does to them is logged as a list of calls. *)

From Stdlib Require Import DecimalString.

(** The exceptions that can travel through the script. [OSError] stands for
    what [Popen] and [subprocess.run] raise when the program cannot be
    started ([FileNotFoundError] and the like), [ImportError] for itself
    and [ModuleNotFoundError], [LibraryError] for what libcaca raises, and
    [Exn] carries the exceptions of the loop and of the arithmetic. *)
Inductive error : Type :=
| KeyboardInterrupt
| UnboundLocalError (name : string)
| OSError (argv : list string)
| CalledProcessError (argv : list string) (returncode : Z)
| ImportError (name : string)
| LibraryError (what : string)
| EOFError
| Exn (e : exn).

(** The three child processes, by the local variable that holds them. *)
Inductive proc : Type := Xephyr | App | Ffmpeg.

Definition var_name (p : proc) : string :=
  match p with
  | Xephyr => "xephyr"
  | App => "app_process"
  | Ffmpeg => "ffmpeg"
  end.

Definition proc_eqb (p q : proc) : bool :=
  match p, q with
  | Xephyr, Xephyr | App, App | Ffmpeg, Ffmpeg => true
  | _, _ => false
  end.

(** What the script does to its surroundings. [Popen] and [Run] are logged
    when the program was started, [NewCanvas] and [NewDisplay] when the
    object was made. *)
Inductive sys_call : Type :=
| Print (text : string)
| Which (name : string)
| Run (argv : list string)
| Input (prompt : string)
| SetEnv (name value : string)
| Popen (p : proc) (argv : list string)
| Sleep (seconds : nat)
| NewCanvas (w h : nat)
| NewDisplay
| Pump (ev : event)
| Terminate (p : proc).

(** The surroundings: at which step the user's Ctrl+C arrives, what the
    import system finds for a module that is not loaded yet ([None]: it
    loads), what [shutil.which] finds, how a command run to its end exits
    ([None]: it cannot be started), the line on the standard input, which
    programs [Popen] can start, whether libcaca makes the canvas and the
    display, the bytes ffmpeg writes, [sys.executable], and the modules
    loaded before the script starts. *)
Record host : Type := MkHost {
  interrupt : nat -> bool;
  finder : string -> option error;
  which : string -> bool;
  run_status : list string -> option Z;
  stdin_line : option string;
  spawns : list string -> bool;
  canvas_opens : nat -> nat -> bool;
  display_opens : bool;
  capture : list Byte.byte;
  executable : string;
  preloaded : list string
}.

(** The interpreter: the calls made so far, the number of points passed at
    which an interrupt is taken, [sys.modules], and the process variables
    bound in the frame of [run_xorg_app_in_xephyr]. *)
Record machine : Type := MkMachine {
  calls : list sys_call;
  clock : nat;
  modules : list string;
  bound : list proc
}.

Inductive ending (A : Type) : Type :=
| Done (a : A)
| Throw (e : error).
Arguments Done {A} a.
Arguments Throw {A} e.

Definition M (A : Type) : Type := machine -> ending A * machine.

Definition ret {A : Type} (a : A) : M A := fun m => (Done a, m).

Definition throw {A : Type} (e : error) : M A := fun m => (Throw e, m).

Definition bind {A B : Type} (c : M A) (k : A -> M B) : M B :=
  fun m =>
    match c m with
    | (Done a, m') => k a m'
    | (Throw e, m') => (Throw e, m')
    end.

Notation "'run!' x ':=' c 'in' k" := (bind c (fun x => k))
  (at level 10, x name, c at level 100, k at level 200).

(** [try: body / except <catches>: handler] *)
Definition try_except {A : Type} (body : M A) (catches : error -> bool)
           (handler : M A) : M A :=
  fun m =>
    match body m with
    | (Done a, m') => (Done a, m')
    | (Throw e, m') => if catches e then handler m' else (Throw e, m')
    end.

(** [try: body / finally: cleanup]: an exception of the cleanup replaces
    the outcome of the body. *)
Definition try_finally {A : Type} (body : M A) (cleanup : M unit) : M A :=
  fun m =>
    match body m with
    | (r, m') =>
        match cleanup m' with
        | (Done _, m'') => (r, m'')
        | (Throw e, m'') => (Throw e, m'')
        end
    end.

(** A point at which a pending interrupt is raised. *)
Definition checkpoint (h : host) : M unit :=
  fun m =>
    let m' := MkMachine (calls m) (S (clock m)) (modules m) (bound m) in
    if interrupt h (clock m) then (Throw KeyboardInterrupt, m')
    else (Done tt, m').

Definition emit (c : sys_call) : M unit :=
  fun m => (Done tt, MkMachine (calls m ++ [c]) (clock m) (modules m) (bound m)).

(** A call that returns nothing of use: the interrupt can come before it or
    after it. *)
Definition call (h : host) (c : sys_call) : M unit :=
  run! _ := checkpoint h in
  run! _ := emit c in
  checkpoint h.

Definition is_KeyboardInterrupt (e : error) : bool :=
  match e with KeyboardInterrupt => true | _ => false end.

Definition is_ImportError (e : error) : bool :=
  match e with ImportError _ => true | _ => false end.

(** *** Imports *)

Definition is_loaded (name : string) (m : machine) : bool :=
  existsb (String.eqb name) (modules m).

Definition load (name : string) : M unit :=
  fun m =>
    (Done tt, MkMachine (calls m) (clock m) (name :: modules m) (bound m)).

(** [import name]: a module in [sys.modules] is taken from there; another
    one is looked for, and loaded or not. *)
Definition import_module (h : host) (name : string) : M unit :=
  fun m =>
    if is_loaded name m then (Done tt, m)
    else (run! _ := checkpoint h in
          match finder h name with
          | None => load name
          | Some e => throw e
          end) m.

(** Lines 1 to 9. [from package.module import name] imports the package
    and then the module. *)
Definition imports (h : host) : M unit :=
  run! _ := import_module h "os" in
  run! _ := import_module h "subprocess" in
  run! _ := import_module h "sys" in
  run! _ := import_module h "shutil" in
  run! _ := import_module h "time" in
  run! _ := import_module h "numpy" in
  run! _ := import_module h "PIL" in
  run! _ := import_module h "PIL.Image" in
  run! _ := import_module h "caca" in
  run! _ := import_module h "caca.canvas" in
  run! _ := import_module h "caca" in
  import_module h "caca.display".

(** *** The dependency check *)

(** [shutil.which(name)], as a truth value. *)
Definition shutil_which (h : host) (name : string) : M bool :=
  run! _ := call h (Which name) in
  ret (which h name).

(** [subprocess.run(argv, check=True)] *)
Definition subprocess_run (h : host) (argv : list string) : M unit :=
  run! _ := checkpoint h in
  match run_status h argv with
  | None => throw (OSError argv)
  | Some code =>
      run! _ := emit (Run argv) in
      run! _ := checkpoint h in
      if (code =? 0)%Z then ret tt else throw (CalledProcessError argv code)
  end.

Definition apt_install (packages : list string) : list string :=
  ["sudo"; "apt-get"; "install"; "-y"]%string ++ packages.

Definition pip_install (h : host) : list string :=
  [executable h; "-m"; "pip"; "install"; "numpy"; "Pillow"; "caca"]%string.

Definition check_and_install_dependencies (h : host) : M unit :=
  run! _ := call h (Print "Checking dependencies...") in
  run! found := shutil_which h "Xephyr" in
  run! _ := (if found then ret tt
             else run! _ := call h (Print "Xephyr not found. Installing...") in
                  subprocess_run h (apt_install ["xserver-xephyr"%string])) in
  run! found := shutil_which h "ffmpeg" in
  run! _ := (if found then ret tt
             else run! _ := call h (Print "ffmpeg not found. Installing...") in
                  subprocess_run h (apt_install ["ffmpeg"%string])) in
  run! found := shutil_which h "cacaview" in
  run! _ := (if found then ret tt
             else run! _ := call h (Print "libcaca not found. Installing...") in
                  subprocess_run h
                    (apt_install ["libcaca-dev"; "caca-utils"]%string)) in
  run! _ := try_except
              (run! _ := import_module h "PIL" in
               run! _ := import_module h "numpy" in
               import_module h "caca")
              is_ImportError
              (run! _ := call h (Print
                   "Required Python packages not found. Installing...") in
               subprocess_run h (pip_install h)) in
  call h (Print "All dependencies are installed!").

(** *** The processes and the loop *)

(** [str(n)] *)
Definition str (n : nat) : string := NilEmpty.string_of_uint (Nat.to_uint n).

Definition nl : string := String "010"%char EmptyString.

(** [a // b] *)
Definition floordiv (a b : nat) : M nat :=
  if Nat.eqb b 0 then throw (Exn ZeroDivisionError) else ret (a / b).

Definition bind_local (p : proc) : M unit :=
  fun m => (Done tt, MkMachine (calls m) (clock m) (modules m) (p :: bound m)).

Definition is_bound (p : proc) (m : machine) : bool :=
  existsb (proc_eqb p) (bound m).

(** [variable = subprocess.Popen(argv, ...)]: the interrupt can come before
    the process is started, or after that and before the variable is
    bound. *)
Definition popen (h : host) (p : proc) (argv : list string) : M unit :=
  run! _ := checkpoint h in
  if spawns h argv
  then run! _ := emit (Popen p argv) in
       run! _ := checkpoint h in
       bind_local p
  else throw (OSError argv).

(** [variable.terminate()] *)
Definition terminate (h : host) (p : proc) : M unit :=
  run! _ := checkpoint h in
  fun m =>
    if is_bound p m
    then (run! _ := emit (Terminate p) in checkpoint h) m
    else (Throw (UnboundLocalError (var_name p)), m).

(** [Canvas(w, h)] and [Display(canvas)] *)
Definition new_canvas (h : host) (w ht : nat) : M unit :=
  run! _ := checkpoint h in
  if canvas_opens h w ht
  then run! _ := emit (NewCanvas w ht) in checkpoint h
  else throw (LibraryError "Canvas").

Definition new_display (h : host) : M unit :=
  run! _ := checkpoint h in
  if display_opens h
  then run! _ := emit NewDisplay in checkpoint h
  else throw (LibraryError "Display").

(** The first of the points [t], [t + 1], ..., [t + n] at which an interrupt
    is pending. *)
Definition first_interrupt (h : host) (t n : nat) : option nat :=
  List.find (fun j => interrupt h (t + j)) (seq 0 (S n)).

(** The loop of lines 80 to 95 over what ffmpeg writes: its calls are made
    one after the other until an interrupt is pending before one of them,
    or before the loop is left. (A run of the loop always has an outcome;
    the last case does not occur.) *)
Definition pump (h : host) (cw ch : nat) : M unit :=
  fun m =>
    match run (capture h) cw ch with
    | Some (out, st) =>
        let evs := map Pump (trace st) in
        match first_interrupt h (clock m) (List.length evs) with
        | Some j =>
            (Throw KeyboardInterrupt,
             MkMachine (calls m ++ firstn j evs) (clock m + S j)
               (modules m) (bound m))
        | None =>
            (match out with
             | Drained => Done tt
             | Failed e => Throw (Exn e)
             end,
             MkMachine (calls m ++ evs) (clock m + S (List.length evs))
               (modules m) (bound m))
        end
    | None => (Done tt, m)
    end.

Definition xephyr_cmd (width height : nat) : list string :=
  ["Xephyr"; ":1"; "-screen " ++ str width ++ "x" ++ str height;
   "-ac"; "-br"; "-noreset"]%string.

Definition ffmpeg_cmd (canvas_width canvas_height : nat) : list string :=
  ["ffmpeg"; "-f"; "x11grab"; "-i"; ":1";
   "-vf"; "scale=" ++ str canvas_width ++ ":" ++ str canvas_height;
   "-vcodec"; "rawvideo";
   "-pix_fmt"; "rgb24"; "-an"; "-sn"; "-f"; "rawvideo"; "-"]%string.

(** [Popen(command, shell=True)] runs the command with the shell. *)
Definition shell_cmd (command : string) : list string :=
  ["/bin/sh"; "-c"; command]%string.

(** The cleanup of lines 101 to 103. *)
Definition cleanup (h : host) : M unit :=
  run! _ := terminate h Xephyr in
  run! _ := terminate h App in
  terminate h Ffmpeg.

(** Lines 62 to 95. *)
Definition render (h : host) (command : string)
           (width height scale_factor : nat) : M unit :=
  run! _ := popen h App (shell_cmd command) in
  run! canvas_width := floordiv width (8 * scale_factor) in
  run! canvas_height := floordiv height (16 * scale_factor) in
  run! _ := new_canvas h canvas_width canvas_height in
  run! _ := new_display h in
  run! _ := popen h Ffmpeg (ffmpeg_cmd canvas_width canvas_height) in
  run! _ := call h (Print
              (nl ++ "Rendering application... Press Ctrl+C to exit.")) in
  pump h canvas_width canvas_height.

(** The function, in a fresh frame. *)
Definition run_xorg_app_in_xephyr (h : host) (command : string)
           (width height scale_factor : nat) : M unit :=
  fun m =>
    (run! _ := call h (SetEnv "DISPLAY" ":1") in
     run! _ := popen h Xephyr (xephyr_cmd width height) in
     run! _ := call h (Sleep 2) in
     try_finally
       (try_except (render h command width height scale_factor)
          is_KeyboardInterrupt
          (call h (Print (nl ++ "Exiting..."))))
       (cleanup h))
      (MkMachine (calls m) (clock m) (modules m) []).

(** *** The main block *)

(** [input(prompt)] *)
Definition input (h : host) (prompt : string) : M string :=
  run! _ := checkpoint h in
  run! _ := emit (Input prompt) in
  match stdin_line h with
  | Some line => run! _ := checkpoint h in ret line
  | None => throw EOFError
  end.

Definition main (h : host) : M unit :=
  run! _ := call h (Print
              "Welcome to the Fully-Featured GUI-to-TUI Converter!") in
  run! _ := call h (Print
              "This tool converts graphical apps into ASCII-based TUI with color.") in
  run! _ := call h (Print ("Press Ctrl+C to exit." ++ nl)) in
  run! _ := check_and_install_dependencies h in
  run! app_to_run := input h
              "Enter the GUI program to run (e.g., xclock, xterm): " in
  run_xorg_app_in_xephyr h app_to_run 800 600 2.

(** The state in which the script starts, and the script, run as the main
    module. *)
Definition boot (h : host) : machine := MkMachine [] 0 (preloaded h) [].

Definition script (h : host) : ending unit * machine :=
  (run! _ := imports h in main h) (boot h).

(** The processes started and the processes terminated, in order. *)
Fixpoint started (cs : list sys_call) : list proc :=
  match cs with
  | [] => []
  | Popen p _ :: rest => p :: started rest
  | _ :: rest => started rest
  end.

Fixpoint terminated (cs : list sys_call) : list proc :=
  match cs with
  | [] => []
  | Terminate p :: rest => p :: terminated rest
  | _ :: rest => terminated rest
  end.

(** The calls of the loop among the calls of the script. *)
Fixpoint pumped (cs : list sys_call) : list event :=
  match cs with
  | [] => []
  | Pump ev :: rest => ev :: pumped rest
  | _ :: rest => pumped rest
  end.

Definition is_run (c : sys_call) : bool :=
  match c with Run _ => true | _ => false end.

Definition quiet (h : host) : Prop := forall k : nat, interrupt h k = false.

(** The commands run to their end, in order. *)
Fixpoint ran (cs : list sys_call) : list (list string) :=
  match cs with
  | [] => []
  | Run argv :: rest => argv :: ran rest
  | _ :: rest => ran rest
  end.

(** Whether everything between the start of the display server and the
    loop can be done: the shell starts, the scale is not zero, libcaca makes
    the canvas and the display, ffmpeg starts. *)
Definition setup_ok (h : host) (command : string)
           (width height scale_factor : nat) : bool :=
  let cw := width / (8 * scale_factor) in
  let ch := height / (16 * scale_factor) in
  spawns h (shell_cmd command) && negb (Nat.eqb scale_factor 0)
  && canvas_opens h cw ch && display_opens h && spawns h (ffmpeg_cmd cw ch).

(** The calls made before the loop when nothing fails. *)
Definition setup_calls (command : string) (width height scale_factor : nat)
  : list sys_call :=
  let cw := width / (8 * scale_factor) in
  let ch := height / (16 * scale_factor) in
  [SetEnv "DISPLAY" ":1"; Popen Xephyr (xephyr_cmd width height); Sleep 2;
   Popen App (shell_cmd command); NewCanvas cw ch; NewDisplay;
   Popen Ffmpeg (ffmpeg_cmd cw ch);
   Print (nl ++ "Rendering application... Press Ctrl+C to exit.")].

(** A host on which everything is there and nobody interrupts, and one on
    which the user presses Ctrl+C once, at point [k]. *)
Definition plain_host (cap : list Byte.byte) : host :=
  MkHost (fun _ => false) (fun _ => None) (fun _ => true)
    (fun _ => Some 0%Z) (Some "xclock"%string) (fun _ => true)
    (fun _ _ => true) true cap "python3" [].

Definition interrupted_host (k : nat) (cap : list Byte.byte) : host :=
  MkHost (Nat.eqb k) (fun _ => None) (fun _ => true)
    (fun _ => Some 0%Z) (Some "xclock"%string) (fun _ => true)
    (fun _ _ => true) true cap "python3" [].

(** The three parts of the function: the start of the display server, the
    guarded block and the cleanup. *)
Definition start_server (h : host) (width height : nat) : M unit :=
  run! _ := call h (SetEnv "DISPLAY" ":1") in
  run! _ := popen h Xephyr (xephyr_cmd width height) in
  call h (Sleep 2).

Definition guarded (h : host) (command : string)
           (width height scale_factor : nat) : M unit :=
  try_except (render h command width height scale_factor)
    is_KeyboardInterrupt (call h (Print (nl ++ "Exiting..."))).

(** The check of the Python packages, lines 35 to 41. *)
Definition ensure_packages (h : host) : M unit :=
  try_except
    (run! _ := import_module h "PIL" in
     run! _ := import_module h "numpy" in
     import_module h "caca")
    is_ImportError
    (run! _ := call h (Print
         "Required Python packages not found. Installing...") in
     subprocess_run h (pip_install h)).

(** The end of the dependency check. *)
Definition finish (h : host) : M unit :=
  run! _ := ensure_packages h in
  call h (Print "All dependencies are installed!").

Definition apt_xephyr : list string := apt_install ["xserver-xephyr"%string].
Definition apt_ffmpeg : list string := apt_install ["ffmpeg"%string].
Definition apt_caca : list string :=
  apt_install ["libcaca-dev"; "caca-utils"]%string.

(** Classes of calls. *)
Definition is_pump (c : sys_call) : bool :=
  match c with Pump _ => true | _ => false end.

Definition is_pip_notice (c : sys_call) : bool :=
  match c with
  | Print text =>
      String.eqb text "Required Python packages not found. Installing..."
  | _ => false
  end.

(** Whether two argument vectors are the same. *)
Fixpoint argv_eqb (a b : list string) : bool :=
  match a, b with
  | [], [] => true
  | x :: a', y :: b' => String.eqb x y && argv_eqb a' b'
  | _, _ => false
  end.

(** The calls that belong to the installation of the Python packages, and
    the commands other than the three [apt-get] ones. *)
Definition is_unexpected (c : sys_call) : bool :=
  match c with
  | Run argv =>
      negb (argv_eqb argv apt_xephyr || argv_eqb argv apt_ffmpeg
            || argv_eqb argv apt_caca)
  | _ => is_pip_notice c
  end.

(** The three packages are in [sys.modules]. *)
Definition packages_loaded (ms : list string) : Prop :=
  existsb (String.eqb "PIL") ms = true /\
  existsb (String.eqb "numpy") ms = true /\
  existsb (String.eqb "caca") ms = true.

(** A computation that keeps a property of [sys.modules] and makes no call
    of a class. *)
Definition silent (inv : list string -> Prop) (cls : sys_call -> bool)
           {A : Type} (c : M A) : Prop :=
  forall m : machine,
    inv (modules m) ->
    inv (modules (snd (c m))) /\
    List.filter cls (calls (snd (c m))) = List.filter cls (calls m).

(** A computation whose loop calls are the first calls of a trace. *)
Definition pumps_prefix (tr : list event) {A : Type} (c : M A) : Prop :=
  forall m : machine,
    exists j : nat,
      pumped (calls (snd (c m))) = pumped (calls m) ++ firstn j tr.

(** * Properties *)

(** ** The rounding of binary64 *)

Section Binary64.
Import B64.
Local Open Scope Z_scope.


(** *** Bit lengths *)

Lemma digits2_pos_size (p : positive) : digits2_pos p = Pos.size p.
Proof. induction p as [p IH|p IH|]; simpl; congruence. Qed.

Lemma Zdigits2_log2 (m : Z) : 0 < m -> Zdigits2 m = Z.log2 m + 1.
Proof.
  destruct m as [|p|p]; try lia. intros _.
  simpl. rewrite digits2_pos_size.
  destruct p as [p|p|]; simpl; lia.
Qed.

Lemma Zdigits2_bounds (m : Z) :
  0 < m -> 2 ^ (Zdigits2 m - 1) <= m < 2 ^ Zdigits2 m.
Proof.
  intros Hm. rewrite Zdigits2_log2 by assumption.
  replace (Z.log2 m + 1 - 1) with (Z.log2 m) by lia.
  replace (Z.log2 m + 1) with (Z.succ (Z.log2 m)) by lia.
  apply Z.log2_spec; assumption.
Qed.

Lemma Zdigits2_unique (m k : Z) :
  1 <= k -> 2 ^ (k - 1) <= m < 2 ^ k -> Zdigits2 m = k.
Proof.
  intros Hk Hm.
  assert (0 < m) by (pose proof (Z.pow_pos_nonneg 2 (k - 1)); lia).
  rewrite Zdigits2_log2 by assumption.
  rewrite (Z.log2_unique m (k - 1)); try lia.
  replace (Z.succ (k - 1)) with k by lia. assumption.
Qed.

Lemma Zdigits2_nonneg (m : Z) : 0 <= Zdigits2 m.
Proof. destruct m; simpl; lia. Qed.

Lemma Zdigits2_pos (m : Z) : 0 < m -> 1 <= Zdigits2 m.
Proof. destruct m; simpl; lia. Qed.

Lemma Zdigits2_lt_pow2 (m k : Z) : 0 <= m -> 0 <= k -> m < 2 ^ k -> Zdigits2 m <= k.
Proof.
  intros Hm Hk Hlt.
  destruct (Z.eq_dec m 0) as [->|Hne]; [simpl; lia|].
  destruct (Z_le_gt_dec (Zdigits2 m) k) as [|Hgt]; [assumption|exfalso].
  pose proof (Zdigits2_bounds m ltac:(lia)) as [Hlo _].
  assert (2 ^ k <= 2 ^ (Zdigits2 m - 1)) by (apply Z.pow_le_mono_r; lia).
  lia.
Qed.

Lemma Zdigits2_ge_pow2 (m k : Z) : 0 <= k -> 2 ^ k <= m -> k + 1 <= Zdigits2 m.
Proof.
  intros Hk Hle.
  assert (0 < m) by (pose proof (Z.pow_pos_nonneg 2 k); lia).
  pose proof (Zdigits2_bounds m ltac:(lia)) as [_ Hhi].
  destruct (Z_le_gt_dec (k + 1) (Zdigits2 m)) as [|Hgt]; [assumption|exfalso].
  assert (2 ^ Zdigits2 m <= 2 ^ k).
  { apply Z.pow_le_mono_r; try lia. }
  lia.
Qed.

Lemma Zdigits2_mono (a b : Z) : 0 <= a <= b -> Zdigits2 a <= Zdigits2 b.
Proof.
  intros [Ha Hab].
  destruct (Z.eq_dec a 0) as [->|Hne]; [apply Zdigits2_nonneg|].
  rewrite !Zdigits2_log2 by lia.
  pose proof (Z.log2_le_mono a b Hab). lia.
Qed.

(** *** Rounding a fraction to the nearest integer, ties to even *)

Lemma rne_bounds (P Q : Z) : 0 < Q -> P / Q <= rne P Q <= P / Q + 1.
Proof.
  intros HQ. unfold rne, frac_loc, round_nearest_even.
  destruct (P mod Q =? 0); [lia|].
  destruct (2 * (P mod Q) ?= Q); try lia.
  destruct (Z.even (P / Q)); lia.
Qed.

Lemma rne_exact (k Q : Z) : 0 < Q -> rne (k * Q) Q = k.
Proof.
  intros HQ. unfold rne, frac_loc.
  rewrite Z.mod_mul by lia. simpl. apply Z.div_mul. lia.
Qed.

Lemma rne_mono (P1 Q1 P2 Q2 : Z) :
  0 < Q1 -> 0 < Q2 -> P1 * Q2 <= P2 * Q1 -> rne P1 Q1 <= rne P2 Q2.
Proof.
  intros H1 H2 Hle.
  pose proof (Z.div_mod P1 Q1 ltac:(lia)) as E1.
  pose proof (Z.div_mod P2 Q2 ltac:(lia)) as E2.
  pose proof (Z.mod_pos_bound P1 Q1 H1) as B1.
  pose proof (Z.mod_pos_bound P2 Q2 H2) as B2.
  assert (Hfl : P1 / Q1 <= P2 / Q2).
  { apply Z.div_le_lower_bound; [lia|].
    assert (Q1 * (P1 / Q1) <= P1) by lia.
    assert (Q1 * (Q2 * (P1 / Q1)) <= Q1 * P2) by nia.
    apply Z.mul_le_mono_pos_l with (p := Q1); assumption. }
  destruct (Z.eq_dec (P1 / Q1) (P2 / Q2)) as [Heq|Hne].
  - (* same floor: compare the positions *)
    assert (Hr : (P1 mod Q1) * Q2 <= (P2 mod Q2) * Q1) by nia.
    unfold rne, frac_loc, round_nearest_even. rewrite <- Heq.
    destruct (Z.eqb_spec (P1 mod Q1) 0) as [Hz1|Hz1];
      destruct (Z.eqb_spec (P2 mod Q2) 0) as [Hz2|Hz2].
    + lia.
    + destruct (2 * (P2 mod Q2) ?= Q2); try lia.
      destruct (Z.even (P1 / Q1)); lia.
    + exfalso. nia.
    + destruct (Z.compare_spec (2 * (P1 mod Q1)) Q1) as [C1|C1|C1];
        destruct (Z.compare_spec (2 * (P2 mod Q2)) Q2) as [C2|C2|C2];
        try (destruct (Z.even (P1 / Q1)); lia); try lia; exfalso; nia.
  - pose proof (rne_bounds P1 Q1 H1). pose proof (rne_bounds P2 Q2 H2). lia.
Qed.

Lemma rne_ext (P1 Q1 P2 Q2 : Z) :
  0 < Q1 -> 0 < Q2 -> P1 * Q2 = P2 * Q1 -> rne P1 Q1 = rne P2 Q2.
Proof.
  intros H1 H2 E. apply Z.le_antisymm; apply rne_mono; lia.
Qed.

Lemma rne_nonneg (P Q : Z) : 0 <= P -> 0 < Q -> 0 <= rne P Q.
Proof.
  intros HP HQ. pose proof (rne_bounds P Q HQ).
  pose proof (Z.div_pos P Q HP HQ). lia.
Qed.

Lemma rne_le_int (P Q k : Z) : 0 < Q -> P <= k * Q -> rne P Q <= k.
Proof.
  intros HQ H. rewrite <- (rne_exact k Q HQ).
  apply rne_mono; try lia. apply Z.mul_le_mono_nonneg_r; lia.
Qed.

Lemma rne_ge_int (P Q k : Z) : 0 < Q -> k * Q <= P -> k <= rne P Q.
Proof.
  intros HQ H. rewrite <- (rne_exact k Q HQ).
  apply rne_mono; try lia. apply Z.mul_le_mono_nonneg_r; lia.
Qed.

(** *** The rounding of binary64, on fractions of the smallest subnormal *)

Lemma div_le_cross (P1 Q1 P2 Q2 : Z) :
  0 < Q1 -> 0 < Q2 -> P1 * Q2 <= P2 * Q1 -> P1 / Q1 <= P2 / Q2.
Proof.
  intros H1 H2 Hle.
  pose proof (Z.div_mod P1 Q1 ltac:(lia)) as E1.
  pose proof (Z.mod_pos_bound P1 Q1 H1) as B1.
  apply Z.div_le_lower_bound; [lia|].
  assert (Q1 * (P1 / Q1) <= P1) by lia.
  assert (Q1 * (Q2 * (P1 / Q1)) <= Q1 * P2) by nia.
  apply Z.mul_le_mono_pos_l with (p := Q1); assumption.
Qed.

Lemma rnd_shift_nonneg (N D : Z) : 0 <= rnd_shift N D.
Proof. unfold rnd_shift. lia. Qed.

Lemma rnd_frac_nonneg (N D : Z) : 0 <= N -> 0 < D -> 0 <= rnd_frac N D.
Proof.
  intros HN HD. unfold rnd_frac.
  pose proof (rnd_shift_nonneg N D) as Hn.
  assert (0 < 2 ^ rnd_shift N D) by (apply Z.pow_pos_nonneg; lia).
  apply Z.mul_nonneg_nonneg; [|lia].
  apply rne_nonneg; [assumption|]. apply Z.mul_pos_pos; lia.
Qed.

Lemma rnd_frac_mono (N1 D1 N2 D2 : Z) :
  0 <= N1 -> 0 < D1 -> 0 < D2 -> N1 * D2 <= N2 * D1 ->
  rnd_frac N1 D1 <= rnd_frac N2 D2.
Proof.
  intros HN1 HD1 HD2 Hle.
  assert (HN2 : 0 <= N2) by nia.
  assert (Hm : N1 / D1 <= N2 / D2) by (apply div_le_cross; assumption).
  assert (Hm1 : 0 <= N1 / D1) by (apply Z.div_pos; lia).
  pose proof (Zdigits2_mono (N1 / D1) (N2 / D2) ltac:(lia)) as Hd.
  unfold rnd_frac.
  set (n1 := rnd_shift N1 D1). set (n2 := rnd_shift N2 D2).
  assert (Hn1 : 0 <= n1) by apply rnd_shift_nonneg.
  assert (Hn2 : 0 <= n2) by apply rnd_shift_nonneg.
  assert (Hn : n1 <= n2) by (unfold n1, n2, rnd_shift; lia).
  assert (Hp1 : 0 < 2 ^ n1) by (apply Z.pow_pos_nonneg; lia).
  assert (Hp2 : 0 < 2 ^ n2) by (apply Z.pow_pos_nonneg; lia).
  destruct (Z.eq_dec n1 n2) as [E|NE].
  - rewrite <- E. apply Z.mul_le_mono_nonneg_r; [lia|].
    apply rne_mono; try (apply Z.mul_pos_pos; lia).
    replace (N1 * (D2 * 2 ^ n1)) with (N1 * D2 * 2 ^ n1) by ring.
    replace (N2 * (D1 * 2 ^ n1)) with (N2 * D1 * 2 ^ n1) by ring.
    apply Z.mul_le_mono_nonneg_r; lia.
  - (* the larger value sits in a higher binade *)
    assert (Hlt : n1 < n2) by lia.
    set (d1 := Zdigits2 (N1 / D1)) in *.
    set (k := Z.max d1 n1).
    assert (Hd1 : 0 <= d1) by apply Zdigits2_nonneg.
    assert (Hk : n1 <= k <= n1 + 53) by (unfold k, n1, rnd_shift; fold d1; lia).
    (* the smaller result is at most [2^k] *)
    assert (Hm1lt : N1 / D1 < 2 ^ d1).
    { destruct (Z.eq_dec (N1 / D1) 0) as [Z0|NZ].
      - rewrite Z0. apply Z.pow_pos_nonneg; lia.
      - apply Zdigits2_bounds. lia. }
    assert (HN1lt : N1 < D1 * 2 ^ k).
    { pose proof (Z.div_mod N1 D1 ltac:(lia)).
      pose proof (Z.mod_pos_bound N1 D1 HD1).
      assert (2 ^ d1 <= 2 ^ k) by (apply Z.pow_le_mono_r; lia).
      nia. }
    assert (Hpk : 2 ^ k = 2 ^ (k - n1) * 2 ^ n1).
    { rewrite <- Z.pow_add_r by lia. f_equal. lia. }
    assert (Hr1 : rne N1 (D1 * 2 ^ n1) <= 2 ^ (k - n1)).
    { apply rne_le_int; [apply Z.mul_pos_pos; lia|].
      replace (2 ^ (k - n1) * (D1 * 2 ^ n1)) with (D1 * (2 ^ (k - n1) * 2 ^ n1)) by ring.
      rewrite <- Hpk. lia. }
    (* the larger one at least [2^(n2 + 52)] *)
    assert (Hd2 : Zdigits2 (N2 / D2) = n2 + 53) by (unfold n2, rnd_shift in *; lia).
    assert (Hm2 : 2 ^ (n2 + 52) <= N2 / D2).
    { assert (0 < N2 / D2).
      { destruct (Z.eq_dec (N2 / D2) 0) as [Z0|NZ]; [rewrite Z0 in Hd2; simpl in Hd2; lia|lia]. }
      pose proof (Zdigits2_bounds (N2 / D2) ltac:(lia)) as [Hlo _].
      rewrite Hd2 in Hlo. replace (n2 + 53 - 1) with (n2 + 52) in Hlo by lia. exact Hlo. }
    assert (Hp52 : 2 ^ (n2 + 52) = 2 ^ 52 * 2 ^ n2).
    { rewrite <- Z.pow_add_r by lia. f_equal. lia. }
    assert (Hr2 : 2 ^ 52 <= rne N2 (D2 * 2 ^ n2)).
    { apply rne_ge_int; [apply Z.mul_pos_pos; lia|].
      pose proof (Z.div_mod N2 D2 ltac:(lia)).
      pose proof (Z.mod_pos_bound N2 D2 HD2).
      replace (2 ^ 52 * (D2 * 2 ^ n2)) with (D2 * (2 ^ 52 * 2 ^ n2)) by ring.
      rewrite <- Hp52. nia. }
    assert (Hkk : 2 ^ k <= 2 ^ (n2 + 52)) by (apply Z.pow_le_mono_r; lia).
    assert (rne N1 (D1 * 2 ^ n1) * 2 ^ n1 <= 2 ^ k).
    { rewrite Hpk. apply Z.mul_le_mono_nonneg_r; lia. }
    assert (2 ^ (n2 + 52) <= rne N2 (D2 * 2 ^ n2) * 2 ^ n2).
    { rewrite Hp52. apply Z.mul_le_mono_nonneg_r; lia. }
    lia.
Qed.

Lemma rnd_frac_ext (N1 D1 N2 D2 : Z) :
  0 <= N1 -> 0 <= N2 -> 0 < D1 -> 0 < D2 -> N1 * D2 = N2 * D1 ->
  rnd_frac N1 D1 = rnd_frac N2 D2.
Proof.
  intros. apply Z.le_antisymm; apply rnd_frac_mono; lia.
Qed.

(** *** The shift with round and sticky bits *)

Lemma rec_of_cases (P Q : Z) :
  0 < Q ->
  let r := P mod Q in
  (r = 0 /\ (Q <=? 2 * r) = false /\ negb ((2 * r) mod Q =? 0) = false) \/
  (r <> 0 /\ 2 * r < Q /\ (Q <=? 2 * r) = false /\ negb ((2 * r) mod Q =? 0) = true) \/
  (r <> 0 /\ 2 * r = Q /\ (Q <=? 2 * r) = true /\ negb ((2 * r) mod Q =? 0) = false) \/
  (r <> 0 /\ Q < 2 * r /\ (Q <=? 2 * r) = true /\ negb ((2 * r) mod Q =? 0) = true).
Proof.
  intros HQ r. pose proof (Z.mod_pos_bound P Q HQ) as B. fold r in B.
  destruct (Z.eq_dec r 0) as [E|NE].
  - left. rewrite E. replace (2 * 0) with 0 by lia.
    rewrite Z.mod_0_l by lia. repeat split.
    apply Z.leb_gt. lia.
  - right. destruct (Z.lt_total (2 * r) Q) as [C|[C|C]].
    + left. rewrite Z.mod_small by lia. repeat split; try assumption.
      * apply Z.leb_gt. lia.
      * apply negb_true_iff, Z.eqb_neq. lia.
    + right; left. rewrite C, Z.mod_same by lia. repeat split; try assumption.
      apply Z.leb_refl.
    + right; right.
      assert (Es : (2 * r) mod Q = 2 * r - Q).
      { symmetry. apply Z.mod_unique with (q := 1); lia. }
      rewrite Es. repeat split; try assumption.
      * apply Z.leb_le. lia.
      * apply negb_true_iff, Z.eqb_neq. lia.
Qed.

Lemma shr_record_of_loc_frac (P Q : Z) :
  0 < Q -> shr_record_of_loc (P / Q) (frac_loc P Q) = rec_of P Q.
Proof.
  intros HQ. unfold frac_loc, rec_of.
  destruct (rec_of_cases P Q HQ) as [(E & -> & ->)|[(NE & C & -> & ->)|[(NE & C & -> & ->)|(NE & C & -> & ->)]]].
  - rewrite E. reflexivity.
  - apply Z.eqb_neq in NE. rewrite NE.
    apply Z.compare_lt_iff in C. rewrite C. reflexivity.
  - apply Z.eqb_neq in NE. rewrite NE.
    apply Z.compare_eq_iff in C. rewrite C. reflexivity.
  - apply Z.eqb_neq in NE. rewrite NE.
    apply Z.compare_gt_iff in C. rewrite C. reflexivity.
Qed.

Lemma loc_of_rec_of (P Q : Z) :
  0 < Q -> loc_of_shr_record (rec_of P Q) = frac_loc P Q.
Proof.
  intros HQ. rewrite <- shr_record_of_loc_frac by assumption.
  destruct (frac_loc P Q) as [|[]]; reflexivity.
Qed.

Lemma shr_1_nonneg (m : Z) (r s : bool) :
  0 <= m ->
  shr_1 (Build_shr_record m r s) = Build_shr_record (m / 2) (Z.odd m) (r || s).
Proof.
  intros Hm. destruct m as [|p|p]; [reflexivity| |lia].
  destruct p as [p|p|]; simpl shr_1.
  - f_equal. rewrite Pos2Z.inj_xI.
    apply Z.div_unique with (r := 1); lia.
  - f_equal. rewrite Pos2Z.inj_xO.
    apply Z.div_unique with (r := 0); lia.
  - reflexivity.
Qed.

Lemma shr_1_rec_of (P Q : Z) :
  0 <= P -> 0 < Q -> shr_1 (rec_of P Q) = rec_of P (Q * 2).
Proof.
  intros HP HQ. unfold rec_of at 1.
  rewrite shr_1_nonneg by (apply Z.div_pos; lia).
  pose proof (Z.mod_pos_bound P Q HQ) as B.
  pose proof (Z.mod_pos_bound (P / Q) 2 ltac:(lia)) as B2.
  assert (Em : P mod (Q * 2) = P mod Q + Q * ((P / Q) mod 2))
    by (apply Z.rem_mul_r; lia).
  assert (Eo : Z.odd (P / Q) = ((P / Q) mod 2 =? 1)).
  { rewrite Zmod_odd. destruct (Z.odd (P / Q)); reflexivity. }
  assert (Es : (2 * (P mod (Q * 2))) mod (Q * 2) = 2 * (P mod Q)).
  { rewrite Em. symmetry.
    apply Z.mod_unique with (q := (P / Q) mod 2); lia. }
  unfold rec_of. rewrite Es. f_equal.
  - apply Z.div_div; lia.
  - rewrite Eo, Em.
    destruct (Z.eqb_spec ((P / Q) mod 2) 1) as [E|NE].
    + rewrite E. symmetry. apply Z.leb_le. lia.
    + assert (E0 : (P / Q) mod 2 = 0) by lia. rewrite E0.
      symmetry. apply Z.leb_gt. lia.
  - destruct (rec_of_cases P Q HQ) as [(E & -> & ->)|[(NE & C & -> & ->)|[(NE & C & -> & ->)|(NE & C & -> & ->)]]]; simpl orb.
    + rewrite E. reflexivity.
    + symmetry. apply negb_true_iff, Z.eqb_neq. lia.
    + symmetry. apply negb_true_iff, Z.eqb_neq. lia.
    + symmetry. apply negb_true_iff, Z.eqb_neq. lia.
Qed.

Lemma iter_shr_1_rec_of (p : positive) (P Q : Z) :
  0 <= P -> 0 < Q ->
  iter_pos shr_1 p (rec_of P Q) = rec_of P (Q * 2 ^ Z.pos p).
Proof.
  intros HP. revert Q.
  induction p as [p IH|p IH|]; intros Q HQ; cbn [iter_pos].
  - assert (0 < 2 ^ Z.pos p) by (apply Z.pow_pos_nonneg; lia).
    rewrite shr_1_rec_of by lia.
    rewrite IH by lia. rewrite IH by (apply Z.mul_pos_pos; lia).
    f_equal. replace (Z.pos p~1) with (1 + (Z.pos p + Z.pos p)) by lia.
    rewrite !Z.pow_add_r by lia. rewrite Z.pow_1_r. ring.
  - assert (0 < 2 ^ Z.pos p) by (apply Z.pow_pos_nonneg; lia).
    rewrite IH by lia. rewrite IH by (apply Z.mul_pos_pos; lia).
    f_equal. replace (Z.pos p~0) with (Z.pos p + Z.pos p) by lia.
    rewrite Z.pow_add_r by lia. ring.
  - rewrite shr_1_rec_of by lia. reflexivity.
Qed.

Lemma shr_rec_of (P Q e n : Z) :
  0 <= P -> 0 < Q ->
  shr (rec_of P Q) e n = (rec_of P (Q * 2 ^ Z.max n 0), e + Z.max n 0).
Proof.
  intros HP HQ. unfold shr. destruct n as [|p|p].
  - simpl. rewrite Z.mul_1_r, Z.add_0_r. reflexivity.
  - rewrite iter_shr_1_rec_of by assumption.
    replace (Z.max (Z.pos p) 0) with (Z.pos p) by lia. reflexivity.
  - replace (Z.max (Z.neg p) 0) with 0 by lia.
    simpl. rewrite Z.mul_1_r, Z.add_0_r. reflexivity.
Qed.

(** *** Binary64 values in units of the smallest subnormal *)

Lemma fexp64 (e : Z) : fexp prec emax e = Z.max (e - 53) (-1074).
Proof. reflexivity. Qed.

Lemma pow2_pos (n : Z) : 0 <= n -> 0 < 2 ^ n.
Proof. intros. apply Z.pow_pos_nonneg; lia. Qed.

Lemma pow2_split (a b : Z) : 0 <= a -> 0 <= b -> 2 ^ (a + b) = 2 ^ a * 2 ^ b.
Proof. intros. apply Z.pow_add_r; assumption. Qed.

Lemma one_u_pos : 0 < one_u.
Proof. apply pow2_pos. lia. Qed.

Lemma pow2_lt_ovf (k : Z) : 0 <= k -> 2 ^ k < ovf -> k < 2098.
Proof.
  intros Hk H. unfold ovf in H.
  apply Z.pow_lt_mono_r_iff in H; [exact H| |]; clear; lia.
Qed.

Lemma pow2_le_lt_ovf (k x : Z) : 0 <= k -> 2 ^ k <= x -> x < ovf -> k < 2098.
Proof.
  intros Hk H1 H2. apply pow2_lt_ovf; [assumption|].
  eapply Z.le_lt_trans; eassumption.
Qed.

Lemma bounded_iff (m : positive) (e : Z) :
  bounded prec emax m e = true <->
  Z.max (Zdigits2 (Z.pos m) + e - 53) (-1074) = e /\ e <= 971.
Proof.
  unfold bounded, canonical_mantissa. rewrite fexp64.
  rewrite andb_true_iff, Z.eqb_eq, Z.leb_le. simpl Zdigits2.
  change (emax - prec) with 971. reflexivity.
Qed.

Lemma cancel_lt (x y c : Z) : 0 < c -> x * c < y * c -> x < y.
Proof. intros Hc H. apply Z.mul_lt_mono_pos_r in H; assumption. Qed.

Lemma cancel_le (x y c : Z) : 0 < c -> x * c <= y * c -> x <= y.
Proof. intros Hc H. apply Z.mul_le_mono_pos_r in H; assumption. Qed.

(** The digits of [N / D] when [N / D = (P / Q) * 2^(a - b)]. *)
Lemma link_digits (P Q N D a b d : Z) :
  0 <= P -> 0 < Q -> 0 <= N -> 0 < D -> 0 <= a -> 0 <= b -> 0 <= d ->
  N * Q * 2 ^ b = P * D * 2 ^ a ->
  P < Q * 2 ^ d -> (0 < d -> Q * 2 ^ (d - 1) <= P) -> (d = 0 -> a <= b) ->
  Z.max (Zdigits2 (N / D) - 53) 0 = Z.max (d + a - b - 53) 0.
Proof.
  intros HP HQ HN HD Ha Hb Hd Hlink Hhi Hlo Hd0.
  pose proof (pow2_pos a Ha) as Hpa. pose proof (pow2_pos b Hb) as Hpb.
  pose proof (pow2_pos d Hd) as Hpd.
  assert (Hup : P * (D * 2 ^ a) < Q * 2 ^ d * (D * 2 ^ a)).
  { apply Z.mul_lt_mono_pos_r; [apply Z.mul_pos_pos; lia|assumption]. }
  destruct (Z_le_gt_dec (d + a - b) 0) as [Hsmall|Hbig].
  - (* the quotient is below one unit *)
    assert (HND : N < D).
    { assert (Hp : 2 ^ (d + a) <= 2 ^ b) by (apply Z.pow_le_mono_r; lia).
      rewrite pow2_split in Hp by lia.
      apply cancel_lt with (c := Q * 2 ^ b); [apply Z.mul_pos_pos; lia|].
      replace (N * (Q * 2 ^ b)) with (P * (D * 2 ^ a)) by lia.
      eapply Z.lt_le_trans; [exact Hup|].
      replace (Q * 2 ^ d * (D * 2 ^ a)) with (D * Q * (2 ^ d * 2 ^ a)) by ring.
      replace (D * (Q * 2 ^ b)) with (D * Q * 2 ^ b) by ring.
      apply Z.mul_le_mono_nonneg_l; [|assumption].
      apply Z.mul_nonneg_nonneg; lia. }
    rewrite Z.div_small by lia. simpl Zdigits2. lia.
  - assert (Hd1 : 0 < d) by lia.
    specialize (Hlo Hd1).
    pose proof (pow2_pos (d - 1) ltac:(lia)) as Hpd1.
    pose proof (pow2_pos (d + a - b) ltac:(lia)) as Hpk.
    pose proof (pow2_pos (d + a - b - 1) ltac:(lia)) as Hpk1.
    assert (EK : 2 ^ (d + a - b) * 2 ^ b = 2 ^ d * 2 ^ a).
    { rewrite <- !pow2_split by lia. f_equal. lia. }
    assert (EK1 : 2 ^ (d + a - b - 1) * 2 ^ b = 2 ^ (d - 1) * 2 ^ a).
    { rewrite <- !pow2_split by lia. f_equal. lia. }
    assert (Hdig : Zdigits2 (N / D) = d + a - b).
    { apply Zdigits2_unique; [lia|]. split.
      - apply Z.div_le_lower_bound; [lia|].
        apply cancel_le with (c := Q * 2 ^ b); [apply Z.mul_pos_pos; lia|].
        replace (N * (Q * 2 ^ b)) with (P * (D * 2 ^ a)) by lia.
        replace (D * 2 ^ (d + a - b - 1) * (Q * 2 ^ b))
          with (D * Q * (2 ^ (d + a - b - 1) * 2 ^ b)) by ring.
        rewrite EK1.
        replace (D * Q * (2 ^ (d - 1) * 2 ^ a))
          with (Q * 2 ^ (d - 1) * (D * 2 ^ a)) by ring.
        apply Z.mul_le_mono_nonneg_r; [|assumption].
        apply Z.mul_nonneg_nonneg; lia.
      - apply Z.div_lt_upper_bound; [lia|].
        apply cancel_lt with (c := Q * 2 ^ b); [apply Z.mul_pos_pos; lia|].
        replace (N * (Q * 2 ^ b)) with (P * (D * 2 ^ a)) by lia.
        replace (D * 2 ^ (d + a - b) * (Q * 2 ^ b))
          with (D * Q * (2 ^ (d + a - b) * 2 ^ b)) by ring.
        rewrite EK.
        replace (D * Q * (2 ^ d * 2 ^ a)) with (Q * 2 ^ d * (D * 2 ^ a)) by ring.
        exact Hup. }
    rewrite Hdig. reflexivity.
Qed.

Lemma rec_of_exact (m : Z) : shr_record_of_loc m loc_Exact = rec_of m 1.
Proof.
  rewrite <- (Z.div_1_r m) at 1.
  replace loc_Exact with (frac_loc m 1).
  - apply shr_record_of_loc_frac. lia.
  - unfold frac_loc. rewrite Z.mod_1_r. reflexivity.
Qed.

(** The first step of [binary_round_aux]: the mantissa is cut down to the
    precision and the position of the cut is remembered. *)
Lemma shr_fexp_frac (P Q ex : Z) :
  0 <= P -> 0 < Q ->
  shr_fexp prec emax (P / Q) ex (frac_loc P Q) =
  let n := Z.max (fexp prec emax (Zdigits2 (P / Q) + ex) - ex) 0 in
  (rec_of P (Q * 2 ^ n), ex + n).
Proof.
  intros HP HQ. unfold shr_fexp.
  rewrite shr_record_of_loc_frac by assumption.
  apply shr_rec_of; assumption.
Qed.

Lemma shr_fexp_exact (m e : Z) :
  0 <= m ->
  shr_fexp prec emax m e loc_Exact =
  let n := Z.max (fexp prec emax (Zdigits2 m + e) - e) 0 in
  (rec_of m (2 ^ n), e + n).
Proof.
  intros Hm. unfold shr_fexp. rewrite rec_of_exact.
  rewrite shr_rec_of by lia. rewrite Z.mul_1_l. reflexivity.
Qed.

Section RoundAux.
Variables (P Q N D a b ex : Z).
Hypothesis HP : 0 <= P.
Hypothesis HQ : 0 < Q.
Hypothesis Hex : ex <= fexp prec emax (Zdigits2 (P / Q) + ex).
Hypothesis Ha : 0 <= a.
Hypothesis Hb : 0 <= b.
Hypothesis Hab : a - b = ex + 1074.
Hypothesis HN : 0 <= N.
Hypothesis HD : 0 < D.
Hypothesis Hlink : N * Q * 2 ^ b = P * D * 2 ^ a.

Local Abbreviation d := (ra_digits P Q).
Local Abbreviation e1 := (ra_exp P Q ex).
Local Abbreviation n := (ra_cut P Q ex).
Local Abbreviation m2 := (ra_mant P Q ex).

Local Lemma ra_mx_nonneg : 0 <= P / Q.
Proof. apply Z.div_pos; lia. Qed.

Local Lemma ra_d_nonneg : 0 <= d.
Proof. apply Zdigits2_nonneg. Qed.

Local Lemma ra_e1 : e1 = Z.max (d + ex - 53) (-1074).
Proof. unfold ra_exp. rewrite fexp64. reflexivity. Qed.

Local Lemma ra_n_nonneg : 0 <= n.
Proof. unfold ra_cut, ra_exp, ra_digits. lia. Qed.

Local Lemma ra_P_lt : P < Q * 2 ^ d.
Proof.
  pose proof ra_mx_nonneg as Hm. pose proof ra_d_nonneg as Hd.
  assert (P / Q < 2 ^ d).
  { destruct (Z.eq_dec (P / Q) 0) as [E|NE].
    - rewrite E. apply pow2_pos. exact Hd.
    - apply Zdigits2_bounds. lia. }
  pose proof (Z.div_mod P Q ltac:(lia)).
  pose proof (Z.mod_pos_bound P Q HQ). nia.
Qed.

Local Lemma ra_P_ge : 0 < d -> Q * 2 ^ (d - 1) <= P.
Proof.
  intros Hd. pose proof ra_mx_nonneg as Hm.
  assert (0 < P / Q).
  { destruct (Z.eq_dec (P / Q) 0) as [E|NE]; [|lia].
    unfold ra_digits in Hd. rewrite E in Hd. simpl in Hd. lia. }
  pose proof (Zdigits2_bounds (P / Q) ltac:(lia)) as [Hlo _]. fold d in Hlo.
  pose proof (Z.div_mod P Q ltac:(lia)).
  pose proof (Z.mod_pos_bound P Q HQ). nia.
Qed.

Local Lemma ra_d0 : d = 0 -> a <= b.
Proof.
  intros E. pose proof Hex as H. fold d in H. rewrite fexp64, E in H. lia.
Qed.

Local Lemma ra_shift : rnd_shift N D = e1 + 1074.
Proof.
  unfold rnd_shift.
  rewrite (link_digits P Q N D a b d); try assumption.
  - rewrite ra_e1. lia.
  - apply ra_d_nonneg.
  - apply ra_P_lt.
  - apply ra_P_ge.
  - apply ra_d0.
Qed.

Local Lemma ra_value : rnd_frac N D = m2 * 2 ^ (e1 + 1074).
Proof.
  unfold rnd_frac. rewrite ra_shift. f_equal.
  pose proof ra_n_nonneg as Hn. pose proof ra_e1 as He1.
  pose proof (pow2_pos n Hn). pose proof (pow2_pos a Ha).
  pose proof (pow2_pos b Hb). pose proof (pow2_pos (e1 + 1074) ltac:(lia)).
  unfold ra_mant. apply rne_ext; try (apply Z.mul_pos_pos; lia).
  apply Z.mul_cancel_r with (p := 2 ^ b); [lia|].
  assert (E : 2 ^ (e1 + 1074) * 2 ^ b = 2 ^ n * 2 ^ a).
  { rewrite <- !pow2_split by lia. f_equal. unfold ra_cut. lia. }
  replace (N * (Q * 2 ^ n) * 2 ^ b) with (N * Q * 2 ^ b * 2 ^ n) by ring.
  replace (P * (D * 2 ^ (e1 + 1074)) * 2 ^ b)
    with (P * D * (2 ^ (e1 + 1074) * 2 ^ b)) by ring.
  rewrite E, Hlink. ring.
Qed.

Local Lemma ra_m2_le : 0 <= m2 <= 2 ^ 53.
Proof.
  pose proof ra_n_nonneg as Hn. pose proof ra_d_nonneg as Hd.
  pose proof (pow2_pos n Hn).
  split.
  - apply rne_nonneg; [assumption|apply Z.mul_pos_pos; lia].
  - set (k := Z.max d n).
    assert (Hk : n <= k <= n + 53) by (unfold k, ra_cut; rewrite ra_e1; lia).
    assert (Hr : m2 <= 2 ^ (k - n)).
    { apply rne_le_int; [apply Z.mul_pos_pos; lia|].
      replace (2 ^ (k - n) * (Q * 2 ^ n)) with (Q * (2 ^ (k - n) * 2 ^ n)) by ring.
      rewrite <- pow2_split by lia. replace (k - n + n) with k by lia.
      pose proof ra_P_lt.
      assert (2 ^ d <= 2 ^ k) by (apply Z.pow_le_mono_r; lia). nia. }
    assert (2 ^ (k - n) <= 2 ^ 53) by (apply Z.pow_le_mono_r; lia).
    lia.
Qed.

Local Lemma ra_m2_ge : -1074 < e1 -> 2 ^ 52 <= m2.
Proof.
  intros He. pose proof ra_e1 as E.
  assert (Hn : n = d - 53) by (unfold ra_cut; lia).
  assert (Hd : 53 <= d) by (pose proof ra_n_nonneg; lia).
  pose proof (pow2_pos n ltac:(lia)).
  apply rne_ge_int; [apply Z.mul_pos_pos; lia|].
  replace (2 ^ 52 * (Q * 2 ^ n)) with (Q * (2 ^ 52 * 2 ^ n)) by ring.
  rewrite <- pow2_split by lia. replace (52 + n) with (d - 1) by lia.
  apply ra_P_ge. lia.
Qed.

Lemma binary_round_aux_spec :
  rnd_frac N D < ovf ->
  nnf (binary_round_aux prec emax false (P / Q) ex (frac_loc P Q)) /\
  sc (binary_round_aux prec emax false (P / Q) ex (frac_loc P Q)) = rnd_frac N D.
Proof.
  intros Hov. rewrite ra_value in *.
  pose proof ra_n_nonneg as Hn. pose proof ra_e1 as He1.
  pose proof ra_m2_le as [Hm0 Hm53]. pose proof ra_m2_ge as Hm52.
  unfold binary_round_aux.
  rewrite shr_fexp_frac by assumption. fold d e1 n. cbv zeta.
  replace (Z.max n 0) with n by lia.
  rewrite loc_of_rec_of by (apply Z.mul_pos_pos; [lia|apply pow2_pos; lia]).
  cbn [shr_m rec_of]. fold (rne P (Q * 2 ^ n)). fold m2.
  replace (ex + n) with e1 by (unfold ra_cut; lia).
  rewrite shr_fexp_exact by assumption. cbv zeta. rewrite fexp64.
  cbn [shr_m rec_of].
  assert (Hp : 0 < 2 ^ (e1 + 1074)) by (apply pow2_pos; lia).
  destruct (Z.eq_dec m2 (2 ^ 53)) as [E53|N53].
  - (* the rounding carried into the next binade *)
    rewrite E53 in *.
    assert (Hdig : Zdigits2 (2 ^ 53) = 54) by reflexivity.
    rewrite Hdig.
    replace (Z.max (Z.max (54 + e1 - 53) (-1074) - e1) 0) with 1 by lia.
    change (2 ^ 53 / 2 ^ 1) with (Z.pos (Pos.shiftl 1 52)).
    assert (He : e1 + 1 <= 971).
    { rewrite <- pow2_split in Hov by lia.
      apply pow2_lt_ovf in Hov; lia. }
    change (emax - prec) with 971.
    destruct (Z.leb_spec (e1 + 1) 971) as [_|]; [|lia].
    split.
    + cbn [nnf]. apply bounded_iff. split; [|lia].
      change (Zdigits2 (Z.pos (Pos.shiftl 1 52))) with 53. lia.
    + cbn [sc]. change (Z.pos (Pos.shiftl 1 52)) with (2 ^ 52).
      replace (e1 + 1 + 1074) with (1 + (e1 + 1074)) by lia.
      rewrite pow2_split by lia. change (2 ^ 53) with (2 ^ 52 * 2 ^ 1). ring.
  - assert (Hlt : m2 < 2 ^ 53) by lia.
    assert (Hdm : Zdigits2 m2 <= 53) by (apply Zdigits2_lt_pow2; lia).
    replace (Z.max (Z.max (Zdigits2 m2 + e1 - 53) (-1074) - e1) 0) with 0 by lia.
    rewrite Z.pow_0_r, Z.div_1_r, Z.add_0_r.
    destruct m2 as [|p|p] eqn:Em2; [| |lia].
    + split; [exact I|reflexivity].
    + change (emax - prec) with 971.
      assert (He : e1 <= 971).
      { destruct (Z_le_gt_dec e1 971) as [|Hgt]; [assumption|exfalso].
        specialize (Hm52 ltac:(lia)).
        assert (Hge : 2 ^ (52 + (e1 + 1074)) <= Z.pos p * 2 ^ (e1 + 1074)).
        { rewrite pow2_split by lia. apply Z.mul_le_mono_nonneg_r; lia. }
        assert (52 + (e1 + 1074) < 2098)
          by (apply (pow2_le_lt_ovf (52 + (e1 + 1074)) _ ltac:(lia) Hge Hov)).
        lia. }
      destruct (Z.leb_spec e1 971) as [_|]; [|lia].
      split; [|reflexivity].
      cbn [nnf]. apply bounded_iff. split; [|lia].
      destruct (Z.eq_dec e1 (-1074)) as [Emin|NEmin]; [lia|].
      specialize (Hm52 ltac:(lia)).
      assert (53 <= Zdigits2 (Z.pos p)).
      { replace 53 with (52 + 1) by lia. apply Zdigits2_ge_pow2; lia. }
      lia.
Qed.

End RoundAux.

(** *** Exact values and canonical forms *)

Lemma iter_xO (m d : positive) :
  Z.pos (Pos.iter xO m d) = Z.pos m * 2 ^ Z.pos d.
Proof.
  change (Pos.iter xO m d) with (shift_pos d m).
  rewrite shift_pos_correct. change (Z.pow_pos 2 d) with (2 ^ Z.pos d). ring.
Qed.

Lemma shl_align_spec (m : positive) (e e' : Z) :
  let '(m', e'') := shl_align m e e' in
  e'' = Z.min e e' /\ Z.pos m' = Z.pos m * 2 ^ (e - e'').
Proof.
  unfold shl_align. destruct (e' - e) as [|p|p] eqn:E.
  - split; [lia|]. rewrite Z.sub_diag. simpl. lia.
  - split; [lia|]. rewrite Z.sub_diag. simpl. lia.
  - split; [lia|]. rewrite iter_xO. f_equal. f_equal. lia.
Qed.

Lemma Zdigits2_shift (m k : Z) :
  0 < m -> 0 <= k -> Zdigits2 (m * 2 ^ k) = Zdigits2 m + k.
Proof.
  intros Hm Hk. pose proof (Zdigits2_bounds m Hm) as [Hlo Hhi].
  pose proof (Zdigits2_pos m Hm) as Hd. pose proof (pow2_pos k Hk) as Hp.
  apply Zdigits2_unique; [lia|]. split.
  - replace (Zdigits2 m + k - 1) with (Zdigits2 m - 1 + k) by lia.
    rewrite pow2_split by lia. apply Z.mul_le_mono_nonneg_r; lia.
  - rewrite pow2_split by lia. apply Z.mul_lt_mono_pos_r; lia.
Qed.

Lemma Zdigits2_mul_ge (x y : Z) :
  0 < x -> 0 < y -> Zdigits2 x + Zdigits2 y - 1 <= Zdigits2 (x * y).
Proof.
  intros Hx Hy.
  pose proof (Zdigits2_bounds x Hx) as [Hxl _].
  pose proof (Zdigits2_bounds y Hy) as [Hyl _].
  pose proof (Zdigits2_pos x Hx). pose proof (Zdigits2_pos y Hy).
  replace (Zdigits2 x + Zdigits2 y - 1)
    with ((Zdigits2 x - 1) + (Zdigits2 y - 1) + 1) by lia.
  apply Zdigits2_ge_pow2; [lia|].
  rewrite pow2_split by lia.
  pose proof (pow2_pos (Zdigits2 x - 1) ltac:(lia)).
  pose proof (pow2_pos (Zdigits2 y - 1) ltac:(lia)).
  apply Z.mul_le_mono_nonneg; lia.
Qed.

Lemma frac_loc_1 (m : Z) : frac_loc m 1 = loc_Exact.
Proof. unfold frac_loc. rewrite Z.mod_1_r. reflexivity. Qed.

Lemma rnd_frac_0 (D : Z) : 0 < D -> rnd_frac 0 D = 0.
Proof.
  intros HD. unfold rnd_frac, rnd_shift. rewrite Z.div_0_l by lia.
  simpl Zdigits2. replace (Z.max (0 - 53) 0) with 0 by lia.
  rewrite Z.pow_0_r, Z.mul_1_r, Z.mul_1_r.
  replace 0 with (0 * D) at 1 by lia. apply rne_exact. assumption.
Qed.

(** What canonical form says about a positive finite number. *)
Lemma nnf_finite (m : positive) (e : Z) :
  nnf (S754_finite false m e) ->
  -1074 <= e <= 971 /\ Zdigits2 (Z.pos m) <= 53 /\
  (-1074 < e -> Zdigits2 (Z.pos m) = 53).
Proof.
  cbn [nnf]. rewrite bounded_iff. lia.
Qed.

Lemma sc_nonneg (x : spec_float) : 0 <= sc x.
Proof.
  destruct x as [| | |s m e]; cbn [sc]; lia.
Qed.

Lemma sc_finite_pos (s : bool) (m : positive) (e : Z) :
  -1074 <= e -> 0 < sc (S754_finite s m e).
Proof.
  intros He. cbn [sc]. pose proof (pow2_pos (e + 1074) ltac:(lia)). lia.
Qed.

(** A value that is a binary64 number is its own rounding. *)
Lemma rnd_frac_sc (x : spec_float) : nnf x -> rnd_frac (sc x) 1 = sc x.
Proof.
  destruct x as [s|s| |s m e]; cbn [nnf]; [intros _; apply rnd_frac_0; lia|tauto|tauto|].
  destruct s; [tauto|]. intros Hb.
    destruct (nnf_finite m e Hb) as (He & Hd & Hn).
    apply bounded_iff in Hb. destruct Hb as [Hc _].
    cbn [sc]. pose proof (pow2_pos (e + 1074) ltac:(lia)) as Hp.
    unfold rnd_frac, rnd_shift. rewrite Z.div_1_r.
    rewrite Zdigits2_shift by lia.
    replace (Z.max (Zdigits2 (Z.pos m) + (e + 1074) - 53) 0) with (e + 1074) by lia.
  rewrite Z.mul_1_l. rewrite rne_exact by assumption. reflexivity.
Qed.

Lemma rnd_frac_pow2 (k : Z) : 0 <= k -> rnd_frac (2 ^ k) 1 = 2 ^ k.
Proof.
  intros Hk. unfold rnd_frac, rnd_shift. rewrite Z.div_1_r, Z.mul_1_l.
  assert (Hd : Zdigits2 (2 ^ k) = k + 1).
  { apply Zdigits2_unique; [lia|]. replace (k + 1 - 1) with k by lia.
    split; [lia|]. apply Z.pow_lt_mono_r; lia. }
  rewrite Hd. set (n := Z.max (k + 1 - 53) 0).
  assert (0 <= n <= k) by (unfold n; lia).
  replace (2 ^ k) with (2 ^ (k - n) * 2 ^ n) at 1
    by (rewrite <- pow2_split by lia; f_equal; lia).
  rewrite rne_exact by (apply pow2_pos; lia).
  rewrite <- pow2_split by lia. f_equal. lia.
Qed.

Lemma rnd_frac_le_pow2 (N D k : Z) :
  0 <= N -> 0 < D -> 0 <= k -> N <= D * 2 ^ k -> rnd_frac N D <= 2 ^ k.
Proof.
  intros HN HD Hk H. rewrite <- (rnd_frac_pow2 k Hk).
  apply rnd_frac_mono; lia.
Qed.

(** *** The operations on non-negative numbers *)

Lemma binary_round_spec (m : positive) (e : Z) :
  -1074 <= e ->
  rnd_frac (Z.pos m * 2 ^ (e + 1074)) 1 < ovf ->
  nnf (binary_round prec emax false m e) /\
  sc (binary_round prec emax false m e) = rnd_frac (Z.pos m * 2 ^ (e + 1074)) 1.
Proof.
  intros He Hov. unfold binary_round.
  pose proof (shl_align_spec m e (fexp prec emax (Z.pos (digits2_pos m) + e))) as Hs.
  destruct (shl_align m e (fexp prec emax (Z.pos (digits2_pos m) + e))) as [mz ez].
  destruct Hs as [Hez Hmz]. rewrite fexp64 in Hez.
  change (Z.pos (digits2_pos m)) with (Zdigits2 (Z.pos m)) in Hez.
  assert (Hsh : 0 <= e - ez) by lia.
  assert (Hdz : Zdigits2 (Z.pos mz) = Zdigits2 (Z.pos m) + (e - ez))
    by (rewrite Hmz; apply Zdigits2_shift; lia).
  rewrite <- (Z.div_1_r (Z.pos mz)). rewrite <- (frac_loc_1 (Z.pos mz)).
  apply binary_round_aux_spec with (a := ez + 1074) (b := 0); try lia.
  - rewrite Z.div_1_r, fexp64, Hdz. lia.
  - rewrite Hmz. rewrite Z.pow_0_r, !Z.mul_1_r.
    rewrite <- Z.mul_assoc. f_equal.
    rewrite <- pow2_split by lia. f_equal. lia.
Qed.

Lemma binary_normalize_spec (m e : Z) :
  0 <= m -> -1074 <= e ->
  rnd_frac (m * 2 ^ (e + 1074)) 1 < ovf ->
  nnf (binary_normalize prec emax m e false) /\
  sc (binary_normalize prec emax m e false) = rnd_frac (m * 2 ^ (e + 1074)) 1.
Proof.
  intros Hm He Hov. destruct m as [|p|p]; [| |lia].
  - cbn [binary_normalize nnf sc]. split; [exact I|].
    rewrite Z.mul_0_l. symmetry. apply rnd_frac_0. lia.
  - apply binary_round_spec; assumption.
Qed.

Lemma SFadd_spec (x y : spec_float) :
  nnf x -> nnf y ->
  rnd_frac (sc x + sc y) 1 < ovf ->
  nnf (SFadd prec emax x y) /\
  sc (SFadd prec emax x y) = rnd_frac (sc x + sc y) 1.
Proof.
  intros Hx Hy Hov.
  destruct x as [sx|sx| |[] mx ex]; cbn [nnf] in Hx; try contradiction;
    destruct y as [sy|sy| |[] my ey]; cbn [nnf] in Hy; try contradiction.
  - (* zero + zero *)
    assert (E : sc (S754_zero sx) + sc (S754_zero sy) = 0) by reflexivity.
    rewrite E, rnd_frac_0 by lia.
    destruct sx, sy; cbn; auto.
  - (* zero + y *)
    cbn [SFadd]. split; [exact Hy|].
    change (sc (S754_zero sx)) with 0. rewrite Z.add_0_l.
    symmetry. apply rnd_frac_sc. exact Hy.
  - (* x + zero *)
    cbn [SFadd]. split; [exact Hx|].
    change (sc (S754_zero sy)) with 0. rewrite Z.add_0_r.
    symmetry. apply rnd_frac_sc. exact Hx.
  - destruct (nnf_finite mx ex Hx) as (Hex & _ & _).
    destruct (nnf_finite my ey Hy) as (Hey & _ & _).
    cbn [SFadd cond_Zopp].
    pose proof (shl_align_spec mx ex (Z.min ex ey)) as H1.
    pose proof (shl_align_spec my ey (Z.min ex ey)) as H2.
    destruct (shl_align mx ex (Z.min ex ey)) as [mx' ex'].
    destruct (shl_align my ey (Z.min ex ey)) as [my' ey'].
    destruct H1 as [E1 M1]. destruct H2 as [E2 M2]. cbn [fst].
    assert (Ex' : ex' = Z.min ex ey) by lia.
    assert (Ey' : ey' = Z.min ex ey) by lia.
    set (ez := Z.min ex ey) in *.
    assert (Hsum : (Z.pos mx' + Z.pos my') * 2 ^ (ez + 1074) =
                   sc (S754_finite false mx ex) + sc (S754_finite false my ey)).
    { cbn [sc]. rewrite M1, M2, Ex', Ey'.
      rewrite Z.mul_add_distr_r, <- !Z.mul_assoc, <- !pow2_split by lia.
      f_equal; f_equal; f_equal; lia. }
    rewrite <- Hsum in *.
    apply binary_normalize_spec; lia.
Qed.

Lemma SFmul_spec (x y : spec_float) :
  nnf x -> nnf y ->
  rnd_frac (sc x * sc y) one_u < ovf ->
  nnf (SFmul prec emax x y) /\
  sc (SFmul prec emax x y) = rnd_frac (sc x * sc y) one_u.
Proof.
  intros Hx Hy Hov.
  pose proof one_u_pos as HD.
  destruct x as [sx|sx| |[] mx ex]; cbn [nnf] in Hx; try contradiction;
    destruct y as [sy|sy| |[] my ey]; cbn [nnf] in Hy; try contradiction;
    try (cbn [SFmul sc nnf];
         rewrite ?Z.mul_0_l, ?Z.mul_0_r, rnd_frac_0 by assumption;
         solve [auto]).
  destruct (nnf_finite mx ex Hx) as (Hex & Hdx & Hnx).
  destruct (nnf_finite my ey Hy) as (Hey & Hdy & Hny).
  cbn [SFmul xorb]. rewrite Pos2Z.inj_mul.
  rewrite <- (Z.div_1_r (Z.pos mx * Z.pos my)).
  rewrite <- (frac_loc_1 (Z.pos mx * Z.pos my)).
  apply binary_round_aux_spec
    with (a := (ex + 1074) + (ey + 1074)) (b := 1074);
    [lia|lia| |lia|lia|lia| | | |exact Hov].
  - rewrite Z.div_1_r, fexp64.
    pose proof (Zdigits2_mul_ge (Z.pos mx) (Z.pos my) ltac:(lia) ltac:(lia)).
    pose proof (Zdigits2_pos (Z.pos mx) ltac:(lia)).
    pose proof (Zdigits2_pos (Z.pos my) ltac:(lia)).
    lia.
  - apply Z.mul_nonneg_nonneg; apply sc_nonneg.
  - assumption.
  - cbn [sc]. unfold one_u.
    rewrite (pow2_split (ex + 1074) (ey + 1074)) by lia. ring.
Qed.

Lemma new_location_frac (Q r : Z) :
  0 < Q -> 0 <= r < Q ->
  new_location Q r = if r =? 0 then loc_Exact else loc_Inexact (2 * r ?= Q).
Proof.
  intros HQ Hr. unfold new_location, new_location_even, new_location_odd.
  destruct (Z.even Q) eqn:Ev; [reflexivity|].
  destruct (r =? 0); [reflexivity|]. f_equal.
  assert (Hodd : Z.odd Q = true) by (rewrite <- Z.negb_even, Ev; reflexivity).
  apply Z.odd_spec in Hodd. destruct Hodd as [k Hk].
  destruct (Z.compare_spec (2 * r + 1) Q) as [C|C|C];
    destruct (Z.compare_spec (2 * r) Q) as [C'|C'|C']; try reflexivity; lia.
Qed.

Lemma SFdiv_core_binary_spec (m1 m2 : positive) (e1 e2 : Z) :
  let e' := Z.min (fexp prec emax (Zdigits2 (Z.pos m1) + e1 - (Zdigits2 (Z.pos m2) + e2)))
                  (e1 - e2) in
  let P := Z.pos m1 * 2 ^ (e1 - e2 - e') in
  SFdiv_core_binary prec emax (Z.pos m1) e1 (Z.pos m2) e2 =
  (P / Z.pos m2, e', frac_loc P (Z.pos m2)).
Proof.
  intros e' P. unfold SFdiv_core_binary. fold e'.
  set (s := e1 - e2 - e') in *.
  assert (Hs : 0 <= s) by (unfold s, e'; lia).
  assert (Em : match s with
               | 0 => Z.pos m1
               | Z.pos _ => Z.shiftl (Z.pos m1) s
               | Z.neg _ => 0
               end = P).
  { unfold P. destruct s as [|p|p] eqn:Es; [rewrite Z.pow_0_r; lia| |lia].
    apply Z.shiftl_mul_pow2. lia. }
  rewrite Em.
  pose proof (Z.mod_pos_bound P (Z.pos m2) ltac:(lia)) as Hr.
  unfold frac_loc. rewrite <- (new_location_frac (Z.pos m2) (P mod Z.pos m2)) by lia.
  unfold Z.div, Z.modulo.
  destruct (Z.div_eucl P (Z.pos m2)) as [q r]. reflexivity.
Qed.

Lemma SFdiv_spec (x y : spec_float) :
  nnf x -> nnf y -> 0 < sc y ->
  rnd_frac (sc x * one_u) (sc y) < ovf ->
  nnf (SFdiv prec emax x y) /\
  sc (SFdiv prec emax x y) = rnd_frac (sc x * one_u) (sc y).
Proof.
  intros Hx Hy Hpos Hov. pose proof one_u_pos as Hu.
  destruct y as [sy|sy| |[] my ey]; cbn [nnf] in Hy; try contradiction;
    try (cbn [sc] in Hpos; lia).
  destruct x as [sx|sx| |[] mx ex]; cbn [nnf] in Hx; try contradiction.
  - cbn [SFdiv nnf]. split; [exact I|].
    change (sc (S754_zero sx)) with 0. rewrite Z.mul_0_l.
    rewrite rnd_frac_0 by assumption. reflexivity.
  - destruct (nnf_finite mx ex Hx) as (Hex & Hdx & Hnx).
    destruct (nnf_finite my ey Hy) as (Hey & Hdy & Hny).
    cbn [SFdiv xorb]. rewrite SFdiv_core_binary_spec. cbv zeta.
    set (d1 := Zdigits2 (Z.pos mx)) in *. set (d2 := Zdigits2 (Z.pos my)) in *.
    set (e' := Z.min (fexp prec emax (d1 + ex - (d2 + ey))) (ex - ey)).
    set (sh := ex - ey - e').
    assert (He' : e' <= Z.max (d1 + ex - (d2 + ey) - 53) (-1074) /\ e' <= ex - ey)
      by (unfold e'; rewrite fexp64; lia).
    assert (Hsh : 0 <= sh) by (unfold sh; lia).
    pose proof (pow2_pos sh Hsh) as Hpsh.
    pose proof (Zdigits2_bounds (Z.pos mx) ltac:(lia)) as [Hxlo _]. fold d1 in Hxlo.
    pose proof (Zdigits2_bounds (Z.pos my) ltac:(lia)) as [_ Hyhi]. fold d2 in Hyhi.
    pose proof (Zdigits2_pos (Z.pos mx) ltac:(lia)) as Hd1. fold d1 in Hd1.
    pose proof (Zdigits2_pos (Z.pos my) ltac:(lia)) as Hd2. fold d2 in Hd2.
    apply binary_round_aux_spec
      with (a := Z.max (e' + 1074) 0) (b := Z.max (- (e' + 1074)) 0);
      [lia|lia| |lia|lia|lia| |assumption| |exact Hov].
    + rewrite fexp64.
      destruct (Z_le_gt_dec e' (-1074)) as [|Hgt]; [lia|].
      assert (Hq : 2 ^ 52 <= Z.pos mx * 2 ^ sh / Z.pos my).
      { apply Z.div_le_lower_bound; [lia|].
        assert (H1 : Z.pos my * 2 ^ 52 <= 2 ^ d2 * 2 ^ 52)
          by (apply Z.mul_le_mono_nonneg_r; lia).
        assert (H2 : 2 ^ d2 * 2 ^ 52 <= 2 ^ (d1 - 1) * 2 ^ sh).
        { rewrite <- !pow2_split by lia. apply Z.pow_le_mono_r; [lia|].
          unfold sh. lia. }
        assert (H3 : 2 ^ (d1 - 1) * 2 ^ sh <= Z.pos mx * 2 ^ sh)
          by (apply Z.mul_le_mono_nonneg_r; lia).
        lia. }
      pose proof (Zdigits2_ge_pow2 _ 52 ltac:(lia) Hq). lia.
    + apply Z.mul_nonneg_nonneg; [apply sc_nonneg|lia].
    + cbn [sc]. unfold one_u.
      set (a := Z.max (e' + 1074) 0). set (b := Z.max (- (e' + 1074)) 0).
      assert (E : 2 ^ (ex + 1074) * 2 ^ 1074 * 2 ^ b =
                  2 ^ sh * 2 ^ (ey + 1074) * 2 ^ a).
      { rewrite <- !pow2_split by lia. f_equal. unfold sh, a, b. lia. }
      transitivity (Z.pos mx * Z.pos my * (2 ^ (ex + 1074) * 2 ^ 1074 * 2 ^ b));
        [ring|]. rewrite E. ring.
Qed.

(** *** Comparison and truncation *)

Lemma sc_finite_lt (m1 m2 : positive) (e1 e2 : Z) :
  nnf (S754_finite false m1 e1) -> nnf (S754_finite false m2 e2) ->
  e1 < e2 -> Z.pos m1 * 2 ^ (e1 + 1074) < Z.pos m2 * 2 ^ (e2 + 1074).
Proof.
  intros H1 H2 Hlt.
  destruct (nnf_finite m1 e1 H1) as (He1 & Hd1 & _).
  destruct (nnf_finite m2 e2 H2) as (He2 & _ & Hn2).
  specialize (Hn2 ltac:(lia)).
  pose proof (Zdigits2_bounds (Z.pos m1) ltac:(lia)) as [_ Hhi].
  pose proof (Zdigits2_bounds (Z.pos m2) ltac:(lia)) as [Hlo _].
  rewrite Hn2 in Hlo. change (2 ^ (53 - 1)) with (2 ^ 52) in Hlo.
  assert (Hm1 : Z.pos m1 < 2 ^ 53).
  { eapply Z.lt_le_trans; [exact Hhi|]. apply Z.pow_le_mono_r; lia. }
  pose proof (pow2_pos (e1 + 1074) ltac:(lia)) as Hp1.
  assert (Hp : 2 * 2 ^ (e1 + 1074) <= 2 ^ (e2 + 1074)).
  { replace (2 * 2 ^ (e1 + 1074)) with (2 ^ (1 + (e1 + 1074)))
      by (rewrite pow2_split by lia; reflexivity).
    apply Z.pow_le_mono_r; lia. }
  assert (Z.pos m1 * 2 ^ (e1 + 1074) < 2 ^ 53 * 2 ^ (e1 + 1074))
    by (apply Z.mul_lt_mono_pos_r; lia).
  assert (2 ^ 52 * 2 ^ (e2 + 1074) <= Z.pos m2 * 2 ^ (e2 + 1074))
    by (apply Z.mul_le_mono_nonneg_r; lia).
  change (2 ^ 53) with (2 ^ 52 * 2) in *. nia.
Qed.

Lemma SFcompare_nnf (x y : spec_float) :
  nnf x -> nnf y -> SFcompare x y = Some (sc x ?= sc y).
Proof.
  intros Hx Hy.
  destruct x as [sx|sx| |[] mx ex]; cbn [nnf] in Hx; try contradiction;
    destruct y as [sy|sy| |[] my ey]; cbn [nnf] in Hy; try contradiction.
  - reflexivity.
  - destruct (nnf_finite my ey Hy) as (He & _).
    pose proof (sc_finite_pos false my ey ltac:(lia)) as Hp.
    cbn [SFcompare]. change (sc (S754_zero sx)) with 0.
    symmetry. f_equal. apply Z.compare_lt_iff. exact Hp.
  - destruct (nnf_finite mx ex Hx) as (He & _).
    pose proof (sc_finite_pos false mx ex ltac:(lia)) as Hp.
    cbn [SFcompare]. change (sc (S754_zero sy)) with 0.
    symmetry. f_equal. apply Z.compare_gt_iff. exact Hp.
  - cbn [SFcompare sc]. f_equal.
    destruct (nnf_finite mx ex Hx) as (Hex & _).
    destruct (Z.compare_spec ex ey) as [E|L|G].
    + subst ey. rewrite Pos.compare_cont_spec. cbn [Pos.switch_Eq].
      change (mx ?= my)%positive with (Z.pos mx ?= Z.pos my).
      pose proof (pow2_pos (ex + 1074) ltac:(lia)).
      symmetry.
      destruct (Z.compare_spec (Z.pos mx) (Z.pos my)) as [C|C|C].
      * rewrite C. apply Z.compare_refl.
      * apply Z.compare_lt_iff. apply Z.mul_lt_mono_pos_r; assumption.
      * apply Z.compare_gt_iff. apply Z.mul_lt_mono_pos_r; assumption.
    + symmetry. apply Z.compare_lt_iff. apply sc_finite_lt; assumption.
    + symmetry. apply Z.compare_gt_iff. apply sc_finite_lt; assumption.
Qed.

Lemma SFleb_nnf (x y : spec_float) :
  nnf x -> nnf y -> SFleb x y = (sc x <=? sc y).
Proof.
  intros Hx Hy. unfold SFleb. rewrite SFcompare_nnf by assumption.
  unfold Z.leb. destruct (sc x ?= sc y); reflexivity.
Qed.

Lemma SFltb_nnf (x y : spec_float) :
  nnf x -> nnf y -> SFltb x y = (sc x <? sc y).
Proof.
  intros Hx Hy. unfold SFltb. rewrite SFcompare_nnf by assumption.
  unfold Z.ltb. destruct (sc x ?= sc y); reflexivity.
Qed.

(** A number between zero and a non-negative finite one is itself
    non-negative and finite. *)
Lemma nnf_between (x1 x2 hi : spec_float) :
  valid_binary x1 = true -> valid_binary x2 = true -> nnf hi ->
  SFleb (S754_zero false) x1 = true -> SFltb x1 x2 = true ->
  SFleb x2 hi = true ->
  nnf x1 /\ nnf x2.
Proof.
  intros V1 V2 Hh H0 H12 H2.
  destruct hi as [sh|sh| |[] mh eh]; cbn [nnf] in Hh; try contradiction;
    destruct x1 as [s1|[]| |[] m1 e1]; try discriminate H0;
    destruct x2 as [s2|[]| |[] m2 e2];
    try discriminate H12; try discriminate H2;
    cbn [nnf valid_binary] in *; split; solve [auto].
Qed.

Lemma shiftl_trunc (m : positive) (e : Z) :
  -1074 <= e -> Z.shiftl (Z.pos m) e = (Z.pos m * 2 ^ (e + 1074)) / one_u.
Proof.
  intros He. unfold one_u. destruct (Z_le_gt_dec 0 e) as [Hpos|Hneg].
  - rewrite Z.shiftl_mul_pow2 by assumption.
    rewrite pow2_split by lia. rewrite Z.mul_assoc.
    symmetry. apply Z.div_mul. pose proof (pow2_pos 1074 ltac:(lia)). lia.
  - rewrite Z.shiftl_div_pow2 by lia.
    replace (2 ^ 1074) with (2 ^ (e + 1074) * 2 ^ (- e))
      by (rewrite <- pow2_split by lia; f_equal; lia).
    pose proof (pow2_pos (e + 1074) ltac:(lia)).
    pose proof (pow2_pos (- e) ltac:(lia)).
    rewrite (Z.mul_comm (Z.pos m)).
    rewrite Z.div_mul_cancel_l by lia. reflexivity.
Qed.


End Binary64.

(** ** Primitive floats through their specification *)

Section PrimitiveFloats.
Import B64.
Local Open Scope Z_scope.

Lemma nnfb_nnf (x : spec_float) : nnfb x = true -> nnf x.
Proof.
  destruct x as [s|s| |[] m e]; cbn [nnfb nnf]; intros H;
    try discriminate H; auto.
Qed.

Lemma pow2_below_ovf (k : Z) : 0 <= k < 2098 -> 2 ^ k < ovf.
Proof. intros Hk. unfold ovf. apply Z.pow_lt_mono_r; lia. Qed.

Lemma add_fnn (x y : float) :
  fnn x -> fnn y -> rnd_frac (fval x + fval y) 1 < ovf ->
  fnn (x + y)%float /\ fval (x + y)%float = rnd_frac (fval x + fval y) 1.
Proof.
  unfold fnn, fval. rewrite FloatAxioms.add_spec. apply SFadd_spec.
Qed.

Lemma mul_fnn (x y : float) :
  fnn x -> fnn y -> rnd_frac (fval x * fval y) one_u < ovf ->
  fnn (x * y)%float /\ fval (x * y)%float = rnd_frac (fval x * fval y) one_u.
Proof.
  unfold fnn, fval. rewrite FloatAxioms.mul_spec. apply SFmul_spec.
Qed.

Lemma div_fnn (x y : float) :
  fnn x -> fnn y -> 0 < fval y ->
  rnd_frac (fval x * one_u) (fval y) < ovf ->
  fnn (x / y)%float /\
  fval (x / y)%float = rnd_frac (fval x * one_u) (fval y).
Proof.
  unfold fnn, fval. rewrite FloatAxioms.div_spec. apply SFdiv_spec.
Qed.

Lemma fval_nonneg (x : float) : 0 <= fval x.
Proof. apply sc_nonneg. Qed.

Lemma trunc_nnf (x : spec_float) :
  nnf x -> Py.trunc_SF x = Ok (sc x / one_u).
Proof.
  destruct x as [s|s| |[] m e]; cbn [nnf]; try contradiction; intros H.
  - cbn [Py.trunc_SF sc]. rewrite Z.div_0_l; [reflexivity|].
    pose proof one_u_pos. lia.
  - destruct (nnf_finite m e H) as (He & _).
    cbn [Py.trunc_SF sc]. rewrite shiftl_trunc by lia. reflexivity.
Qed.

Lemma int_of_float_fnn (x : float) :
  fnn x -> Py.int_of_float x = Ok (fval x / one_u).
Proof. apply trunc_nnf. Qed.

(** Floats between zero and a non-negative bound, by the comparisons of
    the floats themselves. *)
Lemma fnn_between (x1 x2 hi : float) :
  fnn hi ->
  (0 <=? x1)%float = true -> (x1 <? x2)%float = true ->
  (x2 <=? hi)%float = true ->
  fnn x1 /\ fnn x2 /\ fval x1 < fval x2 <= fval hi.
Proof.
  intros Hh H0 H12 H2.
  rewrite FloatAxioms.leb_spec in H0, H2. rewrite FloatAxioms.ltb_spec in H12.
  change (Prim2SF 0) with (S754_zero false) in H0.
  destruct (nnf_between (Prim2SF x1) (Prim2SF x2) (Prim2SF hi)
              (Prim2SF_valid x1) (Prim2SF_valid x2) Hh H0 H12 H2) as [N1 N2].
  unfold fnn, fval. split; [exact N1|]. split; [exact N2|].
  rewrite SFltb_nnf in H12 by assumption.
  rewrite SFleb_nnf in H2 by assumption.
  apply Z.ltb_lt in H12. apply Z.leb_le in H2. lia.
Qed.

Lemma leb_fnn (x y : float) :
  fnn x -> fnn y -> (x <=? y)%float = (fval x <=? fval y).
Proof.
  intros Hx Hy. rewrite FloatAxioms.leb_spec. apply SFleb_nnf; assumption.
Qed.

Lemma ltb_fnn (x y : float) :
  fnn x -> fnn y -> (x <? y)%float = (fval x <? fval y).
Proof.
  intros Hx Hy. rewrite FloatAxioms.ltb_spec. apply SFltb_nnf; assumption.
Qed.

Lemma float_zero : fnn 0%float /\ fval 0%float = 0.
Proof. split; [exact I|reflexivity]. Qed.

(** *** The glyph index as a function of the luminance *)

Lemma float_255 :
  fnn (Py.float_of_int 255) /\ fval (Py.float_of_int 255) = 255 * one_u.
Proof.
  split; [apply nnfb_nnf|]; vm_compute; reflexivity.
Qed.

Lemma float_9 :
  fnn (Py.float_of_int (Z.of_nat (String.length ascii_chars) - 1)) /\
  fval (Py.float_of_int (Z.of_nat (String.length ascii_chars) - 1))
  = 9 * one_u.
Proof.
  split; [apply nnfb_nnf|]; vm_compute; reflexivity.
Qed.

Lemma one_u_sq_le (v : Z) :
  0 <= v <= 255 * one_u -> v * one_u <= 255 * one_u * 2 ^ 1074.
Proof.
  intros Hv. fold one_u. apply Z.mul_le_mono_nonneg_r; [|lia].
  pose proof one_u_pos. lia.
Qed.

Lemma quotient_le_one (v : Z) :
  0 <= v <= 255 * one_u -> 0 <= rnd_frac (v * one_u) (255 * one_u) <= one_u.
Proof.
  intros Hv. pose proof one_u_pos as Hu. split.
  - apply rnd_frac_nonneg; [apply Z.mul_nonneg_nonneg|]; lia.
  - unfold one_u at 3.
    apply rnd_frac_le_pow2;
      [apply Z.mul_nonneg_nonneg; lia|lia|lia|apply one_u_sq_le; exact Hv].
Qed.

Lemma scaled_le_16 (q : Z) :
  0 <= q <= one_u ->
  0 <= rnd_frac (q * (9 * one_u)) one_u <= 2 ^ 1078.
Proof.
  intros Hq. pose proof one_u_pos as Hu. split.
  - apply rnd_frac_nonneg; [apply Z.mul_nonneg_nonneg|]; lia.
  - apply rnd_frac_le_pow2;
      [apply Z.mul_nonneg_nonneg; lia|lia|lia|].
    replace (2 ^ 1078) with (16 * one_u)
      by (unfold one_u; change 16 with (2 ^ 4);
          rewrite <- Z.pow_add_r by lia; reflexivity).
    apply Z.mul_le_mono_nonneg; lia.
Qed.

Lemma glyph_index_of_fnn (lum : float) :
  fnn lum -> fval lum <= 255 * one_u ->
  glyph_index_of lum = Ok (lum_index (fval lum)).
Proof.
  intros Hn Hle. unfold glyph_index_of.
  destruct float_255 as [N255 V255]. destruct float_9 as [N9 V9].
  pose proof one_u_pos as Hu. pose proof (fval_nonneg lum) as H0.
  pose proof (quotient_le_one (fval lum) ltac:(lia)) as Hq.
  destruct (div_fnn lum (Py.float_of_int 255) Hn N255) as [Nq Vq].
  { rewrite V255. lia. }
  { rewrite V255. eapply Z.le_lt_trans; [apply Hq|].
    unfold one_u. apply pow2_below_ovf. lia. }
  rewrite V255 in Vq.
  pose proof (scaled_le_16 _ Hq) as Hw.
  destruct (mul_fnn _ _ Nq N9) as [Nw Vw].
  { rewrite Vq, V9. eapply Z.le_lt_trans; [apply Hw|].
    apply pow2_below_ovf. lia. }
  rewrite int_of_float_fnn by exact Nw.
  rewrite Vw, Vq, V9. reflexivity.
Qed.

Lemma lum_index_mono (v1 v2 : Z) :
  0 <= v1 <= v2 -> lum_index v1 <= lum_index v2.
Proof.
  intros Hv. pose proof one_u_pos as Hu. unfold lum_index.
  apply Z.div_le_mono; [lia|].
  assert (Hq : rnd_frac (v1 * one_u) (255 * one_u)
               <= rnd_frac (v2 * one_u) (255 * one_u)).
  { apply rnd_frac_mono;
      [apply Z.mul_nonneg_nonneg; lia|lia|lia|].
    apply Z.mul_le_mono_nonneg_r; [lia|].
    apply Z.mul_le_mono_nonneg_r; lia. }
  assert (H0 : 0 <= rnd_frac (v1 * one_u) (255 * one_u)).
  { apply rnd_frac_nonneg; [apply Z.mul_nonneg_nonneg|]; lia. }
  apply rnd_frac_mono; [apply Z.mul_nonneg_nonneg; lia|lia|lia|].
  apply Z.mul_le_mono_nonneg_r; [lia|].
  apply Z.mul_le_mono_nonneg_r; lia.
Qed.

Lemma lum_index_nonneg (v : Z) : 0 <= v -> 0 <= lum_index v.
Proof.
  intros Hv. pose proof one_u_pos as Hu. unfold lum_index.
  apply Z.div_pos; [|lia].
  apply rnd_frac_nonneg; [|lia].
  apply Z.mul_nonneg_nonneg; [|lia].
  apply rnd_frac_nonneg; [apply Z.mul_nonneg_nonneg|]; lia.
Qed.

End PrimitiveFloats.

(** ** The pixel classifier *)

Section Classifier.
Import B64.
Local Open Scope Z_scope.

Lemma Ok_inj {A : Type} (a b : A) : Ok a = Ok b -> a = b.
Proof. intros H. injection H. auto. Qed.

Lemma uint8_forallb (f : Z -> bool) :
  forallb f uint8_values = true -> forall z, uint8 z -> f z = true.
Proof.
  intros H z [Hlo Hhi]. rewrite forallb_forall in H. apply H.
  unfold uint8_values. apply in_map_iff. exists (Z.to_nat z). split.
  - apply Z2Nat.id. exact Hlo.
  - apply in_seq. lia.
Qed.

(** The weights are the binary64 numbers nearest to their decimals, as
    they are in Python. *)
Lemma luminance_weights :
  0.2126%float = 0x1.b367a0f9096bcp-3%float /\
  0.7152%float = 0x1.6e2eb1c432ca5p-1%float /\
  0.0722%float = 0x1.27bb2fec56d5dp-4%float.
Proof. repeat split; reflexivity. Qed.

Lemma channel_table_red : forallb (channel_ok 0.2126) uint8_values = true.
Proof. vm_compute. reflexivity. Qed.

Lemma channel_table_green : forallb (channel_ok 0.7152) uint8_values = true.
Proof. vm_compute. reflexivity. Qed.

Lemma channel_table_blue : forallb (channel_ok 0.0722) uint8_values = true.
Proof. vm_compute. reflexivity. Qed.

Lemma channel_fact (w : float) (r : Z) :
  forallb (channel_ok w) uint8_values = true -> uint8 r ->
  fnn (w * Py.float_of_int r)%float /\
  fval (w * Py.float_of_int r)%float <= fval (w * Py.float_of_int 255)%float /\
  fval (w * Py.float_of_int 255)%float <= 256 * one_u.
Proof.
  intros Ht Hr. pose proof (uint8_forallb _ Ht r Hr) as H.
  unfold channel_ok in H.
  apply andb_true_iff in H. destruct H as [H H3].
  apply andb_true_iff in H. destruct H as [H1 H2].
  apply Z.leb_le in H2, H3.
  split; [apply nnfb_nnf; exact H1|]. split; assumption.
Qed.

Lemma uint8_255 : uint8 255.
Proof. unfold uint8. lia. Qed.

(** Sums of non-negative floats grow with their terms. *)
Lemma sum_bound (x y x' y' : float) (k : Z) :
  fnn x -> fnn y -> fnn x' -> fnn y' ->
  fval x <= fval x' -> fval y <= fval y' ->
  0 <= k < 2098 -> fval x' + fval y' <= 2 ^ k ->
  fnn (x + y)%float /\ fnn (x' + y')%float /\
  fval (x + y)%float <= fval (x' + y')%float <= 2 ^ k.
Proof.
  intros Nx Ny Nx' Ny' Hx Hy Hk Hs.
  pose proof (fval_nonneg x). pose proof (fval_nonneg y).
  pose proof (pow2_below_ovf k Hk) as Hov.
  assert (H' : rnd_frac (fval x' + fval y') 1 <= 2 ^ k)
    by (apply rnd_frac_le_pow2; lia).
  assert (Hm : rnd_frac (fval x + fval y) 1 <= rnd_frac (fval x' + fval y') 1)
    by (apply rnd_frac_mono; lia).
  destruct (add_fnn x y Nx Ny ltac:(lia)) as [N1 V1].
  destruct (add_fnn x' y' Nx' Ny' ltac:(lia)) as [N2 V2].
  rewrite V1, V2. auto.
Qed.

Lemma intensity_bound (p : pixel) :
  pixel_ok p ->
  fnn (intensity p) /\
  fval (intensity p) <= fval (intensity (255, 255, 255)).
Proof.
  destruct p as [[r g] b]. intros (Hr & Hg & Hb). cbn [fst snd] in *.
  destruct (channel_fact _ r channel_table_red Hr) as (Nr & Lr & Br).
  destruct (channel_fact _ g channel_table_green Hg) as (Ng & Lg & Bg).
  destruct (channel_fact _ b channel_table_blue Hb) as (Nb & Lb & Bb).
  destruct (channel_fact _ 255 channel_table_red uint8_255) as (Nr' & _).
  destruct (channel_fact _ 255 channel_table_green uint8_255) as (Ng' & _).
  destruct (channel_fact _ 255 channel_table_blue uint8_255) as (Nb' & _).
  assert (E9 : 2 ^ 1083 = 512 * one_u).
  { unfold one_u. change 512 with (2 ^ 9).
    rewrite <- Z.pow_add_r by lia. reflexivity. }
  assert (E10 : 2 ^ 1084 = 1024 * one_u).
  { unfold one_u. change 1024 with (2 ^ 10).
    rewrite <- Z.pow_add_r by lia. reflexivity. }
  destruct (sum_bound _ _ _ _ 1083 Nr Ng Nr' Ng' Lr Lg ltac:(lia) ltac:(lia))
    as (Ns & Ns' & Ls & Bs).
  destruct (sum_bound _ _ _ _ 1084 Ns Nb Ns' Nb' Ls Lb ltac:(lia) ltac:(lia))
    as (Nl & _ & Ll & _).
  unfold intensity. split; assumption.
Qed.

Lemma intensity_white_ltb :
  (fval (intensity (255, 255, 255)) <? 255 * one_u) = true.
Proof. vm_compute. reflexivity. Qed.

Lemma intensity_white_below_255 :
  fval (intensity (255, 255, 255)) < 255 * one_u.
Proof. exact (proj1 (Z.ltb_lt _ _) intensity_white_ltb). Qed.

Lemma glyph_index_white : glyph_index (255, 255, 255) = Ok 8.
Proof. vm_compute. reflexivity. Qed.

Lemma pixel_ok_white : pixel_ok (255, 255, 255).
Proof. unfold pixel_ok, uint8. cbn [fst snd]. lia. Qed.

Lemma glyph_index_white_exact :
  lum_index (fval (intensity (255, 255, 255))) = 8.
Proof.
  destruct (intensity_bound _ pixel_ok_white) as [Nw _].
  pose proof intensity_white_below_255 as Hw.
  assert (E : glyph_index (255, 255, 255)
              = Ok (lum_index (fval (intensity (255, 255, 255))))).
  { unfold glyph_index. apply glyph_index_of_fnn; [exact Nw|].
    apply Z.lt_le_incl. exact Hw. }
  exact (eq_sym (Ok_inj _ _ (eq_trans (eq_sym glyph_index_white) E))).
Qed.

(** Every pixel has a glyph index, and none reaches past that of white. *)
Lemma glyph_index_bound (p : pixel) :
  pixel_ok p -> exists i : Z, glyph_index p = Ok i /\ 0 <= i <= 8.
Proof.
  intros Hp. destruct (intensity_bound p Hp) as [Np Lp].
  pose proof intensity_white_below_255 as Hw.
  pose proof (fval_nonneg (intensity p)) as H0.
  assert (Hle : fval (intensity p) <= 255 * one_u).
  { eapply Z.le_trans; [exact Lp|]. apply Z.lt_le_incl. exact Hw. }
  exists (lum_index (fval (intensity p))). split.
  - unfold glyph_index. apply glyph_index_of_fnn; assumption.
  - split; [apply lum_index_nonneg; assumption|].
    rewrite <- glyph_index_white_exact. apply lum_index_mono.
    split; assumption.
Qed.

Lemma ramp_lookup (i : Z) :
  0 <= i <= 8 ->
  exists ch : ascii,
    Py.str_index ascii_chars i = Ok ch /\ ch <> "#"%char.
Proof.
  intros Hi.
  assert (H : i = 0 \/ i = 1 \/ i = 2 \/ i = 3 \/ i = 4 \/ i = 5 \/ i = 6
              \/ i = 7 \/ i = 8) by lia.
  repeat (destruct H as [->|H]); try subst i;
    (eexists; split; [vm_compute; reflexivity|discriminate]).
Qed.

Lemma classify_total (p : pixel) :
  pixel_ok p ->
  exists (i : Z) (ch : ascii),
    glyph_index p = Ok i /\ 0 <= i <= 8 /\
    Py.str_index ascii_chars i = Ok ch /\ ch <> "#"%char /\
    get_ascii_char_and_color p = Ok (ch, color_of p).
Proof.
  intros Hp. destruct (glyph_index_bound p Hp) as (i & Hi & Hr).
  destruct (ramp_lookup i Hr) as (ch & Hch & Hne).
  exists i, ch. repeat split; try assumption; try lia.
  unfold get_ascii_char_and_color. rewrite Hi. cbn [rbind].
  rewrite Hch. reflexivity.
Qed.

Lemma intensity_range (p : pixel) :
  pixel_ok p ->
  (0 <=? intensity p)%float = true /\ (intensity p <? 255)%float = true.
Proof.
  intros Hp. destruct (intensity_bound p Hp) as [Np Lp].
  destruct float_255 as [N255 V255]. destruct float_zero as [N0 V0].
  pose proof intensity_white_below_255 as Hw.
  pose proof (fval_nonneg (intensity p)) as H0.
  split.
  - rewrite (leb_fnn _ _ N0 Np), V0. apply Z.leb_le. exact H0.
  - change 255%float with (Py.float_of_int 255).
    rewrite (ltb_fnn _ _ Np N255), V255. apply Z.ltb_lt.
    eapply Z.le_lt_trans; [exact Lp|exact Hw].
Qed.

(** C1: the colour class is the 3-bit mask of the channels above 128: bit 0
    for red, bit 1 for green, bit 2 for blue, each set exactly when the
    channel is strictly greater than 128; it lies in [0, 7], and a pixel
    with all channels at 128 has class 0. *)
Theorem color_class_mask (r g b : Z) :
  uint8 r -> uint8 g -> uint8 b ->
  (exists ch : ascii,
     get_ascii_char_and_color (r, g, b) = Ok (ch, color_of (r, g, b))) /\
  color_of (r, g, b)
  = Z.b2z (128 <? r) + 2 * Z.b2z (128 <? g) + 4 * Z.b2z (128 <? b) /\
  Z.testbit (color_of (r, g, b)) 0 = (128 <? r) /\
  Z.testbit (color_of (r, g, b)) 1 = (128 <? g) /\
  Z.testbit (color_of (r, g, b)) 2 = (128 <? b) /\
  0 <= color_of (r, g, b) <= 7 /\
  color_of (128, 128, 128) = 0.
Proof.
  intros Hr Hg Hb. split.
  - destruct (classify_total (r, g, b)) as (i & ch & _ & _ & _ & _ & H).
    { unfold pixel_ok. cbn [fst snd]. auto. }
    exists ch. exact H.
  - unfold color_of.
    destruct (128 <? r), (128 <? g), (128 <? b);
      repeat split; try reflexivity; vm_compute; congruence.
Qed.

Lemma color_class_mask_witness :
  Z.testbit (color_of (200, 128, 129)) 0 = true /\
  Z.testbit (color_of (200, 128, 129)) 1 = false /\
  Z.testbit (color_of (200, 128, 129)) 2 = true.
Proof.
  destruct (color_class_mask 200 128 129) as (_ & _ & H0 & H1 & H2 & _);
    [unfold uint8; lia|unfold uint8; lia|unfold uint8; lia|].
  rewrite H0, H1, H2. repeat split.
Defined.

(** C2: at the pixel (255, 255, 255) the classifier does not select the
    highest glyph index: the binary64 sum of the three weighted channels is
    254.99999999999997, the index is 8 and the glyph is the next to last of
    the ramp; the pixel (10, 10, 10) does get index 0. *)
Theorem white_pixel_glyph :
  intensity (255, 255, 255) = 0x1.fdfffffffffffp+7%float /\
  glyph_index (255, 255, 255) = Ok 8 /\
  get_ascii_char_and_color (255, 255, 255) = Ok ("@"%char, 7) /\
  glyph_index (10, 10, 10) = Ok 0 /\
  get_ascii_char_and_color (10, 10, 10) = Ok (" "%char, 0).
Proof. repeat split; vm_compute; reflexivity. Qed.

(** C7: the glyph index does not decrease with the luminance: for
    luminances [0 <= L1 < L2 <= 255] both indices exist and the one of [L1]
    is at most the one of [L2]. *)
Theorem glyph_index_monotone (L1 L2 : float) :
  (0 <=? L1)%float = true -> (L1 <? L2)%float = true ->
  (L2 <=? 255)%float = true ->
  exists i1 i2 : Z,
    glyph_index_of L1 = Ok i1 /\ glyph_index_of L2 = Ok i2 /\ i1 <= i2.
Proof.
  intros H0 H12 H2. destruct float_255 as [N255 V255].
  change 255%float with (Py.float_of_int 255) in H2.
  destruct (fnn_between L1 L2 _ N255 H0 H12 H2) as (N1 & N2 & Hlt & Hle).
  rewrite V255 in Hle. pose proof (fval_nonneg L1) as Hnn.
  exists (lum_index (fval L1)), (lum_index (fval L2)). split; [|split].
  - apply glyph_index_of_fnn; [assumption|lia].
  - apply glyph_index_of_fnn; assumption.
  - apply lum_index_mono. lia.
Qed.

Lemma glyph_index_monotone_witness :
  exists i1 i2 : Z,
    glyph_index_of 10%float = Ok i1 /\ glyph_index_of 200.5%float = Ok i2
    /\ i1 <= i2.
Proof.
  apply (glyph_index_monotone 10 200.5); vm_compute; reflexivity.
Defined.

(** C9: the ramp is indexed within its bounds without a clamp: for every
    pixel of uint8 channels the luminance is at most 255, the index
    [int((L / 255) * 9)] lies in [0, 9], the ramp has a character there and
    the classifier returns. *)
Theorem ramp_index_in_bounds (r g b : Z) :
  uint8 r -> uint8 g -> uint8 b ->
  (0 <=? intensity (r, g, b))%float = true /\
  (intensity (r, g, b) <=? 255)%float = true /\
  exists (i : Z) (ch : ascii),
    glyph_index (r, g, b) = Ok i /\ 0 <= i <= 9 /\
    Py.str_index ascii_chars i = Ok ch /\
    get_ascii_char_and_color (r, g, b) = Ok (ch, color_of (r, g, b)).
Proof.
  intros Hr Hg Hb.
  assert (Hp : pixel_ok (r, g, b)) by (unfold pixel_ok; cbn [fst snd]; auto).
  destruct (intensity_range _ Hp) as [H0 Hlt].
  destruct (intensity_bound _ Hp) as [Np Lp].
  destruct float_255 as [N255 V255].
  split; [exact H0|]. split.
  - change 255%float with (Py.float_of_int 255) in *.
    rewrite (ltb_fnn _ _ Np N255) in Hlt. rewrite (leb_fnn _ _ Np N255).
    apply Z.ltb_lt in Hlt. apply Z.leb_le. lia.
  - destruct (classify_total _ Hp) as (i & ch & Hi & Hr8 & Hch & _ & Hc).
    exists i, ch. repeat split; try assumption; lia.
Qed.

Lemma ramp_index_in_bounds_witness :
  exists (i : Z) (ch : ascii),
    glyph_index (12, 200, 255) = Ok i /\ 0 <= i <= 9 /\
    Py.str_index ascii_chars i = Ok ch.
Proof.
  destruct (ramp_index_in_bounds 12 200 255) as (_ & _ & i & ch & H1 & H2 & H3 & _);
    [unfold uint8; lia|unfold uint8; lia|unfold uint8; lia|].
  exists i, ch. auto.
Defined.

(** C10: the densest glyph of the ramp is never selected: every pixel of
    uint8 channels, (255, 255, 255) included, has a luminance strictly below
    255 and an index of at most 8, so its glyph is not the last of the
    ramp. *)
Theorem densest_glyph_unreachable (r g b : Z) :
  uint8 r -> uint8 g -> uint8 b ->
  (intensity (r, g, b) <? 255)%float = true /\
  exists (i : Z) (ch : ascii),
    glyph_index (r, g, b) = Ok i /\ i <= 8 /\
    get_ascii_char_and_color (r, g, b) = Ok (ch, color_of (r, g, b)) /\
    ch <> "#"%char.
Proof.
  intros Hr Hg Hb.
  assert (Hp : pixel_ok (r, g, b)) by (unfold pixel_ok; cbn [fst snd]; auto).
  split; [apply (intensity_range _ Hp)|].
  destruct (classify_total _ Hp) as (i & ch & Hi & Hr8 & _ & Hne & Hc).
  exists i, ch. repeat split; try assumption; lia.
Qed.

Lemma densest_glyph_unreachable_witness :
  exists (i : Z) (ch : ascii),
    glyph_index (255, 255, 255) = Ok i /\ i <= 8 /\ ch <> "#"%char.
Proof.
  destruct (densest_glyph_unreachable 255 255 255) as (_ & i & ch & H1 & H2 & _ & H3);
    [unfold uint8; lia|unfold uint8; lia|unfold uint8; lia|].
  exists i, ch. auto.
Defined.

End Classifier.

(** ** Decoding *)

Section Decoding.

Lemma frombuffer_nth (raw : list Byte.byte) (i : nat) :
  nth i (frombuffer raw) 0%Z = chan raw i.
Proof.
  unfold frombuffer, chan.
  change 0%Z with ((fun b => Z.of_N (Byte.to_N b)) Byte.x00).
  apply map_nth.
Qed.

Lemma frombuffer_length (raw : list Byte.byte) :
  List.length (frombuffer raw) = List.length raw.
Proof. unfold frombuffer. apply length_map. Qed.

Lemma chan_uint8 (raw : list Byte.byte) (i : nat) : uint8 (chan raw i).
Proof.
  unfold uint8, chan. pose proof (Byte.to_N_bounded (nth i raw Byte.x00)).
  lia.
Qed.

Lemma pixel_at_ok (raw : list Byte.byte) (cw x y : nat) :
  pixel_ok (pixel_at raw cw x y).
Proof.
  unfold pixel_ok, pixel_at. cbn [fst snd].
  repeat split; apply chan_uint8.
Qed.

Lemma pixels_of_length (w : nat) :
  forall a : list Z, w * 3 <= List.length a -> List.length (pixels_of w a) = w.
Proof.
  induction w as [|w IH]; intros a Ha; [reflexivity|].
  destruct a as [|r [|g [|b rest]]]; cbn in Ha; try lia.
  cbn [pixels_of List.length]. f_equal. apply IH. lia.
Qed.

Lemma pixels_of_lookup (w : nat) :
  forall (a : list Z) (x : nat),
    x < w -> w * 3 <= List.length a ->
    pixels_of w a !! x
    = Some (nth (x * 3) a 0%Z, nth (x * 3 + 1) a 0%Z, nth (x * 3 + 2) a 0%Z).
Proof.
  induction w as [|w IH]; intros a x Hx Ha; [lia|].
  destruct a as [|r [|g [|b rest]]]; cbn in Ha; try lia.
  cbn [pixels_of]. destruct x as [|x]; [reflexivity|].
  cbn [lookup list_lookup]. rewrite IH by lia.
  replace (S x * 3) with (S (S (S (x * 3)))) by lia.
  replace (S (S (S (x * 3))) + 1) with (S (S (S (x * 3 + 1)))) by lia.
  replace (S (S (S (x * 3))) + 2) with (S (S (S (x * 3 + 2)))) by lia.
  reflexivity.
Qed.

Lemma rows_of_length (h w : nat) :
  forall a : list Z, List.length (rows_of h w a) = h.
Proof.
  induction h as [|h IH]; intros a; [reflexivity|].
  cbn [rows_of List.length]. f_equal. apply IH.
Qed.

Lemma rows_of_lookup (h w : nat) :
  forall (a : list Z) (y : nat),
    y < h ->
    rows_of h w a !! y
    = Some (pixels_of w (firstn (w * 3) (skipn (y * (w * 3)) a))).
Proof.
  induction h as [|h IH]; intros a y Hy; [lia|].
  cbn [rows_of]. destruct y as [|y]; [reflexivity|].
  cbn [lookup list_lookup]. rewrite IH by lia.
  rewrite drop_drop. reflexivity.
Qed.

Lemma nth_window (a : list Z) (m n i : nat) :
  i < n -> nth i (firstn n (skipn m a)) 0%Z = nth (m + i) a 0%Z.
Proof.
  intros Hi. rewrite !nth_lookup.
  rewrite lookup_take_lt by exact Hi. rewrite lookup_drop. reflexivity.
Qed.

Lemma window_length (a : list Z) (h w y : nat) :
  List.length a = h * w * 3 -> y < h ->
  List.length (firstn (w * 3) (skipn (y * (w * 3)) a)) = w * 3.
Proof.
  intros Ha Hy. rewrite length_take, length_drop. nia.
Qed.

(** The pixels of the decoded frame are those of the buffer, row by row. *)
Lemma rows_of_pixel (raw : list Byte.byte) (h w x y : nat) :
  List.length raw = h * w * 3 -> x < w -> y < h ->
  exists row : list pixel,
    rows_of h w (frombuffer raw) !! y = Some row /\ List.length row = w /\
    row !! x = Some (pixel_at raw w x y).
Proof.
  intros Hlen Hx Hy.
  assert (Ha : List.length (frombuffer raw) = h * w * 3)
    by (rewrite frombuffer_length; exact Hlen).
  pose proof (window_length _ h w y Ha Hy) as Hw.
  eexists. split; [apply rows_of_lookup; exact Hy|]. split.
  - apply pixels_of_length. lia.
  - rewrite pixels_of_lookup by lia.
    rewrite !nth_window by lia. rewrite !frombuffer_nth.
    unfold pixel_at. cbv zeta.
    replace (y * (w * 3) + x * 3) with ((y * w + x) * 3) by lia.
    replace (y * (w * 3) + (x * 3 + 1)) with ((y * w + x) * 3 + 1) by lia.
    replace (y * (w * 3) + (x * 3 + 2)) with ((y * w + x) * 3 + 2) by lia.
    reflexivity.
Qed.

Lemma decode_ok (raw : list Byte.byte) (h w : nat) :
  List.length raw = h * w * 3 ->
  decode raw h w = Ok (rows_of h w (frombuffer raw)).
Proof.
  intros Hlen. unfold decode, reshape.
  rewrite frombuffer_length, Hlen, Nat.eqb_refl. reflexivity.
Qed.

Lemma decode_malformed (raw : list Byte.byte) (h w : nat) :
  List.length raw <> h * w * 3 -> decode raw h w = Raise MalformedFrame.
Proof.
  intros Hlen. unfold decode, reshape. rewrite frombuffer_length.
  apply Nat.eqb_neq in Hlen. rewrite Hlen. reflexivity.
Qed.

(** C5: decoding fails with [MalformedFrame] for every buffer whose List.length
    is not width * height * 3; for a buffer of exactly that List.length it
    yields the grid, row by row, whose pixel (x, y) is the three bytes at
    offset (y * width + x) * 3 of the buffer. *)
Theorem decode_row_major (raw : list Byte.byte) (h w : nat) :
  (List.length raw <> w * h * 3 -> decode raw h w = Raise MalformedFrame) /\
  (List.length raw = w * h * 3 ->
   exists frame : list (list pixel),
     decode raw h w = Ok frame /\ List.length frame = h /\
     forall x y : nat,
       x < w -> y < h ->
       exists row : list pixel,
         frame !! y = Some row /\ List.length row = w /\
         row !! x = Some (pixel_at raw w x y)).
Proof.
  split; intros Hlen.
  - apply decode_malformed. lia.
  - assert (Hlen' : List.length raw = h * w * 3) by lia.
    exists (rows_of h w (frombuffer raw)). split; [|split].
    + apply decode_ok. exact Hlen'.
    + apply rows_of_length.
    + intros x y Hx Hy. apply rows_of_pixel; assumption.
Qed.

End Decoding.

(** ** The streaming loop *)

Section Pump.

Lemma deliveries_app (tr1 tr2 : list event) :
  deliveries (tr1 ++ tr2) = deliveries tr1 ++ deliveries tr2.
Proof.
  induction tr1 as [|ev tr1 IH]; [reflexivity|].
  destruct ev; cbn [deliveries app]; rewrite IH; reflexivity.
Qed.

Lemma deliveries_draws (evs : list event) :
  forallb is_draw evs = true -> deliveries evs = [].
Proof.
  induction evs as [|ev evs IH]; [reflexivity|].
  cbn [forallb]. intros H. apply andb_true_iff in H. destruct H as [H1 H2].
  destruct ev; try discriminate H1; cbn [deliveries]; apply IH; exact H2.
Qed.

(** *** Drawing a frame *)

Lemma render_row_trace (row : list pixel) :
  forall (y x0 : nat) (st : pump_state) (r : result unit) (st' : pump_state),
    render_row y x0 row st = (r, st') ->
    source st' = source st /\
    exists evs : list event,
      trace st' = trace st ++ evs /\ forallb is_draw evs = true.
Proof.
  induction row as [|p rest IH]; intros y x0 st r st' H; cbn [render_row] in H.
  - injection H as _ <-. split; [reflexivity|].
    exists []. rewrite app_nil_r. split; reflexivity.
  - destruct (get_ascii_char_and_color p) as [[c color]|e].
    + apply IH in H. destruct H as [Hs (evs & Ht & Hd)].
      split; [exact Hs|].
      exists (EvSetColor color :: EvPutChar x0 y c :: evs).
      split; [|exact Hd].
      rewrite Ht. cbn [put_char set_color_ansi log trace].
      rewrite <- !app_assoc. reflexivity.
    + injection H as _ <-. split; [reflexivity|].
      exists []. rewrite app_nil_r. split; reflexivity.
Qed.

Lemma render_rows_trace (rows : list (list pixel)) :
  forall (y : nat) (st : pump_state) (r : result unit) (st' : pump_state),
    render_rows y rows st = (r, st') ->
    source st' = source st /\
    exists evs : list event,
      trace st' = trace st ++ evs /\ forallb is_draw evs = true.
Proof.
  induction rows as [|row rest IH]; intros y st r st' H; cbn [render_rows] in H.
  - injection H as _ <-. split; [reflexivity|].
    exists []. rewrite app_nil_r. split; reflexivity.
  - destruct (render_row y 0 row st) as [[[]|e] st1] eqn:E;
      apply render_row_trace in E; destruct E as [Hs1 (evs1 & Ht1 & Hd1)].
    + apply IH in H. destruct H as [Hs (evs & Ht & Hd)].
      split; [congruence|].
      exists (evs1 ++ evs). split.
      * rewrite Ht, Ht1, app_assoc. reflexivity.
      * rewrite forallb_app, Hd1, Hd. reflexivity.
    + injection H as _ <-. split; [exact Hs1|].
      exists evs1. split; assumption.
Qed.

Lemma render_row_ok (row : list pixel) :
  forall (y x0 : nat) (st : pump_state),
    (forall (k : nat) (p : pixel),
        row !! k = Some p -> exists c, get_ascii_char_and_color p = Ok c) ->
    exists st' : pump_state,
      render_row y x0 row st = (Ok tt, st') /\
      (forall (k : nat) (p : pixel),
          row !! k = Some p ->
          exists c, get_ascii_char_and_color p = Ok c
                    /\ cells st' !! (x0 + k, y) = Some c) /\
      (forall x y' : nat,
          y' <> y \/ x < x0 \/ x0 + List.length row <= x ->
          cells st' !! (x, y') = cells st !! (x, y')).
Proof.
  induction row as [|p rest IH]; intros y x0 st Hc; cbn [render_row].
  - exists st. split; [reflexivity|]. split; [|reflexivity].
    intros k q H. rewrite lookup_nil in H. discriminate H.
  - destruct (Hc 0 p eq_refl) as [[c color] Hp]. rewrite Hp.
    set (st1 := put_char x0 y c (set_color_ansi color st)).
    destruct (IH y (S x0) st1) as (st' & Hr & Ha & Hb).
    { intros k q H. apply (Hc (S k) q). exact H. }
    exists st'. split; [exact Hr|]. split.
    + intros [|k] q H.
      * cbn in H. injection H as <-. exists (c, color). split; [exact Hp|].
        rewrite Hb by lia. rewrite Nat.add_0_r.
        unfold st1. cbn [put_char set_color_ansi log cells attr].
        apply lookup_insert_eq.
      * destruct (Ha k q H) as (c' & Hq & Hl). exists c'. split; [exact Hq|].
        replace (x0 + S k) with (S x0 + k) by lia. exact Hl.
    + intros x y' H. cbn [List.length] in H. rewrite Hb by lia.
      unfold st1. cbn [put_char set_color_ansi log cells attr].
      apply lookup_insert_ne. intros E. injection E as E1 E2. lia.
Qed.

Lemma render_rows_ok (cw : nat) (rows : list (list pixel)) :
  forall (y0 : nat) (st : pump_state),
    (forall (j : nat) (row : list pixel) (k : nat) (p : pixel),
        rows !! j = Some row -> row !! k = Some p ->
        exists c, get_ascii_char_and_color p = Ok c) ->
    (forall (j : nat) (row : list pixel),
        rows !! j = Some row -> List.length row = cw) ->
    exists st' : pump_state,
      render_rows y0 rows st = (Ok tt, st') /\
      (forall (j : nat) (row : list pixel) (k : nat) (p : pixel),
          rows !! j = Some row -> row !! k = Some p ->
          exists c, get_ascii_char_and_color p = Ok c
                    /\ cells st' !! (k, y0 + j) = Some c) /\
      (forall x y : nat,
          y < y0 \/ y0 + List.length rows <= y \/ cw <= x ->
          cells st' !! (x, y) = cells st !! (x, y)).
Proof.
  induction rows as [|row rest IH]; intros y0 st Hc Hw; cbn [render_rows].
  - exists st. split; [reflexivity|]. split; [|reflexivity].
    intros j row k p H. rewrite lookup_nil in H. discriminate H.
  - destruct (render_row_ok row y0 0 st) as (st1 & Hr1 & Ha1 & Hb1).
    { intros k p H. apply (Hc 0 row k p eq_refl H). }
    rewrite Hr1.
    destruct (IH (S y0) st1) as (st' & Hr & Ha & Hb).
    { intros j r k p H1 H2. apply (Hc (S j) r k p H1 H2). }
    { intros j r H. apply (Hw (S j) r H). }
    pose proof (Hw 0 row eq_refl) as Hlen.
    exists st'. split; [exact Hr|]. split.
    + intros [|j] r k p H1 H2.
      * cbn in H1. injection H1 as <-.
        destruct (Ha1 k p H2) as (c & Hp & Hl). exists c. split; [exact Hp|].
        rewrite Hb by lia. rewrite Nat.add_0_r. exact Hl.
      * destruct (Ha j r k p H1 H2) as (c & Hp & Hl). exists c.
        split; [exact Hp|].
        replace (y0 + S j) with (S y0 + j) by lia. exact Hl.
    + intros x y H. cbn [List.length] in H. rewrite Hb by lia.
      apply Hb1. lia.
Qed.

Lemma classifiable (p : pixel) :
  pixel_ok p -> exists c, get_ascii_char_and_color p = Ok c.
Proof.
  intros Hp. destruct (classify_total p Hp) as (i & ch & _ & _ & _ & _ & H).
  eexists. exact H.
Qed.

(** *** One iteration *)

Lemma pump_loop_S (fuel cw ch : nat) (st : pump_state) :
  pump_loop (S fuel) cw ch st =
  let st1 := snd (read (cw * ch * 3) st) in
  match firstn (cw * ch * 3) (source st) with
  | [] => Some (Drained, st1)
  | _ :: _ =>
      match decode (firstn (cw * ch * 3) (source st)) ch cw with
      | Raise e => Some (Failed e, st1)
      | Ok frame =>
          match render_rows 0 frame st1 with
          | (Raise e, st2) => Some (Failed e, st2)
          | (Ok _, st2) => pump_loop fuel cw ch (refresh st2)
          end
      end
  end.
Proof. reflexivity. Qed.

(** The loop returns: with more fuel than the source has bytes it never
    runs out. *)
Lemma pump_loop_total (cw ch : nat) (fuel : nat) :
  forall st : pump_state,
    List.length (source st) < fuel ->
    exists r, pump_loop fuel cw ch st = Some r.
Proof.
  induction fuel as [|fuel IH]; intros st Hlen; [lia|].
  rewrite pump_loop_S. cbv zeta.
  destruct (firstn (cw * ch * 3) (source st)) as [|b data] eqn:E;
    [eexists; reflexivity|].
  destruct (decode (b :: data) ch cw) as [frame|e]; [|eexists; reflexivity].
  destruct (render_rows 0 frame (snd (read (cw * ch * 3) st)))
    as [[[]|e] st2] eqn:R; [|eexists; reflexivity].
  apply IH. apply render_rows_trace in R. destruct R as [Hs _].
  cbn [refresh log source]. rewrite Hs. cbn [read snd log source].
  rewrite length_drop.
  assert (cw * ch * 3 <> 0) by (intros Z0; rewrite Z0 in E; discriminate E).
  assert (source st <> []) by (intros Z0; rewrite Z0, take_nil in E; discriminate E).
  destruct (source st); [congruence|]. cbn [List.length] in *. lia.
Qed.

Lemma run_total (src : list Byte.byte) (cw ch : nat) :
  exists r, run src cw ch = Some r.
Proof. apply pump_loop_total. cbn [initial_state source]. lia. Qed.

(** *** The order of the calls *)

Lemma pump_trace_draws (evs : list event) :
  forall tr : list event,
    pump_trace true tr -> forallb is_draw evs = true ->
    pump_trace true (tr ++ evs).
Proof.
  induction evs as [|ev evs IH]; intros tr Ht Hd.
  - rewrite app_nil_r. exact Ht.
  - cbn [forallb] in Hd. apply andb_true_iff in Hd. destruct Hd as [H1 H2].
    replace (tr ++ ev :: evs) with ((tr ++ [ev]) ++ evs)
      by (rewrite <- app_assoc; reflexivity).
    apply IH; [|exact H2].
    destruct ev; try discriminate H1; constructor; exact Ht.
Qed.

Lemma pump_loop_trace (cw ch : nat) (fuel : nat) :
  forall (st : pump_state) (out : outcome) (st' : pump_state),
    pump_trace false (trace st) ->
    pump_loop fuel cw ch st = Some (out, st') ->
    exists b : bool,
      pump_trace b (trace st') /\
      (out = Drained ->
       b = false /\ exists tr n, trace st' = tr ++ [EvRead n []]).
Proof.
  induction fuel as [|fuel IH]; intros st out st' Ht H; [discriminate H|].
  rewrite pump_loop_S in H. cbv zeta in H.
  destruct (firstn (cw * ch * 3) (source st)) as [|b data] eqn:E.
  - injection H as <- <-. exists false. cbn [read snd log trace]. rewrite E.
    split; [constructor; exact Ht|]. intros _. split; [reflexivity|].
    eexists _, _. reflexivity.
  - assert (Ht1 : pump_trace true (trace (snd (read (cw * ch * 3) st)))).
    { cbn [read snd log trace]. rewrite E. constructor. exact Ht. }
    destruct (decode (b :: data) ch cw) as [frame|e].
    + destruct (render_rows 0 frame (snd (read (cw * ch * 3) st)))
        as [[[]|e] st2] eqn:R;
        apply render_rows_trace in R; destruct R as [_ (evs & Hev & Hd)];
        pose proof (pump_trace_draws evs _ Ht1 Hd) as Ht2;
        rewrite <- Hev in Ht2.
      * apply (IH (refresh st2)); [|exact H].
        cbn [refresh log trace]. constructor. exact Ht2.
      * injection H as <- <-. exists true. split; [exact Ht2|].
        intros Hf. discriminate Hf.
    + injection H as <- <-. exists true. split; [exact Ht1|].
      intros Hf. discriminate Hf.
Qed.




(** *** Full frames *)

Lemma rows_lookup_inv (raw : list Byte.byte) (h w j : nat) (row : list pixel) :
  List.length raw = h * w * 3 ->
  rows_of h w (frombuffer raw) !! j = Some row ->
  j < h /\ List.length row = w /\
  forall (k : nat) (p : pixel),
    row !! k = Some p -> k < w /\ p = pixel_at raw w k j.
Proof.
  intros Hlen Hrow.
  assert (Hj : j < h).
  { apply lookup_lt_Some in Hrow. rewrite rows_of_length in Hrow. exact Hrow. }
  assert (Ha : List.length (frombuffer raw) = h * w * 3)
    by (rewrite frombuffer_length; exact Hlen).
  assert (Hw : List.length row = w).
  { rewrite rows_of_lookup in Hrow by exact Hj. injection Hrow as <-.
    apply pixels_of_length. rewrite (window_length _ h w j Ha Hj). lia. }
  split; [exact Hj|]. split; [exact Hw|].
  intros k p Hk.
  assert (Hkw : k < w) by (apply lookup_lt_Some in Hk; lia).
  split; [exact Hkw|].
  destruct (rows_of_pixel raw h w k j Hlen Hkw Hj) as (row' & H1 & _ & H2).
  rewrite Hrow in H1. injection H1 as <-. rewrite Hk in H2.
  injection H2 as ->. reflexivity.
Qed.

Lemma in_canvas_false (cw ch x y : nat) :
  (x <? cw) && (y <? ch) = false -> cw <= x \/ ch <= y.
Proof.
  intros H. apply andb_false_iff in H.
  destruct H as [H|H]; apply Nat.ltb_ge in H; auto.
Qed.

Lemma is_frame_of_inv (cw ch : nat) (g : grid) (raw : list Byte.byte) :
  is_frame_of cw ch g raw -> canvas_inv cw ch g.
Proof.
  intros H x y Hxy. specialize (H x y). rewrite Hxy in H. exact H.
Qed.

(** One iteration over a full chunk: the chunk is consumed, the canvas
    holds its frame, and the frame has been handed to the display. *)
Lemma pump_frame_step (cw ch fuel : nat) (st : pump_state)
      (f rest : list Byte.byte) :
  0 < cw * ch * 3 -> List.length f = cw * ch * 3 ->
  source st = f ++ rest -> canvas_inv cw ch (cells st) ->
  exists st3 : pump_state,
    pump_loop (S fuel) cw ch st = pump_loop fuel cw ch st3 /\
    source st3 = rest /\
    is_frame_of cw ch (cells st3) f /\
    deliveries (trace st3) = deliveries (trace st) ++ [cells st3].
Proof.
  intros Hn Hlen Hsrc Hinv.
  assert (Hlen' : List.length f = ch * cw * 3) by lia.
  rewrite pump_loop_S. cbv zeta.
  rewrite Hsrc, (take_app_length' f rest _ (eq_sym Hlen)).
  destruct f as [|b f']; [cbn in Hlen; lia|].
  set (f := b :: f') in *.
  rewrite (decode_ok f ch cw Hlen').
  set (st1 := snd (read (cw * ch * 3) st)).
  destruct (render_rows_ok cw (rows_of ch cw (frombuffer f)) 0 st1)
    as (st2 & Hr & Ha & Hb).
  { intros j row k p Hj Hk.
    destruct (rows_lookup_inv f ch cw j row Hlen' Hj) as (_ & _ & Hp).
    destruct (Hp k p Hk) as [_ ->]. apply classifiable. apply pixel_at_ok. }
  { intros j row Hj.
    apply (rows_lookup_inv f ch cw j row Hlen' Hj). }
  rewrite Hr. exists (refresh st2).
  pose proof (render_rows_trace _ _ _ _ _ Hr) as [Hs (evs & Hev & Hd)].
  split; [reflexivity|]. split; [|split].
  - cbn [refresh log source]. rewrite Hs. unfold st1.
    cbn [read snd log source]. rewrite Hsrc.
    apply drop_app_length'. exact (eq_sym Hlen).
  - cbn [refresh log cells]. intros x y.
    destruct ((x <? cw) && (y <? ch)) eqn:Hxy.
    + apply andb_true_iff in Hxy. destruct Hxy as [Hx Hy].
      apply Nat.ltb_lt in Hx, Hy.
      destruct (rows_of_pixel f ch cw x y Hlen' Hx Hy) as (row & H1 & _ & H2).
      destruct (Ha y row x _ H1 H2) as (c & Hc & Hl).
      exists c. split; [exact Hc|exact Hl].
    + rewrite Hb.
      * unfold st1. cbn [read snd log cells]. apply Hinv. exact Hxy.
      * rewrite rows_of_length. apply in_canvas_false in Hxy. lia.
  - cbn [refresh log trace cells]. rewrite Hev. unfold st1.
    cbn [read snd log trace].
    rewrite !deliveries_app, (deliveries_draws evs Hd).
    cbn [deliveries]. rewrite !app_nil_r. reflexivity.
Qed.

Lemma pump_frames (cw ch : nat) (frames : list (list Byte.byte)) :
  forall (fuel : nat) (st : pump_state) (rest : list Byte.byte),
    0 < cw * ch * 3 ->
    Forall (fun f => List.length f = cw * ch * 3) frames ->
    source st = List.concat frames ++ rest -> canvas_inv cw ch (cells st) ->
    exists (st' : pump_state) (grids : list grid),
      pump_loop (List.length frames + fuel) cw ch st
      = pump_loop fuel cw ch st' /\
      source st' = rest /\ canvas_inv cw ch (cells st') /\
      deliveries (trace st') = deliveries (trace st) ++ grids /\
      Forall2 (is_frame_of cw ch) grids frames.
Proof.
  induction frames as [|f frames IH]; intros fuel st rest Hn Hall Hsrc Hinv.
  - exists st, []. cbn in Hsrc. rewrite app_nil_r.
    repeat split; try assumption. constructor.
  - inversion Hall as [|f0 frames0 Hf Hall']; subst f0 frames0.
    clear Hall. rename Hall' into Hall.
    cbn [List.concat] in Hsrc. rewrite <- app_assoc in Hsrc.
    destruct (pump_frame_step cw ch (List.length frames + fuel) st f
                (List.concat frames ++ rest) Hn Hf Hsrc Hinv)
      as (st3 & Hstep & Hs3 & Hfr & Hdel).
    destruct (IH fuel st3 rest Hn Hall Hs3 (is_frame_of_inv _ _ _ _ Hfr))
      as (st' & grids & Hloop & Hs' & Hinv' & Hdel' & Hgr).
    exists st', (cells st3 :: grids).
    split; [cbn [List.length plus]; rewrite Hstep; exact Hloop|].
    split; [exact Hs'|]. split; [exact Hinv'|]. split.
    + rewrite Hdel', Hdel, <- app_assoc. reflexivity.
    + constructor; assumption.
Qed.

Lemma concat_length_uniform (n : nat) (frames : list (list Byte.byte)) :
  Forall (fun f => List.length f = n) frames ->
  List.length (List.concat frames) = List.length frames * n.
Proof.
  induction 1 as [|f frames Hf _ IH]; [reflexivity|].
  cbn [List.concat List.length]. rewrite List.length_app, IH, Hf. lia.
Qed.

Lemma initial_canvas (cw ch : nat) (src : list Byte.byte) :
  canvas_inv cw ch (cells (initial_state src)).
Proof. intros x y _. apply lookup_empty. Qed.

(** A run over full frames followed by [rest]: the frames are delivered in
    order, and the loop goes on with [rest]. *)
Lemma run_frames (cw ch : nat) (frames : list (list Byte.byte))
      (rest : list Byte.byte) :
  0 < cw * ch * 3 ->
  Forall (fun f => List.length f = cw * ch * 3) frames ->
  exists (st' : pump_state) (grids : list grid) (fuel : nat),
    run (List.concat frames ++ rest) cw ch = pump_loop (S fuel) cw ch st' /\
    source st' = rest /\ deliveries (trace st') = grids /\
    Forall2 (is_frame_of cw ch) grids frames.
Proof.
  intros Hn Hall. unfold run.
  set (src := List.concat frames ++ rest).
  assert (Hlen : List.length frames <= List.length src).
  { unfold src. rewrite List.length_app, (concat_length_uniform _ _ Hall). nia. }
  destruct (pump_frames cw ch frames (S (List.length src - List.length frames))
              (initial_state src) rest Hn Hall eq_refl
              (initial_canvas cw ch src))
    as (st' & grids & Hloop & Hs & _ & Hdel & Hgr).
  exists st', grids, (List.length src - List.length frames).
  split; [|auto].
  rewrite <- Hloop. f_equal. lia.
Qed.

Lemma Forall2_one {A B : Type} (R : A -> B -> Prop) (l : list A) (a : B) :
  Forall2 R l [a] -> exists x, l = [x] /\ R x a.
Proof.
  intros H. inversion H as [|x a' l' k' Hx Hl]; subst.
  inversion Hl; subst. exists x. auto.
Qed.

Lemma Forall2_three {A B : Type} (R : A -> B -> Prop) (l : list A)
      (a b c : B) :
  Forall2 R l [a; b; c] ->
  exists x y z, l = [x; y; z] /\ R x a /\ R y b /\ R z c.
Proof.
  intros H. inversion H as [|x a' l1 k1 Hx H1]; subst.
  inversion H1 as [|y b' l2 k2 Hy H2]; subst.
  inversion H2 as [|z c' l3 k3 Hz H3]; subst.
  inversion H3; subst. exists x, y, z. auto.
Qed.

(** *** The end of the stream *)

Lemma pump_loop_eof (cw ch fuel : nat) (st : pump_state) :
  firstn (cw * ch * 3) (source st) = [] ->
  pump_loop (S fuel) cw ch st
  = Some (Drained, snd (read (cw * ch * 3) st)).
Proof.
  intros H. rewrite pump_loop_S. cbv zeta. rewrite H. reflexivity.
Qed.

Lemma pump_loop_short (cw ch fuel : nat) (st : pump_state) :
  source st <> [] -> List.length (source st) < cw * ch * 3 ->
  pump_loop (S fuel) cw ch st
  = Some (Failed MalformedFrame, snd (read (cw * ch * 3) st)).
Proof.
  intros Hne Hlen. rewrite pump_loop_S. cbv zeta.
  rewrite take_ge by lia.
  destruct (source st) as [|b data] eqn:E; [congruence|].
  rewrite decode_malformed; [reflexivity|]. lia.
Qed.

(** C3: when the source ends on a chunk that is not empty but shorter than
    a frame, after any number of full frames, the run ends in
    [Failed MalformedFrame]: the full frames were delivered, the last call
    is the read of the short chunk, and nothing is delivered for it. *)
Theorem short_final_chunk_fails (cw ch : nat)
        (frames : list (list Byte.byte)) (tail : list Byte.byte) :
  Forall (fun f => List.length f = cw * ch * 3) frames ->
  tail <> [] -> List.length tail < cw * ch * 3 ->
  exists (st : pump_state) (grids : list grid) (tr : list event),
    run (List.concat frames ++ tail) cw ch
    = Some (Failed MalformedFrame, st) /\
    trace st = tr ++ [EvRead (cw * ch * 3) tail] /\
    deliveries (trace st) = grids /\
    Forall2 (is_frame_of cw ch) grids frames.
Proof.
  intros Hall Hne Hlen.
  destruct (run_frames cw ch frames tail ltac:(lia) Hall)
    as (st' & grids & fuel & Hrun & Hs & Hdel & Hgr).
  rewrite Hrun, pump_loop_short by (rewrite Hs; assumption).
  eexists _, grids, (trace st'). split; [reflexivity|].
  cbn [read snd log trace]. rewrite Hs, take_ge by lia.
  split; [reflexivity|]. split; [|exact Hgr].
  rewrite deliveries_app, Hdel. cbn [deliveries]. apply app_nil_r.
Qed.

Lemma short_final_chunk_fails_witness :
  exists (st : pump_state) (g : grid),
    run [Byte.x01; Byte.x02; Byte.x03; Byte.x04] 1 1
    = Some (Failed MalformedFrame, st) /\
    deliveries (trace st) = [g].
Proof.
  destruct (short_final_chunk_fails 1 1
              [[Byte.x01; Byte.x02; Byte.x03]] [Byte.x04])
    as (st & grids & tr & Hrun & _ & Hdel & Hgr).
  - repeat constructor.
  - discriminate.
  - cbn. lia.
  - destruct (Forall2_one _ _ _ Hgr) as (g & Eg & _).
    exists st, g. split; [exact Hrun|]. rewrite Hdel. exact Eg.
Defined.

(** C4, as the code has it: a short read ends the run in [Drained] only
    when it returned no byte at all. A read that returns nothing makes the
    loop stop in [Drained], and a run that ended in [Drained] ended on such
    a read. *)
Theorem empty_read_drains :
  (forall (cw ch fuel : nat) (st : pump_state),
      firstn (cw * ch * 3) (source st) = [] ->
      exists st' : pump_state,
        pump_loop (S fuel) cw ch st = Some (Drained, st') /\
        trace st' = trace st ++ [EvRead (cw * ch * 3) []]) /\
  (forall (src : list Byte.byte) (cw ch : nat) (st : pump_state),
      run src cw ch = Some (Drained, st) ->
      exists (tr : list event) (n : nat), trace st = tr ++ [EvRead n []]).
Proof.
  split.
  - intros cw ch fuel st H. eexists. split; [apply pump_loop_eof; exact H|].
    cbn [read snd log trace]. rewrite H. reflexivity.
  - intros src cw ch st H.
    destruct (pump_loop_trace cw ch _ (initial_state src) _ _ pt_nil H)
      as (b & _ & Hd).
    apply Hd. reflexivity.
Qed.

(** C4, as stated, fails: a source that ends after one byte of a
    three-byte frame makes the read return fewer bytes than requested at
    the end of the stream, and the run ends in [Failed MalformedFrame]. *)
Lemma short_read_at_end_not_drained :
  exists st : pump_state,
    run [Byte.x2a] 1 1 = Some (Failed MalformedFrame, st) /\
    trace st = [EvRead 3 [Byte.x2a]].
Proof. eexists. split; reflexivity. Qed.

(** C6: a source of exactly three full frames makes the loop hand three
    frames to the display, in the order of the chunks, each the
    classification of the pixels of its chunk, and then stop in
    [Drained]. *)
Theorem three_frames_round_trip (cw ch : nat) (f1 f2 f3 : list Byte.byte) :
  0 < cw * ch * 3 ->
  List.length f1 = cw * ch * 3 -> List.length f2 = cw * ch * 3 ->
  List.length f3 = cw * ch * 3 ->
  exists (st : pump_state) (g1 g2 g3 : grid),
    run (f1 ++ f2 ++ f3) cw ch = Some (Drained, st) /\
    deliveries (trace st) = [g1; g2; g3] /\
    is_frame_of cw ch g1 f1 /\ is_frame_of cw ch g2 f2 /\
    is_frame_of cw ch g3 f3.
Proof.
  intros Hn H1 H2 H3.
  destruct (run_frames cw ch [f1; f2; f3] [] Hn)
    as (st' & grids & fuel & Hrun & Hs & Hdel & Hgr).
  { repeat constructor; assumption. }
  cbn [List.concat] in Hrun. rewrite !app_nil_r in Hrun.
  destruct (Forall2_three _ _ _ _ _ Hgr) as (g1 & g2 & g3 & Eg & Hg).
  rewrite Hrun, pump_loop_eof by (rewrite Hs; apply take_nil).
  eexists _, g1, g2, g3. split; [reflexivity|].
  split; [|exact Hg].
  cbn [read snd log trace]. rewrite deliveries_app.
  rewrite Hs, take_nil. cbn [deliveries]. rewrite app_nil_r.
  rewrite Hdel. exact Eg.
Qed.

Lemma three_frames_round_trip_witness :
  exists (st : pump_state) (g1 g2 g3 : grid),
    run ([Byte.x00; Byte.x80; Byte.xff] ++ [Byte.x0a; Byte.x0a; Byte.x0a]
         ++ [Byte.xff; Byte.xff; Byte.xff]) 1 1
    = Some (Drained, st) /\
    deliveries (trace st) = [g1; g2; g3].
Proof.
  destruct (three_frames_round_trip 1 1 [Byte.x00; Byte.x80; Byte.xff]
              [Byte.x0a; Byte.x0a; Byte.x0a] [Byte.xff; Byte.xff; Byte.xff])
    as (st & g1 & g2 & g3 & Hrun & Hdel & _); [cbn; lia|reflexivity..|].
  exists st, g1, g2, g3. split; assumption.
Defined.

End Pump.

(** ** Further properties of the classifier *)

Section ClassifierSteps.
Import B64.
Local Open Scope Z_scope.

(** Below a binary64 number that is not a power of two the next number is
    one unit of its last place away. *)
Lemma float_gap (x : spec_float) (m : positive) (e : Z) :
  nnf x -> nnf (S754_finite false m e) -> 2 ^ 52 < Z.pos m ->
  sc x < sc (S754_finite false m e) ->
  sc x <= (Z.pos m - 1) * 2 ^ (e + 1074).
Proof.
  intros Hx Ht Hm Hlt.
  destruct (nnf_finite m e Ht) as (He & _).
  pose proof (pow2_pos (e + 1074) ltac:(lia)) as Hp.
  destruct x as [sx|sx| |[] mx ex]; cbn [nnf] in Hx; try contradiction.
  - change (sc (S754_zero sx)) with 0. apply Z.mul_nonneg_nonneg; lia.
  - cbn [sc] in *.
    destruct (nnf_finite mx ex Hx) as (Hex & Hdx & _).
    pose proof (pow2_pos (ex + 1074) ltac:(lia)) as Hpx.
    destruct (Z_lt_le_dec ex e) as [Hlow|Hhigh].
    + pose proof (Zdigits2_bounds (Z.pos mx) ltac:(lia)) as [_ Hhi].
      assert (Hmx : Z.pos mx < 2 ^ 53).
      { eapply Z.lt_le_trans; [exact Hhi|]. apply Z.pow_le_mono_r; lia. }
      assert (H2 : 2 * 2 ^ (ex + 1074) <= 2 ^ (e + 1074)).
      { replace (2 * 2 ^ (ex + 1074)) with (2 ^ (1 + (ex + 1074)))
          by (rewrite pow2_split by lia; reflexivity).
        apply Z.pow_le_mono_r; lia. }
      assert (H3 : Z.pos mx * 2 ^ (ex + 1074) < 2 ^ 53 * 2 ^ (ex + 1074))
        by (apply Z.mul_lt_mono_pos_r; lia).
      assert (H4 : 2 ^ 52 * 2 ^ (e + 1074) <= (Z.pos m - 1) * 2 ^ (e + 1074))
        by (apply Z.mul_le_mono_nonneg_r; lia).
      change (2 ^ 53) with (2 ^ 52 * 2) in H3.
      assert (H5 : 2 ^ 52 * (2 * 2 ^ (ex + 1074)) <= 2 ^ 52 * 2 ^ (e + 1074))
        by (apply Z.mul_le_mono_nonneg_l; lia).
      lia.
    + assert (E : 2 ^ (ex + 1074) = 2 ^ (ex - e) * 2 ^ (e + 1074)).
      { rewrite <- pow2_split by lia. f_equal. lia. }
      rewrite E in Hlt |- *. rewrite Z.mul_assoc in Hlt |- *.
      apply cancel_lt in Hlt; [|exact Hp].
      apply Z.mul_le_mono_nonneg_r; lia.
Qed.

(** A float between zero and a non-negative bound. *)
Lemma fnn_within (x hi : float) :
  fnn hi -> (0 <=? x)%float = true -> (x <=? hi)%float = true ->
  fnn x /\ fval x <= fval hi.
Proof.
  intros Hh H0 H1.
  rewrite FloatAxioms.leb_spec in H0, H1.
  change (Prim2SF 0) with (S754_zero false) in H0.
  pose proof (Prim2SF_valid x) as V.
  assert (N : nnf (Prim2SF x)).
  { unfold fnn in Hh.
    destruct (Prim2SF hi) as [sh|sh| |[] mh eh]; cbn [nnf] in Hh;
      try contradiction;
      destruct (Prim2SF x) as [s1|[]| |[] m1 e1];
      try discriminate H0; try discriminate H1;
      cbn [nnf valid_binary] in *; solve [auto]. }
  split; [exact N|].
  rewrite SFleb_nnf in H1 by assumption. apply Z.leb_le in H1. exact H1.
Qed.

Lemma float_lit_255 : fnn 255%float /\ fval 255%float = 255 * one_u.
Proof. exact float_255. Qed.

(** The test of a luminance against a step is the test of its index. *)
Lemma threshold_test (t p : float) (k : Z) (lum : float) :
  threshold_ok t p k = true -> fnn lum -> fval lum <= 255 * one_u ->
  (t <=? lum)%float = (k <=? lum_index (fval lum)).
Proof.
  unfold threshold_ok. intros H Nl Hl.
  destruct (Prim2SF t) as [| | |[] m e] eqn:Et; try discriminate H.
  destruct (Prim2SF p) as [| | |[] m' e'] eqn:Ep; try discriminate H.
  destruct (glyph_index_of t) as [i|] eqn:Gt;
    [|rewrite andb_false_r in H; discriminate H].
  destruct (glyph_index_of p) as [j|] eqn:Gp;
    [|rewrite andb_false_r in H; discriminate H].
  cbn beta iota in H. rewrite !andb_true_iff in H.
  destruct H as ((((((Bm & Bp) & Hm) & Em) & Ee) & Bt) & (Ei & Ej)).
  apply Z.ltb_lt in Hm. apply Z.eqb_eq in Em, Ee, Ei, Ej.
  apply Z.leb_le in Bt.
  assert (Nt : fnn t) by (unfold fnn; rewrite Et; exact Bm).
  assert (Np : fnn p) by (unfold fnn; rewrite Ep; exact Bp).
  assert (Vp : fval p = (Z.pos m - 1) * 2 ^ (e + 1074)).
  { unfold fval. rewrite Ep. cbn [sc]. rewrite Em, Ee. reflexivity. }
  assert (Vt : fval t = Z.pos m * 2 ^ (e + 1074)).
  { unfold fval. rewrite Et. reflexivity. }
  destruct (nnf_finite m e Bm) as (He & _).
  pose proof (pow2_pos (e + 1074) ltac:(lia)) as Hpw.
  assert (Lpt : fval p <= fval t).
  { rewrite Vp, Vt. apply Z.mul_le_mono_nonneg_r; lia. }
  pose proof (glyph_index_of_fnn t Nt Bt) as Gt'.
  pose proof (glyph_index_of_fnn p Np ltac:(lia)) as Gp'.
  rewrite Gt in Gt'. rewrite Gp in Gp'.
  apply Ok_inj in Gt'. apply Ok_inj in Gp'.
  rewrite leb_fnn by assumption.
  pose proof (fval_nonneg p) as P0. pose proof (fval_nonneg t) as T0.
  pose proof (fval_nonneg lum) as L0.
  destruct (Z.leb_spec (fval t) (fval lum)) as [Hle|Hgt].
  - pose proof (lum_index_mono (fval t) (fval lum) ltac:(lia)).
    symmetry. apply Z.leb_le. lia.
  - assert (Hg : fval lum <= fval p).
    { rewrite Vp. apply (float_gap (Prim2SF lum) m e); try assumption.
      fold (fval lum). cbn [sc]. rewrite <- Vt. exact Hgt. }
    pose proof (lum_index_mono (fval lum) (fval p) ltac:(lia)).
    symmetry. apply Z.leb_gt. lia.
Qed.

Lemma step_1 : threshold_ok 28.333333333333332 0x1.c555555555554p+4 1 = true.
Proof. vm_compute. reflexivity. Qed.

Lemma step_2 : threshold_ok 56.666666666666664 0x1.c555555555554p+5 2 = true.
Proof. vm_compute. reflexivity. Qed.

Lemma step_3 : threshold_ok 85 0x1.53fffffffffffp+6 3 = true.
Proof. vm_compute. reflexivity. Qed.

Lemma step_4 : threshold_ok 113.33333333333333 0x1.c555555555554p+6 4 = true.
Proof. vm_compute. reflexivity. Qed.

Lemma step_5 : threshold_ok 141.66666666666669 0x1.1b55555555555p+7 5 = true.
Proof. vm_compute. reflexivity. Qed.

Lemma step_6 : threshold_ok 170 0x1.53fffffffffffp+7 6 = true.
Proof. vm_compute. reflexivity. Qed.

Lemma step_7 : threshold_ok 198.33333333333334 0x1.8caaaaaaaaaaap+7 7 = true.
Proof. vm_compute. reflexivity. Qed.

Lemma step_8 : threshold_ok 226.66666666666666 0x1.c555555555554p+7 8 = true.
Proof. vm_compute. reflexivity. Qed.

Lemma step_9 : threshold_ok 255 0x1.fdfffffffffffp+7 9 = true.
Proof. vm_compute. reflexivity. Qed.

Lemma lum_index_255 : lum_index (255 * one_u) = 9.
Proof. vm_compute. reflexivity. Qed.

(** X1: the glyph index of a luminance between 0 and 255 is the number of steps
    at or below it: index [k] is given from the [k]-th of the nine binary64
    numbers 28.333333333333332, 56.666666666666664, 85, 113.33333333333333,
    141.66666666666669, 170, 198.33333333333334, 226.66666666666666 and 255
    on, and to nothing below it. *)
Theorem glyph_index_buckets (lum : float) :
  (0 <=? lum)%float = true -> (lum <=? 255)%float = true ->
  glyph_index_of lum = Ok (bucket lum) /\ 0 <= bucket lum <= 9.
Proof.
  intros H0 H1. destruct float_lit_255 as [N255 V255].
  destruct (fnn_within lum 255 N255 H0 H1) as [Nl Hl]. rewrite V255 in Hl.
  pose proof (fval_nonneg lum) as L0.
  pose proof (lum_index_nonneg (fval lum) L0) as I0.
  pose proof (lum_index_mono (fval lum) (255 * one_u) ltac:(lia)) as I9.
  rewrite lum_index_255 in I9.
  rewrite (glyph_index_of_fnn lum Nl Hl).
  assert (E : bucket lum = lum_index (fval lum)).
  { unfold bucket, glyph_thresholds. cbn [filter].
    rewrite (threshold_test _ _ _ lum step_1 Nl Hl).
    rewrite (threshold_test _ _ _ lum step_2 Nl Hl).
    rewrite (threshold_test _ _ _ lum step_3 Nl Hl).
    rewrite (threshold_test _ _ _ lum step_4 Nl Hl).
    rewrite (threshold_test _ _ _ lum step_5 Nl Hl).
    rewrite (threshold_test _ _ _ lum step_6 Nl Hl).
    rewrite (threshold_test _ _ _ lum step_7 Nl Hl).
    rewrite (threshold_test _ _ _ lum step_8 Nl Hl).
    rewrite (threshold_test _ _ _ lum step_9 Nl Hl).
    remember (lum_index (fval lum)) as i eqn:Ei. clear Ei.
    assert (C : i = 0 \/ i = 1 \/ i = 2 \/ i = 3 \/ i = 4 \/ i = 5 \/ i = 6
                \/ i = 7 \/ i = 8 \/ i = 9) by lia.
    repeat (destruct C as [->|C]); try subst i; reflexivity. }
  rewrite E. split; [reflexivity|lia].
Qed.

Lemma glyph_index_buckets_witness :
  glyph_index_of 141.66666666666666%float
  = Ok (bucket 141.66666666666666%float)
  /\ 0 <= bucket 141.66666666666666%float <= 9.
Proof.
  apply (glyph_index_buckets 141.66666666666666); vm_compute; reflexivity.
Defined.

(** *** Brighter channels *)

Lemma channel_steps_red : forallb (channel_step_ok 0.2126) uint8_values = true.
Proof. vm_compute. reflexivity. Qed.

Lemma channel_steps_green : forallb (channel_step_ok 0.7152) uint8_values = true.
Proof. vm_compute. reflexivity. Qed.

Lemma channel_steps_blue : forallb (channel_step_ok 0.0722) uint8_values = true.
Proof. vm_compute. reflexivity. Qed.

Lemma channel_mono (w : float) (r r' : Z) :
  forallb (channel_step_ok w) uint8_values = true ->
  uint8 r -> uint8 r' -> r <= r' ->
  fval (w * Py.float_of_int r)%float <= fval (w * Py.float_of_int r')%float.
Proof.
  intros Ht Hr Hr' Hle.
  assert (G : forall n : nat,
             uint8 (r + Z.of_nat n) ->
             fval (w * Py.float_of_int r)%float
             <= fval (w * Py.float_of_int (r + Z.of_nat n))%float).
  { induction n as [|n IH]; intros Hn.
    - replace (r + Z.of_nat 0) with r by lia. lia.
    - assert (Hn' : uint8 (r + Z.of_nat n)) by (unfold uint8 in *; lia).
      specialize (IH Hn').
      pose proof (uint8_forallb _ Ht _ Hn') as Hs.
      unfold channel_step_ok in Hs. apply Z.leb_le in Hs.
      replace (r + Z.of_nat (S n)) with (r + Z.of_nat n + 1) by lia. lia. }
  specialize (G (Z.to_nat (r' - r))).
  replace (r + Z.of_nat (Z.to_nat (r' - r))) with r' in G by lia.
  apply G. exact Hr'.
Qed.

Lemma intensity_mono (p q : pixel) :
  pixel_ok p -> pixel_ok q ->
  fst (fst p) <= fst (fst q) -> snd (fst p) <= snd (fst q) ->
  snd p <= snd q ->
  fval (intensity p) <= fval (intensity q).
Proof.
  destruct p as [[r g] b], q as [[r' g'] b'].
  intros (Hr & Hg & Hb) (Hr' & Hg' & Hb'). cbn [fst snd] in *.
  intros Lr Lg Lb.
  destruct (channel_fact _ r channel_table_red Hr) as (Nr & _ & _).
  destruct (channel_fact _ g channel_table_green Hg) as (Ng & _ & _).
  destruct (channel_fact _ b channel_table_blue Hb) as (Nb & _ & _).
  destruct (channel_fact _ r' channel_table_red Hr') as (Nr' & Mr & Br).
  destruct (channel_fact _ g' channel_table_green Hg') as (Ng' & Mg & Bg).
  destruct (channel_fact _ b' channel_table_blue Hb') as (Nb' & Mb & Bb).
  pose proof (channel_mono _ r r' channel_steps_red Hr Hr' Lr) as Cr.
  pose proof (channel_mono _ g g' channel_steps_green Hg Hg' Lg) as Cg.
  pose proof (channel_mono _ b b' channel_steps_blue Hb Hb' Lb) as Cb.
  assert (E9 : 2 ^ 1083 = 512 * one_u).
  { unfold one_u. change 512 with (2 ^ 9).
    rewrite <- Z.pow_add_r by lia. reflexivity. }
  assert (E10 : 2 ^ 1084 = 1024 * one_u).
  { unfold one_u. change 1024 with (2 ^ 10).
    rewrite <- Z.pow_add_r by lia. reflexivity. }
  destruct (sum_bound _ _ _ _ 1083 Nr Ng Nr' Ng' Cr Cg ltac:(lia) ltac:(lia))
    as (Ns & Ns' & Ls & Bs).
  destruct (sum_bound _ _ _ _ 1084 Ns Nb Ns' Nb' Ls Cb ltac:(lia) ltac:(lia))
    as (_ & _ & Ll & _).
  unfold intensity. exact Ll.
Qed.

(** X2: raising channels of a pixel lowers neither its luminance nor its glyph
    index: the rounding of the weighted sum never reverses the order. *)
Theorem glyph_index_channel_monotone (r g b r' g' b' : Z) :
  uint8 r -> uint8 g -> uint8 b -> uint8 r' -> uint8 g' -> uint8 b' ->
  r <= r' -> g <= g' -> b <= b' ->
  PrimFloat.leb (intensity (r, g, b)) (intensity (r', g', b')) = true /\
  exists i j : Z,
    glyph_index (r, g, b) = Ok i /\ glyph_index (r', g', b') = Ok j /\
    i <= j.
Proof.
  intros Hr Hg Hb Hr' Hg' Hb' Lr Lg Lb.
  assert (Hp : pixel_ok (r, g, b)) by (unfold pixel_ok; cbn [fst snd]; auto).
  assert (Hq : pixel_ok (r', g', b')) by (unfold pixel_ok; cbn [fst snd]; auto).
  destruct (intensity_bound _ Hp) as [Np Bp].
  destruct (intensity_bound _ Hq) as [Nq Bq].
  pose proof intensity_white_below_255 as Hw.
  pose proof (intensity_mono _ _ Hp Hq Lr Lg Lb) as Hm.
  pose proof (fval_nonneg (intensity (r, g, b))) as P0.
  split.
  - rewrite leb_fnn by assumption. apply Z.leb_le. exact Hm.
  - exists (lum_index (fval (intensity (r, g, b)))),
           (lum_index (fval (intensity (r', g', b')))).
    split; [|split].
    + unfold glyph_index. apply glyph_index_of_fnn; [assumption|lia].
    + unfold glyph_index. apply glyph_index_of_fnn; [assumption|lia].
    + apply lum_index_mono. lia.
Qed.

Lemma glyph_index_channel_monotone_witness :
  PrimFloat.leb (intensity (10, 200, 30)) (intensity (10, 201, 30)) = true /\
  exists i j : Z,
    glyph_index (10, 200, 30) = Ok i /\ glyph_index (10, 201, 30) = Ok j /\
    i <= j.
Proof.
  apply (glyph_index_channel_monotone 10 200 30 10 201 30);
    unfold uint8; lia.
Defined.

(** *** Greys *)

Lemma grey_table : forallb grey_ok uint8_values = true.
Proof. vm_compute. reflexivity. Qed.

(** X3: a grey pixel of level [v] gets the index [floor (9 v / 255)], the index
    of the exact arithmetic, at every level but 255, where it gets 8 and not
    9. *)
Theorem grey_ramp_index (v : Z) :
  uint8 v ->
  glyph_index (v, v, v) = Ok (if v =? 255 then 8 else 9 * v / 255).
Proof.
  intros Hv. pose proof (uint8_forallb _ grey_table v Hv) as H.
  unfold grey_ok in H. fold (grey_index v).
  destruct (glyph_index (v, v, v)) as [i|]; [|discriminate H].
  apply Z.eqb_eq in H. rewrite H. reflexivity.
Qed.

Lemma grey_ramp_index_witness :
  glyph_index (128, 128, 128) = Ok (if 128 =? 255 then 8 else 9 * 128 / 255).
Proof. apply (grey_ramp_index 128). unfold uint8. lia. Defined.

End ClassifierSteps.

(** ** Further properties of the streaming loop *)

Section PumpRuns.

Lemma lookup_map_seq {A : Type} (f : nat -> A) (k : nat) :
  forall s i : nat, i < k -> map f (seq s k) !! i = Some (f (s + i)).
Proof.
  induction k as [|k IH]; intros s i Hi; [lia|].
  destruct i as [|i]; cbn [seq map].
  - rewrite Nat.add_0_r. reflexivity.
  - change ((f s :: map f (seq (S s) k)) !! S i)
      with (map f (seq (S s) k) !! i).
    rewrite IH by lia. f_equal. f_equal. lia.
Qed.

(** The decoded frame, pixel by pixel. *)
Lemma rows_of_eq (raw : list Byte.byte) (h w : nat) :
  List.length raw = h * w * 3 ->
  rows_of h w (frombuffer raw)
  = map (fun y => map (fun x => pixel_at raw w x y) (seq 0 w)) (seq 0 h).
Proof.
  intros Hlen. apply list_eq. intros y.
  destruct (lt_dec y h) as [Hy|Hy].
  - rewrite lookup_map_seq by exact Hy. cbn [plus].
    destruct (rows_of h w (frombuffer raw) !! y) as [row|] eqn:E.
    + f_equal. apply list_eq. intros x.
      destruct (rows_lookup_inv raw h w y row Hlen E) as (_ & Hw & Hp).
      destruct (lt_dec x w) as [Hx|Hx].
      * rewrite lookup_map_seq by exact Hx. cbn [plus].
        destruct (rows_of_pixel raw h w x y Hlen Hx Hy) as (row' & H1 & _ & H2).
        rewrite E in H1. injection H1 as <-. exact H2.
      * rewrite !(proj2 (lookup_ge_None _ _)); [reflexivity| |lia].
        rewrite length_map, length_seq. lia.
    + apply lookup_ge_None in E. rewrite rows_of_length in E. lia.
  - rewrite !(proj2 (lookup_ge_None _ _)); [reflexivity| |].
    + rewrite length_map, length_seq. lia.
    + rewrite rows_of_length. lia.
Qed.

Lemma render_row_calls (P : nat -> pixel) (y k : nat) :
  (forall x : nat, exists c, get_ascii_char_and_color (P x) = Ok c) ->
  forall (x0 : nat) (st : pump_state) (r : result unit) (st' : pump_state),
    render_row y x0 (map P (seq x0 k)) st = (r, st') ->
    trace st' = trace st ++ flat_map (fun x => pixel_calls x y (P x)) (seq x0 k).
Proof.
  intros Hc. induction k as [|k IH]; intros x0 st r st' H;
    cbn [seq map render_row flat_map] in *.
  - injection H as _ <-. rewrite app_nil_r. reflexivity.
  - unfold pixel_calls at 1.
    destruct (Hc x0) as [[c color] Hp]. rewrite Hp in *.
    apply IH in H. rewrite H.
    cbn [put_char set_color_ansi log trace].
    rewrite <- !app_assoc. reflexivity.
Qed.

Lemma render_rows_calls (P : nat -> nat -> pixel) (w k : nat) :
  (forall x y : nat, exists c, get_ascii_char_and_color (P x y) = Ok c) ->
  forall (y0 : nat) (st : pump_state) (r : result unit) (st' : pump_state),
    render_rows y0 (map (fun y => map (fun x => P x y) (seq 0 w)) (seq y0 k)) st
    = (r, st') ->
    r = Ok tt /\
    trace st' = trace st
      ++ flat_map (fun y => flat_map (fun x => pixel_calls x y (P x y)) (seq 0 w))
           (seq y0 k).
Proof.
  intros Hc. induction k as [|k IH]; intros y0 st r st' H;
    cbn [seq map render_rows flat_map] in *.
  - injection H as <- <-. rewrite app_nil_r. split; reflexivity.
  - destruct (render_row_ok (map (fun x => P x y0) (seq 0 w)) y0 0 st)
      as (st1 & Hr & _).
    { intros i p Hi.
      assert (Hlt : i < w).
      { apply lookup_lt_Some in Hi. rewrite length_map, length_seq in Hi.
        exact Hi. }
      rewrite lookup_map_seq in Hi by exact Hlt. injection Hi as <-.
      apply Hc. }
    rewrite Hr in H.
    pose proof (render_row_calls (fun x => P x y0) y0 w
                  (fun x => Hc x y0) 0 st _ _ Hr) as Ht1.
    apply IH in H. destruct H as [-> Ht]. split; [reflexivity|].
    rewrite Ht, Ht1, <- app_assoc. reflexivity.
Qed.

Lemma frame_calls_draws (raw : list Byte.byte) (cw ch : nat) :
  forallb is_draw (frame_calls raw cw ch) = true.
Proof.
  unfold frame_calls, row_calls.
  induction (seq 0 ch) as [|y ys IHy]; [reflexivity|].
  cbn [flat_map]. rewrite forallb_app, IHy, andb_true_r. clear IHy.
  induction (seq 0 cw) as [|x xs IHx]; [reflexivity|].
  cbn [flat_map]. rewrite forallb_app, IHx, andb_true_r.
  unfold pixel_calls.
  destruct (get_ascii_char_and_color (pixel_at raw cw x y)) as [[c color]|e];
    reflexivity.
Qed.

Lemma reads_app (tr1 tr2 : list event) :
  reads (tr1 ++ tr2) = reads tr1 ++ reads tr2.
Proof.
  induction tr1 as [|ev tr1 IH]; [reflexivity|].
  destruct ev; cbn [reads app]; rewrite IH; reflexivity.
Qed.

Lemma reads_draws (evs : list event) :
  forallb is_draw evs = true -> reads evs = [].
Proof.
  induction evs as [|ev evs IH]; [reflexivity|].
  cbn [forallb]. intros H. apply andb_true_iff in H. destruct H as [H1 H2].
  destruct ev; try discriminate H1; cbn [reads]; apply IH; exact H2.
Qed.

Lemma frame_calls_length (raw : list Byte.byte) (cw ch : nat) :
  List.length (frame_calls raw cw ch) = 2 * (cw * ch).
Proof.
  unfold frame_calls.
  assert (R : forall y : nat, List.length (row_calls raw cw y) = 2 * cw).
  { intros y. unfold row_calls.
    assert (G : forall xs : list nat,
               List.length
                 (flat_map (fun x => pixel_calls x y (pixel_at raw cw x y)) xs)
               = 2 * List.length xs).
    { induction xs as [|x xs IH]; [reflexivity|].
      cbn [flat_map List.length]. rewrite List.length_app, IH.
      unfold pixel_calls.
      destruct (classifiable _ (pixel_at_ok raw cw x y)) as [[c color] ->].
      cbn [List.length]. lia. }
    rewrite G, length_seq. reflexivity. }
  assert (G : forall ys : list nat,
             List.length (flat_map (row_calls raw cw) ys)
             = 2 * cw * List.length ys).
  { induction ys as [|y ys IH]; [cbn; lia|].
    cbn [flat_map List.length]. rewrite List.length_app, IH, R. lia. }
  rewrite G, length_seq. lia.
Qed.

(** One iteration over a full chunk, call by call. *)
Lemma pump_frame_step_calls (cw ch fuel : nat) (st : pump_state)
      (f rest : list Byte.byte) :
  0 < cw * ch * 3 -> List.length f = cw * ch * 3 ->
  source st = f ++ rest -> canvas_inv cw ch (cells st) ->
  exists st3 : pump_state,
    pump_loop (S fuel) cw ch st = pump_loop fuel cw ch st3 /\
    source st3 = rest /\
    is_frame_of cw ch (cells st3) f /\
    trace st3 = trace st ++ iteration_calls cw ch f (cells st3).
Proof.
  intros Hn Hlen Hsrc Hinv.
  assert (Hlen' : List.length f = ch * cw * 3) by lia.
  rewrite pump_loop_S. cbv zeta.
  rewrite Hsrc, (take_app_length' f rest _ (eq_sym Hlen)).
  destruct f as [|b f']; [cbn in Hlen; lia|].
  set (f := b :: f') in *.
  rewrite (decode_ok f ch cw Hlen').
  set (st1 := snd (read (cw * ch * 3) st)).
  destruct (render_rows_ok cw (rows_of ch cw (frombuffer f)) 0 st1)
    as (st2 & Hr & Ha & Hb).
  { intros j row k p Hj Hk.
    destruct (rows_lookup_inv f ch cw j row Hlen' Hj) as (_ & _ & Hp).
    destruct (Hp k p Hk) as [_ ->]. apply classifiable. apply pixel_at_ok. }
  { intros j row Hj.
    apply (rows_lookup_inv f ch cw j row Hlen' Hj). }
  rewrite Hr. exists (refresh st2).
  pose proof (render_rows_trace _ _ _ _ _ Hr) as [Hs _].
  assert (Hcalls : trace st2 = trace st1 ++ frame_calls f cw ch).
  { rewrite (rows_of_eq f ch cw Hlen') in Hr.
    apply (render_rows_calls (fun x y => pixel_at f cw x y) cw ch) in Hr.
    - exact (proj2 Hr).
    - intros x y. apply classifiable. apply pixel_at_ok. }
  split; [reflexivity|]. split; [|split].
  - cbn [refresh log source]. rewrite Hs. unfold st1.
    cbn [read snd log source]. rewrite Hsrc.
    apply drop_app_length'. exact (eq_sym Hlen).
  - cbn [refresh log cells]. intros x y.
    destruct ((x <? cw) && (y <? ch)) eqn:Hxy.
    + apply andb_true_iff in Hxy. destruct Hxy as [Hx Hy].
      apply Nat.ltb_lt in Hx, Hy.
      destruct (rows_of_pixel f ch cw x y Hlen' Hx Hy) as (row & H1 & _ & H2).
      destruct (Ha y row x _ H1 H2) as (c & Hc & Hl).
      exists c. split; [exact Hc|exact Hl].
    + rewrite Hb.
      * unfold st1. cbn [read snd log cells]. apply Hinv. exact Hxy.
      * rewrite rows_of_length. apply in_canvas_false in Hxy. lia.
  - cbn [refresh log trace cells]. rewrite Hcalls. unfold st1.
    cbn [read snd log trace]. rewrite Hsrc.
    rewrite (take_app_length' f rest _ (eq_sym Hlen)).
    unfold iteration_calls. rewrite <- !app_assoc. reflexivity.
Qed.

Lemma last_nonempty {A : Type} (l : list A) :
  forall a d d' : A, List.last (a :: l) d = List.last (a :: l) d'.
Proof.
  induction l as [|b l IH]; intros a d d'; [reflexivity|].
  change (List.last (b :: l) d = List.last (b :: l) d'). apply IH.
Qed.

Lemma pump_frames_calls (cw ch : nat) (frames : list (list Byte.byte)) :
  forall (fuel : nat) (st : pump_state) (rest : list Byte.byte),
    0 < cw * ch * 3 ->
    Forall (fun f => List.length f = cw * ch * 3) frames ->
    source st = List.concat frames ++ rest -> canvas_inv cw ch (cells st) ->
    exists (st' : pump_state) (grids : list grid),
      pump_loop (List.length frames + fuel) cw ch st
      = pump_loop fuel cw ch st' /\
      source st' = rest /\ canvas_inv cw ch (cells st') /\
      Forall2 (is_frame_of cw ch) grids frames /\
      trace st' = trace st ++ iterations_calls cw ch frames grids /\
      cells st' = List.last grids (cells st).
Proof.
  induction frames as [|f frames IH]; intros fuel st rest Hn Hall Hsrc Hinv.
  - exists st, []. cbn in Hsrc. cbn [iterations_calls List.last].
    rewrite app_nil_r. repeat split; try assumption. constructor.
  - inversion Hall as [|f0 frames0 Hf Hall']; subst f0 frames0.
    clear Hall. rename Hall' into Hall.
    cbn [List.concat] in Hsrc. rewrite <- app_assoc in Hsrc.
    destruct (pump_frame_step_calls cw ch (List.length frames + fuel) st f
                (List.concat frames ++ rest) Hn Hf Hsrc Hinv)
      as (st3 & Hstep & Hs3 & Hfr & Htr).
    destruct (IH fuel st3 rest Hn Hall Hs3 (is_frame_of_inv _ _ _ _ Hfr))
      as (st' & grids & Hloop & Hs' & Hinv' & Hgr & Htr' & Hc').
    exists st', (cells st3 :: grids).
    split; [cbn [List.length plus]; rewrite Hstep; exact Hloop|].
    split; [exact Hs'|]. split; [exact Hinv'|]. split; [|split].
    + constructor; assumption.
    + rewrite Htr', Htr. cbn [iterations_calls].
      rewrite <- !app_assoc. reflexivity.
    + rewrite Hc'. destruct grids as [|g grids]; [reflexivity|].
      change (List.last (cells st3 :: g :: grids) (cells st))
        with (List.last (g :: grids) (cells st)).
      apply last_nonempty.
Qed.

(** A byte string is a run of full chunks and a shorter rest. *)
Lemma split_frames (n : nat) :
  0 < n ->
  forall (k : nat) (src : list Byte.byte),
    List.length src <= k ->
    exists (frames : list (list Byte.byte)) (tail : list Byte.byte),
      src = List.concat frames ++ tail /\
      Forall (fun f => List.length f = n) frames /\
      List.length frames = List.length src / n /\
      List.length tail = List.length src mod n.
Proof.
  intros Hn. induction k as [|k IH]; intros src Hk.
  - destruct src; [|cbn in Hk; lia]. exists [], [].
    cbn [List.length]. rewrite Nat.Div0.div_0_l, Nat.Div0.mod_0_l.
    repeat split. constructor.
  - destruct (lt_dec (List.length src) n) as [Hs|Hs].
    + exists [], src. rewrite Nat.div_small, Nat.mod_small by exact Hs.
      repeat split. constructor.
    + destruct (IH (skipn n src)) as (frames & tail & E & Hall & Hf & Ht).
      { rewrite length_drop. lia. }
      rewrite length_drop in Hf, Ht.
      exists (firstn n src :: frames), tail.
      assert (Hl : List.length src = 1 * n + (List.length src - n)) by lia.
      split; [|split; [|split]].
      * cbn [List.concat]. rewrite <- app_assoc, <- E.
        symmetry. apply take_drop.
      * constructor; [|exact Hall]. rewrite length_take. lia.
      * cbn [List.length]. rewrite Hf. rewrite Hl at 2.
        rewrite Nat.div_add_l by lia. reflexivity.
      * rewrite Ht. rewrite Hl at 2.
        rewrite Nat.add_comm, Nat.Div0.mod_add. reflexivity.
Qed.

Lemma deliveries_iterations (cw ch : nat) (frames : list (list Byte.byte)) :
  forall grids : list grid,
    List.length grids = List.length frames ->
    deliveries (iterations_calls cw ch frames grids) = grids /\
    reads (iterations_calls cw ch frames grids) = frames.
Proof.
  induction frames as [|f frames IH]; intros [|g grids] Hlen;
    cbn [List.length] in Hlen; try discriminate Hlen; [split; reflexivity|].
  cbn [iterations_calls]. unfold iteration_calls.
  destruct (IH grids ltac:(lia)) as [Hd Hr].
  cbn [app deliveries reads].
  rewrite <- !app_assoc, !deliveries_app, !reads_app.
  rewrite (deliveries_draws _ (frame_calls_draws f cw ch)).
  rewrite (reads_draws _ (frame_calls_draws f cw ch)).
  cbn [app deliveries reads]. rewrite Hd, Hr. split; reflexivity.
Qed.

(** Every run over a canvas that has cells: the source is cut into full
    chunks and a shorter rest; each full chunk is read, drawn and shown; the
    rest is read last, and ends the run. *)
Lemma run_shape (src : list Byte.byte) (cw ch : nat) :
  0 < cw * ch * 3 ->
  exists (frames : list (list Byte.byte)) (tail : list Byte.byte)
         (grids : list grid) (st : pump_state),
    src = List.concat frames ++ tail /\
    Forall (fun f => List.length f = cw * ch * 3) frames /\
    List.length frames = List.length src / (cw * ch * 3) /\
    List.length tail = List.length src mod (cw * ch * 3) /\
    Forall2 (is_frame_of cw ch) grids frames /\
    run src cw ch
    = Some (match tail with [] => Drained | _ => Failed MalformedFrame end,
            st) /\
    trace st = iterations_calls cw ch frames grids
               ++ [EvRead (cw * ch * 3) tail] /\
    source st = [] /\ cells st = List.last grids ∅.
Proof.
  intros Hn.
  destruct (split_frames _ Hn _ src (le_n _))
    as (frames & tail & E & Hall & Hf & Ht).
  assert (Htl : List.length tail < cw * ch * 3).
  { rewrite Ht. apply Nat.mod_upper_bound. lia. }
  assert (Hlen : List.length frames <= List.length src).
  { rewrite Hf. apply Nat.Div0.div_le_upper_bound. nia. }
  destruct (pump_frames_calls cw ch frames
              (S (List.length src - List.length frames))
              (initial_state src) tail Hn Hall E (initial_canvas cw ch src))
    as (st' & grids & Hloop & Hs & _ & Hgr & Htr & Hc).
  cbn [initial_state trace cells app] in Htr, Hc.
  exists frames, tail, grids, (snd (read (cw * ch * 3) st')).
  split; [exact E|]. split; [exact Hall|]. split; [exact Hf|].
  split; [exact Ht|]. split; [exact Hgr|]. split; [|split; [|split]].
  - unfold run.
    replace (S (List.length src))
      with (List.length frames + S (List.length src - List.length frames))
      by lia.
    rewrite Hloop. destruct tail as [|b tail'].
    + apply pump_loop_eof. rewrite Hs. apply take_nil.
    + apply pump_loop_short; rewrite Hs; [discriminate|exact Htl].
  - cbn [read snd log trace]. rewrite Hs, take_ge by lia.
    rewrite Htr. reflexivity.
  - cbn [read snd log source]. rewrite Hs. apply drop_ge. lia.
  - cbn [read snd log cells]. exact Hc.
Qed.

(** X4: how a run ends is decided by the length of the source alone: over a
    canvas that has cells, a source of [q] full chunks and [r] more bytes
    makes the loop show [q] frames and then stop, in [Drained] when [r] is
    0 and in [Failed MalformedFrame] otherwise; no byte is left unread. *)
Theorem run_by_length (src : list Byte.byte) (cw ch : nat) :
  0 < cw * ch * 3 ->
  exists st : pump_state,
    run src cw ch
    = Some (if List.length src mod (cw * ch * 3) =? 0
            then Drained else Failed MalformedFrame, st) /\
    List.length (deliveries (trace st)) = List.length src / (cw * ch * 3) /\
    source st = [].
Proof.
  intros Hn.
  destruct (run_shape src cw ch Hn)
    as (frames & tail & grids & st & _ & _ & Hf & Ht & Hgr & Hrun & Htr
        & Hs & _).
  exists st. split; [|split; [|exact Hs]].
  - rewrite Hrun, <- Ht. destruct tail; reflexivity.
  - pose proof (Forall2_length Hgr) as Hl.
    rewrite Htr, deliveries_app.
    rewrite (proj1 (deliveries_iterations cw ch frames grids Hl)).
    cbn [deliveries]. rewrite app_nil_r. lia.
Qed.

Lemma run_by_length_witness :
  exists st : pump_state,
    run [Byte.x01; Byte.x02; Byte.x03; Byte.x04; Byte.x05; Byte.x06;
         Byte.x07] 1 1
    = Some (if 7 mod (1 * 1 * 3) =? 0 then Drained else Failed MalformedFrame,
            st) /\
    List.length (deliveries (trace st)) = 7 / (1 * 1 * 3) /\
    source st = [].
Proof.
  apply (run_by_length
           [Byte.x01; Byte.x02; Byte.x03; Byte.x04; Byte.x05; Byte.x06;
            Byte.x07] 1 1).
  cbn. lia.
Defined.

Lemma run_empty_canvas (src : list Byte.byte) (cw ch : nat) :
  cw * ch * 3 = 0 ->
  run src cw ch
  = Some (Drained, MkState src ∅ 0%Z [EvRead 0 []]).
Proof.
  intros Hn. unfold run. rewrite pump_loop_eof by (rewrite Hn; reflexivity).
  rewrite Hn. reflexivity.
Qed.





(** X5: the calls of a run, in order, whatever the canvas: for each full
    chunk read one read that returns it, then for every cell of the canvas,
    row by row and column by column, the colour of its pixel set and its
    character put, then one refresh with the frame of the chunk; after the
    last full chunk one read, and nothing more. Over a canvas that has
    cells the source is cut into its full chunks and the last read returns
    what is left of it, less than a frame; over a canvas with no cell no
    chunk is read, the only read returns nothing and the source stays
    unread. *)
Theorem run_calls_in_order (src : list Byte.byte) (cw ch : nat) :
  exists (frames : list (list Byte.byte)) (tail : list Byte.byte)
         (grids : list grid) (out : outcome) (st : pump_state),
    run src cw ch = Some (out, st) /\
    src = List.concat frames ++ tail ++ source st /\
    Forall (fun f => List.length f = cw * ch * 3) frames /\
    (0 < cw * ch * 3 ->
     List.length tail < cw * ch * 3 /\ source st = []) /\
    (cw * ch * 3 = 0 -> frames = [] /\ tail = [] /\ source st = src) /\
    Forall2 (is_frame_of cw ch) grids frames /\
    trace st = iterations_calls cw ch frames grids
               ++ [EvRead (cw * ch * 3) tail] /\
    Forall (fun f => List.length (frame_calls f cw ch) = 2 * (cw * ch)) frames.
Proof.
  destruct (Nat.eq_dec (cw * ch * 3) 0) as [Hz|Hz].
  - exists [], [], []. eexists _, _.
    split; [apply (run_empty_canvas src cw ch Hz)|].
    cbn [List.concat app source trace iterations_calls]. rewrite Hz.
    split; [reflexivity|]. split; [constructor|].
    split; [intros H; lia|]. split; [auto|]. split; [constructor|].
    split; [reflexivity|constructor].
  - destruct (run_shape src cw ch ltac:(lia))
      as (frames & tail & grids & st & E & Hall & _ & Ht & Hgr & Hrun & Htr
          & Hs & _).
    exists frames, tail, grids. eexists _, st.
    split; [exact Hrun|]. rewrite Hs, app_nil_r.
    split; [exact E|]. split; [exact Hall|]. split.
    { intros _. split; [|reflexivity].
      rewrite Ht. apply Nat.mod_upper_bound. lia. }
    split; [intros H; contradiction|]. split; [exact Hgr|].
    split; [exact Htr|].
    apply Forall_forall. intros f _. apply frame_calls_length.
Qed.

Lemma iterations_read_sizes (cw ch : nat) (frames : list (list Byte.byte)) :
  Forall (fun f => List.length f = cw * ch * 3) frames ->
  forall (grids : list grid) (n : nat) (data : list Byte.byte),
    In (EvRead n data) (iterations_calls cw ch frames grids) ->
    n = cw * ch * 3 /\ List.length data <= n.
Proof.
  induction 1 as [|f frames Hf Hall IH]; intros grids n data Hin.
  - destruct grids; contradiction.
  - destruct grids as [|g grids]; [contradiction|].
    cbn [iterations_calls] in Hin. unfold iteration_calls in Hin.
    cbn [app] in Hin. destruct Hin as [Hin|Hin].
    + injection Hin as <- <-. lia.
    + rewrite <- app_assoc in Hin.
      apply in_app_or in Hin. destruct Hin as [Hin|Hin].
      * exfalso. pose proof (frame_calls_draws f cw ch) as Hd.
        rewrite forallb_forall in Hd. apply Hd in Hin. discriminate Hin.
      * cbn [app] in Hin. destruct Hin as [Hin|Hin]; [discriminate Hin|].
        apply (IH grids). exact Hin.
Qed.

(** Every read of a run asks for one frame of bytes. *)
Lemma run_read_sizes (src : list Byte.byte) (cw ch : nat)
      (out : outcome) (st : pump_state) :
  run src cw ch = Some (out, st) ->
  forall (n : nat) (data : list Byte.byte),
    In (EvRead n data) (trace st) ->
    n = cw * ch * 3 /\ List.length data <= n.
Proof.
  intros Hrun n data Hin.
  destruct (Nat.eq_dec (cw * ch * 3) 0) as [Hz|Hz].
  - rewrite (run_empty_canvas src cw ch Hz) in Hrun.
    injection Hrun as <- <-. cbn [trace] in Hin.
    destruct Hin as [H|[]]. injection H as <- <-. cbn. lia.
  - destruct (run_shape src cw ch ltac:(lia))
      as (frames & tail & grids & st' & _ & Hall & _ & Ht & _ & Hrun' & Htr
          & _).
    rewrite Hrun in Hrun'. injection Hrun' as _ <-.
    assert (Htl : List.length tail < cw * ch * 3).
    { rewrite Ht. apply Nat.mod_upper_bound. lia. }
    rewrite Htr in Hin. apply in_app_or in Hin.
    destruct Hin as [Hin|[Hin|[]]].
    + apply (iterations_read_sizes cw ch frames Hall grids). exact Hin.
    + injection Hin as <- <-. lia.
Qed.

(** X6: the bytes of the source are consumed in order, none lost and none read
    twice: in every run the chunks the reads returned, put end to end and
    followed by what was left unread, are the source; every read asks for
    one frame of bytes. *)
Theorem reads_reassemble_source (src : list Byte.byte) (cw ch : nat) :
  exists (out : outcome) (st : pump_state),
    run src cw ch = Some (out, st) /\
    List.concat (reads (trace st)) ++ source st = src /\
    forall (n : nat) (data : list Byte.byte),
      In (EvRead n data) (trace st) ->
      n = cw * ch * 3 /\ List.length data <= n.
Proof.
  destruct (Nat.eq_dec (cw * ch * 3) 0) as [Hz|Hz].
  - eexists _, _. split; [apply run_empty_canvas; exact Hz|].
    cbn [trace reads source List.concat app].
    split; [reflexivity|].
    intros n data [H|[]]. injection H as <- <-. cbn. lia.
  - destruct (run_shape src cw ch ltac:(lia))
      as (frames & tail & grids & st & E & Hall & _ & Ht & Hgr & Hrun & Htr
          & Hs & _).
    pose proof (Forall2_length Hgr) as Hl.
    eexists _, st. split; [exact Hrun|]. split.
    + rewrite Htr, reads_app.
      rewrite (proj2 (deliveries_iterations cw ch frames grids Hl)).
      cbn [reads]. rewrite Hs, app_nil_r, concat_app.
      cbn [List.concat]. rewrite app_nil_r. symmetry. exact E.
    + apply (run_read_sizes src cw ch _ st Hrun).
Qed.


End PumpRuns.

(** ** The script around the loop *)

Section Script.

Lemma started_app (l1 l2 : list sys_call) :
  started (l1 ++ l2) = started l1 ++ started l2.
Proof.
  induction l1 as [|c l1 IH]; [reflexivity|].
  destruct c; cbn [started app]; rewrite IH; reflexivity.
Qed.

Lemma terminated_app (l1 l2 : list sys_call) :
  terminated (l1 ++ l2) = terminated l1 ++ terminated l2.
Proof.
  induction l1 as [|c l1 IH]; [reflexivity|].
  destruct c; cbn [terminated app]; rewrite IH; reflexivity.
Qed.

Lemma pumped_app (l1 l2 : list sys_call) :
  pumped (l1 ++ l2) = pumped l1 ++ pumped l2.
Proof.
  induction l1 as [|c l1 IH]; [reflexivity|].
  destruct c; cbn [pumped app]; rewrite IH; reflexivity.
Qed.

Lemma started_take_pump (evs : list event) (j : nat) :
  started (firstn j (map Pump evs)) = [].
Proof. revert j. induction evs as [|ev evs IH]; intros [|j]; cbn; auto. Qed.

Lemma terminated_take_pump (evs : list event) (j : nat) :
  terminated (firstn j (map Pump evs)) = [].
Proof. revert j. induction evs as [|ev evs IH]; intros [|j]; cbn; auto. Qed.

Lemma started_map_pump (evs : list event) : started (map Pump evs) = [].
Proof. induction evs as [|ev evs IH]; cbn; auto. Qed.

Lemma terminated_map_pump (evs : list event) : terminated (map Pump evs) = [].
Proof. induction evs as [|ev evs IH]; cbn; auto. Qed.

Lemma pumped_pump (evs : list event) : pumped (map Pump evs) = evs.
Proof.
  induction evs as [|ev evs IH]; [reflexivity|].
  cbn [map pumped]. rewrite IH. reflexivity.
Qed.

Ltac unfold_script :=
  cbv beta iota zeta delta
      [render cleanup popen terminate call checkpoint
       emit bind ret throw try_finally try_except new_canvas new_display
       floordiv bind_local is_bound pump is_KeyboardInterrupt existsb
       proc_eqb orb calls clock modules bound fst snd].

Ltac branch :=
  match goal with
  | |- context [interrupt ?h ?k] => destruct (interrupt h k) eqn:?
  | |- context [spawns ?h ?a] => destruct (spawns h a) eqn:?
  | |- context [canvas_opens ?h ?a ?b] => destruct (canvas_opens h a b) eqn:?
  | |- context [display_opens ?h] => destruct (display_opens h) eqn:?
  | |- context [Nat.eqb ?a 0] => destruct (Nat.eqb a 0) eqn:?
  | |- context [run ?s ?a ?b] => destruct (run s a b) as [[[|?] ?]|] eqn:?
  | |- context [first_interrupt ?h ?a ?b] =>
      destruct (first_interrupt h a b) eqn:?
  end; cbv beta iota.

Ltac give_calls :=
  first [exists []; split; [rewrite app_nil_r; reflexivity|]
        |eexists; split;
         [repeat rewrite <- app_assoc; cbn [app]; reflexivity|]];
  cbn [started terminated app];
  rewrite ?started_app, ?terminated_app;
  rewrite ?started_take_pump, ?terminated_take_pump, ?started_map_pump,
    ?terminated_map_pump;
  cbn [started terminated app].

Lemma run_xorg_app_in_xephyr_parts (h : host) (command : string)
      (width height scale_factor : nat) (m : machine) :
  run_xorg_app_in_xephyr h command width height scale_factor m
  = match start_server h width height
            (MkMachine (calls m) (clock m) (modules m) []) with
    | (Done _, m1) =>
        match guarded h command width height scale_factor m1 with
        | (r, m2) =>
            match cleanup h m2 with
            | (Done _, m3) => (r, m3)
            | (Throw e, m3) => (Throw e, m3)
            end
        end
    | (Throw e, m1) => (Throw e, m1)
    end.
Proof.
  unfold run_xorg_app_in_xephyr, start_server, guarded.
  cbv beta iota delta [bind try_finally].
  destruct (call h (SetEnv "DISPLAY" ":1") _) as [[[]|e] m1]; [|reflexivity].
  destruct (popen h Xephyr _ m1) as [[[]|e] m2]; [|reflexivity].
  destruct (call h (Sleep 2) m2) as [[[]|e] m3]; reflexivity.
Qed.

Lemma start_server_effect (h : host) (width height : nat) (m : machine) :
  bound m = [] ->
  exists cs : list sys_call,
    calls (snd (start_server h width height m)) = calls m ++ cs /\
    terminated cs = [] /\
    ((started cs = [] /\ bound (snd (start_server h width height m)) = []) \/
     (started cs = [Xephyr] /\
      (bound (snd (start_server h width height m)) = [] \/
       bound (snd (start_server h width height m)) = [Xephyr]))) /\
    (fst (start_server h width height m) = Done tt ->
     started cs = [Xephyr] /\
     bound (snd (start_server h width height m)) = [Xephyr]).
Proof.
  destruct m as [cs0 t mods bnd]. cbn [bound]. intros ->.
  unfold start_server. unfold_script.
  repeat branch; give_calls;
    (split; [reflexivity|]); (split; [auto|]);
    try (intros Hd; discriminate Hd); auto.
Qed.

Lemma guarded_effect (h : host) (command : string)
      (width height scale_factor : nat) (m : machine) :
  bound m = [Xephyr] ->
  exists cs : list sys_call,
    calls (snd (guarded h command width height scale_factor m))
    = calls m ++ cs /\
    terminated cs = [] /\
    ((started cs = [] /\
      bound (snd (guarded h command width height scale_factor m)) = [Xephyr])
     \/ (started cs = [App] /\
         (bound (snd (guarded h command width height scale_factor m))
          = [Xephyr] \/
          bound (snd (guarded h command width height scale_factor m))
          = [App; Xephyr]))
     \/ (started cs = [App; Ffmpeg] /\
         (bound (snd (guarded h command width height scale_factor m))
          = [App; Xephyr] \/
          bound (snd (guarded h command width height scale_factor m))
          = [Ffmpeg; App; Xephyr]))).
Proof.
  destruct m as [cs0 t mods bnd]. cbn [bound]. intros ->.
  unfold guarded. unfold_script.
  repeat branch; give_calls; (split; [reflexivity|]); auto 6.
Qed.

Lemma cleanup_effect (h : host) (m : machine) :
  exists cs : list sys_call,
    calls (snd (cleanup h m)) = calls m ++ cs /\
    started cs = [] /\
    terminated cs `prefix_of` [Xephyr; App; Ffmpeg] /\
    (forall p : proc, In p (terminated cs) -> is_bound p m = true) /\
    (fst (cleanup h m) = Done tt -> terminated cs = [Xephyr; App; Ffmpeg]).
Proof.
  destruct m as [cs0 t mods bnd].
  cbv beta iota zeta delta
      [cleanup terminate checkpoint emit bind ret throw is_bound
       calls clock modules bound fst snd].
  repeat match goal with
         | |- context [interrupt ?h ?k] =>
             destruct (interrupt h k) eqn:?; cbv beta iota
         | |- context [existsb ?f ?l] =>
             destruct (existsb f l) eqn:?; cbv beta iota
         end;
    give_calls;
    (split; [reflexivity|]);
    (split; [eexists; reflexivity|]);
    (split; [intros p Hp; cbn [In] in Hp;
             repeat (destruct Hp as [<-|Hp]; [assumption|]); contradiction|]);
    try (intros Hd; discriminate Hd); auto.
Qed.

(** X8: however the function is left, it has terminated no process that it did
    not start, and it returns normally only when it has started the three
    processes and terminated the three. *)
Theorem terminates_what_was_started (h : host) (command : string)
        (width height scale_factor : nat) (m : machine) :
  exists cs : list sys_call,
    calls (snd (run_xorg_app_in_xephyr h command width height scale_factor m))
    = calls m ++ cs /\
    terminated cs `prefix_of` started cs /\
    started cs `prefix_of` [Xephyr; App; Ffmpeg] /\
    (fst (run_xorg_app_in_xephyr h command width height scale_factor m)
     = Done tt ->
     started cs = [Xephyr; App; Ffmpeg] /\
     terminated cs = [Xephyr; App; Ffmpeg]).
Proof.
  rewrite run_xorg_app_in_xephyr_parts.
  set (m0 := MkMachine (calls m) (clock m) (modules m) []).
  destruct (start_server_effect h width height m0 eq_refl)
    as (cs1 & E1 & T1 & S1 & D1).
  destruct (start_server h width height m0) as [[[]|e1] m1];
    cbn [fst snd] in *.
  - destruct (D1 eq_refl) as [St1 B1]. clear D1 S1.
    destruct (guarded_effect h command width height scale_factor m1 B1)
      as (cs2 & E2 & T2 & S2).
    destruct (guarded h command width height scale_factor m1) as [r2 m2];
      cbn [fst snd] in *.
    destruct (cleanup_effect h m2) as (cs3 & E3 & S3 & P3 & B3 & D3).
    exists (cs1 ++ cs2 ++ cs3).
    assert (Ecalls : calls (snd (cleanup h m2)) = calls m ++ cs1 ++ cs2 ++ cs3).
    { rewrite E3, E2, E1. unfold m0. cbn [calls].
      rewrite <- !app_assoc. reflexivity. }
    assert (Est : started (cs1 ++ cs2 ++ cs3) = Xephyr :: started cs2).
    { rewrite !started_app, St1, S3, app_nil_r. reflexivity. }
    assert (Ete : terminated (cs1 ++ cs2 ++ cs3) = terminated cs3).
    { rewrite !terminated_app, T1, T2. reflexivity. }
    assert (Hpre : terminated cs3 `prefix_of` Xephyr :: started cs2 /\
                   Xephyr :: started cs2 `prefix_of` [Xephyr; App; Ffmpeg] /\
                   (terminated cs3 = [Xephyr; App; Ffmpeg] ->
                    started cs2 = [App; Ffmpeg])).
    { unfold is_bound in B3.
      destruct P3 as [k Hk].
      destruct (terminated cs3) as [|p1 [|p2 [|p3 [|p4 l]]]];
        cbn [app] in Hk; try discriminate Hk; simplify_eq;
        destruct S2 as [[-> Hb]|[[-> [Hb|Hb]]|[-> [Hb|Hb]]]];
        rewrite Hb in B3;
        repeat match goal with
               | H : forall p : proc, In p (?a :: ?l) -> _ |- _ =>
                   pose proof (H a (or_introl eq_refl));
                   assert (forall p : proc, In p l -> existsb (proc_eqb p) _ = true)
                     by (intros q Hq; apply H; right; exact Hq);
                   clear H
               end;
        try match goal with
            | H : existsb _ _ = true |- _ => discriminate H
            end;
        (split; [eexists; reflexivity|]);
        (split; [eexists; reflexivity|]);
        intros Hd; first [discriminate Hd|reflexivity]. }
    destruct (cleanup h m2) as [[[]|e3] m3]; cbn [fst snd] in *;
      (split; [exact Ecalls|]); rewrite Est, Ete;
      (split; [exact (proj1 Hpre)|]);
      (split; [exact (proj1 (proj2 Hpre))|]).
    + intros _. rewrite (proj2 (proj2 Hpre) (D3 eq_refl)), (D3 eq_refl).
      split; reflexivity.
    + intros Hd. discriminate Hd.
  - exists cs1. split; [exact E1|]. rewrite T1.
    split; [apply prefix_nil|]. split.
    + destruct S1 as [[-> _]|[-> _]]; eexists; reflexivity.
    + intros Hd. discriminate Hd.
Qed.


(** *** Runs that nobody interrupts *)

Lemma first_interrupt_none (h : host) (t n : nat) :
  (forall j : nat, j <= n -> interrupt h (t + j) = false) ->
  first_interrupt h t n = None.
Proof.
  unfold first_interrupt. intros H.
  assert (G : forall l : list nat,
             (forall j, In j l -> j <= n) ->
             List.find (fun j => interrupt h (t + j)) l = None).
  { induction l as [|j l IH]; intros Hl; [reflexivity|].
    cbn [List.find]. rewrite H by (apply Hl; left; reflexivity).
    apply IH. intros i Hi. apply Hl. right. exact Hi. }
  apply G. intros j Hj. apply in_seq in Hj. lia.
Qed.

Lemma first_interrupt_quiet (h : host) (t n : nat) :
  quiet h -> first_interrupt h t n = None.
Proof. intros Hq. apply first_interrupt_none. intros j _. apply Hq. Qed.

Lemma first_interrupt_at (h : host) (t n j : nat) :
  j <= n -> (forall i : nat, i < j -> interrupt h (t + i) = false) ->
  interrupt h (t + j) = true ->
  first_interrupt h t n = Some j.
Proof.
  unfold first_interrupt. intros Hj Hlow Hat.
  assert (G : forall (k s : nat),
             s <= j < s + k ->
             List.find (fun i => interrupt h (t + i)) (seq s k) = Some j).
  { induction k as [|k IH]; intros s Hs; [lia|].
    cbn [seq List.find].
    destruct (Nat.eq_dec s j) as [->|Hne]; [rewrite Hat; reflexivity|].
    rewrite Hlow by lia. apply IH. lia. }
  apply G. lia.
Qed.

Lemma scale_not_zero (k scale_factor : nat) :
  0 < k -> Nat.eqb scale_factor 0 = false ->
  Nat.eqb (k * scale_factor) 0 = false.
Proof.
  intros Hk H. apply Nat.eqb_neq in H. apply Nat.eqb_neq. nia.
Qed.

Lemma setup_ok_true (h : host) (command : string)
      (width height scale_factor : nat) :
  setup_ok h command width height scale_factor = true ->
  spawns h (shell_cmd command) = true /\
  Nat.eqb (8 * scale_factor) 0 = false /\
  Nat.eqb (16 * scale_factor) 0 = false /\
  canvas_opens h (width / (8 * scale_factor)) (height / (16 * scale_factor))
  = true /\
  display_opens h = true /\
  spawns h (ffmpeg_cmd (width / (8 * scale_factor))
              (height / (16 * scale_factor))) = true.
Proof.
  unfold setup_ok. cbv zeta. rewrite !andb_true_iff, negb_true_iff.
  intros ((((H1 & H2) & H3) & H4) & H5).
  repeat split; try assumption; apply scale_not_zero; (lia || assumption).
Qed.

(** A run that nothing stops before the loop and nobody interrupts: the
    setup, the calls of the loop, the cleanup. *)
Lemma quiet_run (h : host) (command : string)
      (width height scale_factor : nat) (m : machine)
      (out : outcome) (st : pump_state) :
  quiet h -> spawns h (xephyr_cmd width height) = true ->
  setup_ok h command width height scale_factor = true ->
  run (capture h) (width / (8 * scale_factor)) (height / (16 * scale_factor))
  = Some (out, st) ->
  fst (run_xorg_app_in_xephyr h command width height scale_factor m)
  = match out with Drained => Done tt | Failed e => Throw (Exn e) end /\
  calls (snd (run_xorg_app_in_xephyr h command width height scale_factor m))
  = calls m ++ setup_calls command width height scale_factor
    ++ map Pump (trace st) ++ [Terminate Xephyr; Terminate App; Terminate Ffmpeg].
Proof.
  intros Hq Hx Hok Hrun.
  destruct (setup_ok_true _ _ _ _ _ Hok) as (H1 & H2 & H3 & H4 & H5 & H6).
  destruct m as [cs0 t mods bnd].
  unfold run_xorg_app_in_xephyr, setup_calls. unfold_script.
  destruct out as [|e];
    repeat (first [rewrite Hq | rewrite Hx | rewrite H1 | rewrite H2
                  | rewrite H3 | rewrite H4 | rewrite H5 | rewrite H6
                  | rewrite Hrun | rewrite (first_interrupt_quiet h _ _ Hq)];
            cbv beta iota);
    cbn [fst snd calls];
    (split; [reflexivity|]); rewrite <- !app_assoc; reflexivity.
Qed.


Ltac sim_step :=
  match goal with
  | H : quiet ?h |- context [interrupt ?h ?k] => rewrite (H k)
  | H : quiet ?h |- context [first_interrupt ?h ?a ?b] =>
      rewrite (first_interrupt_quiet h a b H)
  | H : forall k, k <> _ -> interrupt ?h k = false
    |- context [interrupt ?h ?k] => rewrite (H k) by lia
  | H : interrupt ?h ?k = _ |- context [interrupt ?h ?k] => rewrite H
  | H : spawns ?h ?a = _ |- context [spawns ?h ?a] => rewrite H
  | H : canvas_opens ?h ?a ?b = _ |- context [canvas_opens ?h ?a ?b] =>
      rewrite H
  | H : display_opens ?h = _ |- context [display_opens ?h] => rewrite H
  | H : Nat.eqb ?a 0 = _ |- context [Nat.eqb ?a 0] => rewrite H
  | H : run ?s ?a ?b = _ |- context [run ?s ?a ?b] => rewrite H
  | H : first_interrupt ?h ?a ?b = _
    |- context [first_interrupt ?h ?a ?b] => rewrite H
  end; cbv beta iota.

(** X9: with no interrupt, with everything started and over a canvas that
    has cells, the function makes the calls of the setup, then the calls of
    the run of the loop over what ffmpeg writes, then the calls of the
    cleanup, and how it ends is decided by the number of bytes ffmpeg
    wrote: it returns when they are a whole number of frames, and raises
    the [ValueError] of the reshape otherwise, in both cases after the
    cleanup; it has shown as many frames as ffmpeg wrote in full. *)
Theorem uninterrupted_run (h : host) (command : string)
        (width height scale_factor : nat) (m : machine) :
  quiet h -> spawns h (xephyr_cmd width height) = true ->
  setup_ok h command width height scale_factor = true ->
  0 < width / (8 * scale_factor) * (height / (16 * scale_factor)) * 3 ->
  exists st : pump_state,
    run (capture h) (width / (8 * scale_factor))
      (height / (16 * scale_factor))
    = Some (if List.length (capture h)
                 mod (width / (8 * scale_factor)
                      * (height / (16 * scale_factor)) * 3) =? 0
            then Drained else Failed MalformedFrame, st) /\
    fst (run_xorg_app_in_xephyr h command width height scale_factor m)
    = (if List.length (capture h)
            mod (width / (8 * scale_factor) * (height / (16 * scale_factor))
                 * 3) =? 0
       then Done tt else Throw (Exn MalformedFrame)) /\
    calls (snd (run_xorg_app_in_xephyr h command width height scale_factor m))
    = calls m ++ setup_calls command width height scale_factor
      ++ map Pump (trace st)
      ++ [Terminate Xephyr; Terminate App; Terminate Ffmpeg] /\
    List.length (deliveries (trace st))
    = List.length (capture h)
      / (width / (8 * scale_factor) * (height / (16 * scale_factor)) * 3).
Proof.
  intros Hq Hx Hok Hn.
  destruct (run_shape (capture h) _ _ Hn)
    as (frames & tail & grids & st & _ & _ & Hf & Ht & Hgr & Hrun & Htr & _).
  destruct (quiet_run h command width height scale_factor m _ st Hq Hx Hok Hrun)
    as [Hr Hc].
  exists st. split; [|split; [|split; [exact Hc|]]].
  - rewrite Hrun, <- Ht. destruct tail; reflexivity.
  - rewrite Hr, <- Ht. destruct tail; reflexivity.
  - pose proof (Forall2_length Hgr) as Hl.
    rewrite Htr, deliveries_app.
    rewrite (proj1 (deliveries_iterations _ _ frames grids Hl)).
    cbn [deliveries]. rewrite app_nil_r. lia.
Qed.

Lemma uninterrupted_run_witness :
  exists st : pump_state,
    run (capture (plain_host [Byte.x01; Byte.x02; Byte.x03; Byte.x04]))
      (8 / (8 * 1)) (16 / (16 * 1))
    = Some (if 4 mod (8 / (8 * 1) * (16 / (16 * 1)) * 3) =? 0
            then Drained else Failed MalformedFrame, st) /\
    fst (run_xorg_app_in_xephyr
           (plain_host [Byte.x01; Byte.x02; Byte.x03; Byte.x04])
           "xclock" 8 16 1 (MkMachine [] 0 [] []))
    = (if 4 mod (8 / (8 * 1) * (16 / (16 * 1)) * 3) =? 0
       then Done tt else Throw (Exn MalformedFrame)) /\
    calls (snd (run_xorg_app_in_xephyr
                  (plain_host [Byte.x01; Byte.x02; Byte.x03; Byte.x04])
                  "xclock" 8 16 1 (MkMachine [] 0 [] [])))
    = [] ++ setup_calls "xclock" 8 16 1 ++ map Pump (trace st)
      ++ [Terminate Xephyr; Terminate App; Terminate Ffmpeg] /\
    List.length (deliveries (trace st)) = 4 / (8 / (8 * 1) * (16 / (16 * 1)) * 3).
Proof.
  apply (uninterrupted_run
           (plain_host [Byte.x01; Byte.x02; Byte.x03; Byte.x04])
           "xclock" 8 16 1 (MkMachine [] 0 [] []));
    [intros k; reflexivity|reflexivity|reflexivity|cbn; lia].
Defined.

(** X10: with no interrupt and the display server started, when something
    between the start of the server and the start of ffmpeg fails (the
    shell or ffmpeg cannot be started, the scale factor is zero, libcaca
    refuses the canvas or the display), what the function raises is the
    [UnboundLocalError] of its cleanup, never the error itself; the loop is
    not entered, and the processes that were started have been
    terminated. *)
Theorem setup_failure_raises_unbound_local (h : host) (command : string)
        (width height scale_factor : nat) (m : machine) :
  quiet h -> spawns h (xephyr_cmd width height) = true ->
  setup_ok h command width height scale_factor = false ->
  exists cs : list sys_call,
    calls (snd (run_xorg_app_in_xephyr h command width height scale_factor m))
    = calls m ++ cs /\
    fst (run_xorg_app_in_xephyr h command width height scale_factor m)
    = Throw (UnboundLocalError
               (if spawns h (shell_cmd command)
                then "ffmpeg" else "app_process")) /\
    started cs = (if spawns h (shell_cmd command)
                  then [Xephyr; App] else [Xephyr]) /\
    terminated cs = started cs /\ pumped cs = [].
Proof.
  intros Hq Hx Hok. destruct m as [cs0 t mods bnd].
  unfold setup_ok in Hok. cbv zeta in Hok.
  unfold run_xorg_app_in_xephyr. unfold_script.
  destruct (spawns h (shell_cmd command)) eqn:H1;
    [destruct (Nat.eqb scale_factor 0) eqn:H2;
     [apply Nat.eqb_eq in H2; subst scale_factor;
      change (8 * 0) with 0; change (Nat.eqb 0 0) with true
     |pose proof (scale_not_zero 8 _ ltac:(lia) H2) as E8;
      pose proof (scale_not_zero 16 _ ltac:(lia) H2) as E16;
      destruct (canvas_opens h (width / (8 * scale_factor))
                  (height / (16 * scale_factor))) eqn:H3;
      [destruct (display_opens h) eqn:H4;
       [destruct (spawns h (ffmpeg_cmd (width / (8 * scale_factor))
                              (height / (16 * scale_factor)))) eqn:H5;
        [discriminate Hok|]|]|]]|];
    repeat sim_step;
    (eexists; split;
     [cbn [snd calls]; repeat rewrite <- app_assoc; cbn [app]; reflexivity|]);
    cbn [fst started terminated pumped]; repeat split; reflexivity.
Qed.

Lemma setup_failure_raises_unbound_local_witness :
  exists cs : list sys_call,
    calls (snd (run_xorg_app_in_xephyr (plain_host []) "xclock" 800 600 0
                  (MkMachine [] 0 [] [])))
    = [] ++ cs /\
    fst (run_xorg_app_in_xephyr (plain_host []) "xclock" 800 600 0
           (MkMachine [] 0 [] []))
    = Throw (UnboundLocalError
               (if spawns (plain_host []) (shell_cmd "xclock")
                then "ffmpeg" else "app_process")) /\
    started cs = (if spawns (plain_host []) (shell_cmd "xclock")
                  then [Xephyr; App] else [Xephyr]) /\
    terminated cs = started cs /\ pumped cs = [].
Proof.
  apply (setup_failure_raises_unbound_local (plain_host []) "xclock" 800 600 0
           (MkMachine [] 0 [] []));
    [intros k; reflexivity|reflexivity|reflexivity].
Defined.


(** *** Ctrl+C *)

(** X11: one Ctrl+C while the loop runs ends the function as it was meant to
    end: whatever the loop would have done next, the calls of the loop stop
    where the interrupt arrived, the farewell is printed, the three
    processes are terminated and the function returns. *)
Theorem interrupt_in_loop_exits_cleanly (h : host) (command : string)
        (width height scale_factor : nat) (m : machine)
        (out : outcome) (st : pump_state) (j : nat) :
  spawns h (xephyr_cmd width height) = true ->
  setup_ok h command width height scale_factor = true ->
  run (capture h) (width / (8 * scale_factor)) (height / (16 * scale_factor))
  = Some (out, st) ->
  j <= List.length (trace st) ->
  (forall k : nat, interrupt h k = Nat.eqb (clock m + 16 + j) k) ->
  run_xorg_app_in_xephyr h command width height scale_factor m
  = (Done tt,
     MkMachine
       (calls m ++ setup_calls command width height scale_factor
        ++ map Pump (firstn j (trace st))
        ++ [Print (nl ++ "Exiting..."); Terminate Xephyr; Terminate App;
            Terminate Ffmpeg])
       (clock m + 16 + j + 9) (modules m) [Ffmpeg; App; Xephyr]).
Proof.
  intros Hx Hok Hrun Hj Hint.
  destruct (setup_ok_true _ _ _ _ _ Hok) as (H1 & H2 & H3 & H4 & H5 & H6).
  destruct m as [cs0 t mods bnd]. cbn [clock calls modules] in *.
  assert (Hf : forall k, k <> t + 16 + j -> interrupt h k = false).
  { intros k Hk. rewrite Hint. apply Nat.eqb_neq. lia. }
  assert (Ht : interrupt h (t + 16 + j) = true).
  { rewrite Hint. apply Nat.eqb_refl. }
  clear Hint.
  unfold run_xorg_app_in_xephyr, setup_calls. unfold_script.
  repeat sim_step. rewrite length_map.
  rewrite (first_interrupt_at h _ (List.length (trace st)) j Hj).
  - cbv beta iota. repeat sim_step. rewrite <- firstn_map.
    f_equal. f_equal; [rewrite <- !app_assoc; reflexivity|lia].
  - intros i Hi. apply Hf. lia.
  - rewrite <- Ht. f_equal. lia.
Qed.

Lemma interrupt_in_loop_exits_cleanly_witness :
  exists (st : pump_state),
    run_xorg_app_in_xephyr
      (interrupted_host 18 [Byte.x01; Byte.x02; Byte.x03; Byte.x04])
      "xclock" 8 16 1 (MkMachine [] 0 [] [])
    = (Done tt,
       MkMachine
         ([] ++ setup_calls "xclock" 8 16 1
          ++ map Pump (firstn 2 (trace st))
          ++ [Print (nl ++ "Exiting..."); Terminate Xephyr; Terminate App;
              Terminate Ffmpeg])
         (0 + 16 + 2 + 9) [] [Ffmpeg; App; Xephyr]).
Proof.
  destruct (run [Byte.x01; Byte.x02; Byte.x03; Byte.x04] (8 / (8 * 1))
              (16 / (16 * 1))) as [[out st]|] eqn:Hrun;
    [|vm_compute in Hrun; discriminate Hrun].
  exists st.
  apply (interrupt_in_loop_exits_cleanly
           (interrupted_host 18 [Byte.x01; Byte.x02; Byte.x03; Byte.x04])
           "xclock" 8 16 1 (MkMachine [] 0 [] []) out st 2);
    [reflexivity|reflexivity|exact Hrun| |intros k; reflexivity].
  vm_compute in Hrun. injection Hrun as <- <-. cbn. lia.
Defined.

(** X12: a Ctrl+C that arrives after the display server was started and before
    the guarded block is entered (while the result of [Popen] is being
    bound, or during the two seconds of sleep) leaves the function by
    [KeyboardInterrupt] with the server started and no call to terminate
    it made. *)
Theorem interrupt_before_try_leaks_server (h : host) (command : string)
        (width height scale_factor : nat) (m : machine) (d : nat) :
  spawns h (xephyr_cmd width height) = true -> d < 3 ->
  (forall i : nat, i < 3 + d -> interrupt h (i + clock m) = false) ->
  interrupt h (3 + d + clock m) = true ->
  exists cs : list sys_call,
    calls (snd (run_xorg_app_in_xephyr h command width height scale_factor m))
    = calls m ++ cs /\
    fst (run_xorg_app_in_xephyr h command width height scale_factor m)
    = Throw KeyboardInterrupt /\
    started cs = [Xephyr] /\ terminated cs = [].
Proof.
  intros Hx Hd Hlow Hat. destruct m as [cs0 t mods bnd].
  cbn [clock calls] in *.
  pose proof (Hlow 0) as I0. pose proof (Hlow 1) as I1.
  pose proof (Hlow 2) as I2. pose proof (Hlow 3) as I3.
  pose proof (Hlow 4) as I4. clear Hlow.
  unfold run_xorg_app_in_xephyr. unfold_script.
  destruct d as [|[|[|d]]]; [| | |lia]; cbn [Nat.add] in *;
    try specialize (I0 ltac:(lia)); try specialize (I1 ltac:(lia));
    try specialize (I2 ltac:(lia)); try specialize (I3 ltac:(lia));
    try specialize (I4 ltac:(lia));
    repeat sim_step;
    (eexists; split;
     [cbn [snd calls]; repeat rewrite <- app_assoc; cbn [app]; reflexivity|]);
    cbn [fst started terminated]; repeat split; reflexivity.
Qed.

Lemma interrupt_before_try_leaks_server_witness :
  exists cs : list sys_call,
    calls (snd (run_xorg_app_in_xephyr (interrupted_host 4 []) "xclock"
                  800 600 2 (MkMachine [] 0 [] [])))
    = [] ++ cs /\
    fst (run_xorg_app_in_xephyr (interrupted_host 4 []) "xclock"
           800 600 2 (MkMachine [] 0 [] []))
    = Throw KeyboardInterrupt /\
    started cs = [Xephyr] /\ terminated cs = [].
Proof.
  apply (interrupt_before_try_leaks_server (interrupted_host 4 []) "xclock"
           800 600 2 (MkMachine [] 0 [] []) 1);
    [reflexivity|lia| |reflexivity].
  intros [|[|[|[|i]]]] Hi; [reflexivity..|cbn in Hi; lia].
Defined.

(** *** A window smaller than a cell *)

(** X13: when the window is narrower than one cell or lower than one cell, the
    canvas has no cell, the only read asks for no bytes, and the function
    cleans up and returns without showing anything, whatever ffmpeg
    writes. *)
Theorem empty_canvas_returns_at_once (h : host) (command : string)
        (width height scale_factor : nat) (m : machine) :
  quiet h -> spawns h (xephyr_cmd width height) = true ->
  setup_ok h command width height scale_factor = true ->
  width < 8 * scale_factor \/ height < 16 * scale_factor ->
  fst (run_xorg_app_in_xephyr h command width height scale_factor m)
  = Done tt /\
  calls (snd (run_xorg_app_in_xephyr h command width height scale_factor m))
  = calls m ++ setup_calls command width height scale_factor
    ++ [Pump (EvRead 0 []); Terminate Xephyr; Terminate App;
        Terminate Ffmpeg].
Proof.
  intros Hq Hx Hok Hsmall.
  assert (Hz : width / (8 * scale_factor) * (height / (16 * scale_factor)) * 3
               = 0).
  { destruct Hsmall as [Hs|Hs]; rewrite (Nat.div_small _ _ Hs); lia. }
  pose proof (run_empty_canvas (capture h) _ _ Hz) as Hrun.
  destruct (quiet_run h command width height scale_factor m _ _ Hq Hx Hok Hrun)
    as [Hr Hc].
  split; [exact Hr|]. rewrite Hc. reflexivity.
Qed.

Lemma empty_canvas_returns_at_once_witness :
  fst (run_xorg_app_in_xephyr (plain_host [Byte.x01]) "xclock" 7 600 1
         (MkMachine [] 0 [] []))
  = Done tt /\
  calls (snd (run_xorg_app_in_xephyr (plain_host [Byte.x01]) "xclock" 7 600 1
                (MkMachine [] 0 [] [])))
  = [] ++ setup_calls "xclock" 7 600 1
    ++ [Pump (EvRead 0 []); Terminate Xephyr; Terminate App;
        Terminate Ffmpeg].
Proof.
  apply (empty_canvas_returns_at_once (plain_host [Byte.x01]) "xclock" 7 600 1
           (MkMachine [] 0 [] []));
    [intros k; reflexivity|reflexivity|reflexivity|left; cbn; lia].
Defined.


(** *** Calls a part of the script does not make *)

Section Silent.
Variable inv : list string -> Prop.
Variable cls : sys_call -> bool.
Hypothesis inv_cons : forall (name : string) (ms : list string),
    inv ms -> inv (name :: ms).

Lemma silent_ret {A : Type} (a : A) : silent inv cls (ret a).
Proof. intros m Hi. split; [exact Hi|reflexivity]. Qed.

Lemma silent_throw {A : Type} (e : error) : silent inv cls (@throw A e).
Proof. intros m Hi. split; [exact Hi|reflexivity]. Qed.

Lemma silent_bind {A B : Type} (c : M A) (k : A -> M B) :
  silent inv cls c -> (forall a : A, silent inv cls (k a)) ->
  silent inv cls (bind c k).
Proof.
  intros Hc Hk m Hi. unfold bind. destruct (Hc m Hi) as [I1 F1].
  destruct (c m) as [[a|e] m1]; cbn [snd] in *; [|split; assumption].
  destruct (Hk a m1 I1) as [I2 F2]. split; [exact I2|congruence].
Qed.

Lemma silent_try_except {A : Type} (body handler : M A)
      (catches : error -> bool) :
  silent inv cls body -> silent inv cls handler ->
  silent inv cls (try_except body catches handler).
Proof.
  intros Hb Hh m Hi. unfold try_except. destruct (Hb m Hi) as [I1 F1].
  destruct (body m) as [[a|e] m1]; cbn [snd] in *; [split; assumption|].
  destruct (catches e); [|split; assumption].
  destruct (Hh m1 I1) as [I2 F2]. split; [exact I2|congruence].
Qed.

Lemma silent_try_finally {A : Type} (body : M A) (fin : M unit) :
  silent inv cls body -> silent inv cls fin ->
  silent inv cls (try_finally body fin).
Proof.
  intros Hb Hf m Hi. unfold try_finally. destruct (Hb m Hi) as [I1 F1].
  destruct (body m) as [r m1]; cbn [snd] in *.
  destruct (Hf m1 I1) as [I2 F2].
  destruct (fin m1) as [[[]|e] m2]; cbn [snd] in *;
    (split; [exact I2|congruence]).
Qed.

Lemma silent_checkpoint (h : host) : silent inv cls (checkpoint h).
Proof.
  intros m Hi. unfold checkpoint.
  destruct (interrupt h (clock m)); (split; [exact Hi|reflexivity]).
Qed.

Lemma silent_emit (c : sys_call) : cls c = false -> silent inv cls (emit c).
Proof.
  intros Hc m Hi. unfold emit. cbn [snd calls modules].
  split; [exact Hi|].
  rewrite List.filter_app. cbn [List.filter]. rewrite Hc. apply app_nil_r.
Qed.

Lemma silent_call (h : host) (c : sys_call) :
  cls c = false -> silent inv cls (call h c).
Proof.
  intros Hc. unfold call.
  apply silent_bind; [apply silent_checkpoint|intros _].
  apply silent_bind; [apply silent_emit; exact Hc|intros _].
  apply silent_checkpoint.
Qed.

Lemma silent_import_module (h : host) (name : string) :
  silent inv cls (import_module h name).
Proof.
  intros m Hi. unfold import_module.
  destruct (is_loaded name m); [split; [exact Hi|reflexivity]|].
  revert m Hi. apply silent_bind; [apply silent_checkpoint|intros _].
  destruct (finder h name); [apply silent_throw|].
  intros m Hi. split; [apply inv_cons; exact Hi|reflexivity].
Qed.

Lemma silent_imports (h : host) : silent inv cls (imports h).
Proof.
  unfold imports.
  repeat (apply silent_bind; [apply silent_import_module|intros _]).
  apply silent_import_module.
Qed.

Lemma silent_popen (h : host) (p : proc) (argv : list string) :
  cls (Popen p argv) = false -> silent inv cls (popen h p argv).
Proof.
  intros Hc. unfold popen.
  apply silent_bind; [apply silent_checkpoint|intros _].
  destruct (spawns h argv); [|apply silent_throw].
  apply silent_bind; [apply silent_emit; exact Hc|intros _].
  apply silent_bind; [apply silent_checkpoint|intros _].
  intros m Hi. split; [exact Hi|reflexivity].
Qed.

Lemma silent_terminate (h : host) (p : proc) :
  cls (Terminate p) = false -> silent inv cls (terminate h p).
Proof.
  intros Hc. unfold terminate.
  apply silent_bind; [apply silent_checkpoint|intros _].
  intros m Hi. destruct (is_bound p m); [|split; [exact Hi|reflexivity]].
  revert m Hi. apply silent_bind; [apply silent_emit; exact Hc|intros _].
  apply silent_checkpoint.
Qed.

Lemma silent_cleanup (h : host) :
  (forall p : proc, cls (Terminate p) = false) -> silent inv cls (cleanup h).
Proof.
  intros Hc. unfold cleanup.
  repeat (apply silent_bind; [apply silent_terminate; apply Hc|intros _]).
  apply silent_terminate. apply Hc.
Qed.

Lemma silent_subprocess_run (h : host) (argv : list string) :
  cls (Run argv) = false -> silent inv cls (subprocess_run h argv).
Proof.
  intros Hc. unfold subprocess_run.
  apply silent_bind; [apply silent_checkpoint|intros _].
  destruct (run_status h argv) as [code|]; [|apply silent_throw].
  apply silent_bind; [apply silent_emit; exact Hc|intros _].
  apply silent_bind; [apply silent_checkpoint|intros _].
  destruct (code =? 0)%Z; [apply silent_ret|apply silent_throw].
Qed.

Lemma silent_shutil_which (h : host) (name : string) :
  cls (Which name) = false -> silent inv cls (shutil_which h name).
Proof.
  intros Hc. unfold shutil_which.
  apply silent_bind; [apply silent_call; exact Hc|intros _].
  apply silent_ret.
Qed.

Lemma silent_input (h : host) (prompt : string) :
  cls (Input prompt) = false -> silent inv cls (input h prompt).
Proof.
  intros Hc. unfold input.
  apply silent_bind; [apply silent_checkpoint|intros _].
  apply silent_bind; [apply silent_emit; exact Hc|intros _].
  destruct (stdin_line h); [|apply silent_throw].
  apply silent_bind; [apply silent_checkpoint|intros _]. apply silent_ret.
Qed.

Lemma silent_pump (h : host) (cw ch : nat) :
  (forall ev : event, cls (Pump ev) = false) -> silent inv cls (pump h cw ch).
Proof.
  intros Hc m Hi. unfold pump.
  assert (G : forall evs : list event, List.filter cls (map Pump evs) = []).
  { induction evs as [|ev evs IH]; [reflexivity|].
    cbn [map List.filter]. rewrite Hc. exact IH. }
  destruct (run (capture h) cw ch) as [[out st]|];
    [|split; [exact Hi|reflexivity]].
  cbv zeta.
  destruct (first_interrupt h (clock m) _) as [j|]; cbn [snd calls modules];
    (split; [exact Hi|]); rewrite List.filter_app.
  - rewrite firstn_map, G. apply app_nil_r.
  - rewrite G. apply app_nil_r.
Qed.

Lemma silent_floordiv (a b : nat) : silent inv cls (floordiv a b).
Proof.
  unfold floordiv. destruct (Nat.eqb b 0);
    [apply silent_throw|apply silent_ret].
Qed.

Lemma silent_new_canvas (h : host) (w ht : nat) :
  cls (NewCanvas w ht) = false -> silent inv cls (new_canvas h w ht).
Proof.
  intros Hc. unfold new_canvas.
  apply silent_bind; [apply silent_checkpoint|intros _].
  destruct (canvas_opens h w ht); [|apply silent_throw].
  apply silent_bind; [apply silent_emit; exact Hc|intros _].
  apply silent_checkpoint.
Qed.

Lemma silent_new_display (h : host) :
  cls NewDisplay = false -> silent inv cls (new_display h).
Proof.
  intros Hc. unfold new_display.
  apply silent_bind; [apply silent_checkpoint|intros _].
  destruct (display_opens h); [|apply silent_throw].
  apply silent_bind; [apply silent_emit; exact Hc|intros _].
  apply silent_checkpoint.
Qed.

(** The function that runs the loop prints no notice of an installation
    and runs no command. *)
Lemma silent_run_xorg_app_in_xephyr (h : host) (command : string)
      (width height scale_factor : nat) :
  (forall c : sys_call, is_run c = false -> is_pip_notice c = false ->
                        cls c = false) ->
  silent inv cls (run_xorg_app_in_xephyr h command width height scale_factor).
Proof.
  intros Hc m. unfold run_xorg_app_in_xephyr.
  assert (H : silent inv cls
            (run! _ := call h (SetEnv "DISPLAY" ":1") in
             run! _ := popen h Xephyr (xephyr_cmd width height) in
             run! _ := call h (Sleep 2) in
             try_finally
               (try_except (render h command width height scale_factor)
                  is_KeyboardInterrupt
                  (call h (Print (nl ++ "Exiting..."))))
               (cleanup h))).
  { apply silent_bind; [apply silent_call; apply Hc; reflexivity|intros _].
    apply silent_bind; [apply silent_popen; apply Hc; reflexivity|intros _].
    apply silent_bind; [apply silent_call; apply Hc; reflexivity|intros _].
    apply silent_try_finally.
    - apply silent_try_except; [|apply silent_call; apply Hc; reflexivity].
      unfold render.
      apply silent_bind; [apply silent_popen; apply Hc; reflexivity|intros _].
      apply silent_bind; [apply silent_floordiv|intros cw].
      apply silent_bind; [apply silent_floordiv|intros ch].
      apply silent_bind;
        [apply silent_new_canvas; apply Hc; reflexivity|intros _].
      apply silent_bind;
        [apply silent_new_display; apply Hc; reflexivity|intros _].
      apply silent_bind; [apply silent_popen; apply Hc; reflexivity|intros _].
      apply silent_bind; [apply silent_call; apply Hc; reflexivity|intros _].
      apply silent_pump. intros ev. apply Hc; reflexivity.
    - apply silent_cleanup. intros p. apply Hc; reflexivity. }
  exact (H (MkMachine (calls m) (clock m) (modules m) [])).
Qed.

(** The dependency check, given what the check of the packages does. *)
Lemma silent_check_and_install_dependencies (h : host) :
  (forall text : string,
      is_pip_notice (Print text) = false -> cls (Print text) = false) ->
  (forall name : string, cls (Which name) = false) ->
  cls (Run apt_xephyr) = false -> cls (Run apt_ffmpeg) = false ->
  cls (Run apt_caca) = false ->
  silent inv cls (ensure_packages h) ->
  silent inv cls (check_and_install_dependencies h).
Proof.
  intros Hp Hw Hx Hf Hc Hpk. unfold check_and_install_dependencies.
  apply silent_bind; [apply silent_call; apply Hp; reflexivity|intros _].
  apply silent_bind; [apply silent_shutil_which; apply Hw|intros found1].
  apply silent_bind.
  { destruct found1; [apply silent_ret|].
    apply silent_bind; [apply silent_call; apply Hp; reflexivity|intros _].
    apply silent_subprocess_run. exact Hx. }
  intros _.
  apply silent_bind; [apply silent_shutil_which; apply Hw|intros found2].
  apply silent_bind.
  { destruct found2; [apply silent_ret|].
    apply silent_bind; [apply silent_call; apply Hp; reflexivity|intros _].
    apply silent_subprocess_run. exact Hf. }
  intros _.
  apply silent_bind; [apply silent_shutil_which; apply Hw|intros found3].
  apply silent_bind.
  { destruct found3; [apply silent_ret|].
    apply silent_bind; [apply silent_call; apply Hp; reflexivity|intros _].
    apply silent_subprocess_run. exact Hc. }
  intros _.
  apply silent_bind; [exact Hpk|intros _].
  apply silent_call. apply Hp. reflexivity.
Qed.

End Silent.


(** *** The script as a whole *)

Lemma packages_loaded_cons (name : string) (ms : list string) :
  packages_loaded ms -> packages_loaded (name :: ms).
Proof.
  unfold packages_loaded. cbn [existsb]. intros (H1 & H2 & H3).
  rewrite H1, H2, H3, !orb_true_r. auto.
Qed.

Lemma import_module_done (h : host) (name : string) (m m' : machine) :
  import_module h name m = (Done tt, m') ->
  existsb (String.eqb name) (modules m') = true /\
  forall x : string,
    existsb (String.eqb x) (modules m) = true ->
    existsb (String.eqb x) (modules m') = true.
Proof.
  unfold import_module, is_loaded.
  destruct (existsb (String.eqb name) (modules m)) eqn:L.
  - intros H. injection H as <-. auto.
  - unfold bind, checkpoint, load, throw.
    destruct (interrupt h (clock m)); [discriminate|].
    destruct (finder h name); [discriminate|].
    intros H. injection H as <-. cbn [modules existsb].
    rewrite String.eqb_refl. split; [reflexivity|].
    intros x Hx. rewrite Hx. apply orb_true_r.
Qed.

Lemma import_module_loaded (h : host) (name : string) (m : machine) :
  existsb (String.eqb name) (modules m) = true ->
  import_module h name m = (Done tt, m).
Proof.
  intros H. unfold import_module, is_loaded. rewrite H. reflexivity.
Qed.

(** When the imports of the script succeed, the three packages are
    loaded. *)
Lemma imports_done (h : host) (m : machine) :
  fst (imports h m) = Done tt -> packages_loaded (modules (snd (imports h m))).
Proof.
  unfold imports. cbv beta delta [bind].
  repeat match goal with
         | |- context [import_module ?h ?n ?m0] =>
             let E := fresh "E" in
             destruct (import_module h n m0) as [[[]|?] ?] eqn:E;
             [apply import_module_done in E; destruct E as [? ?]
             |intros Hd; discriminate Hd]
         end.
  intros _. cbn [snd]. unfold packages_loaded. repeat split; auto 20.
Qed.

Lemma filter_all {A : Type} (l : list A) : List.filter (fun _ => true) l = l.
Proof. induction l as [|a l IH]; [reflexivity|]. cbn. rewrite IH. reflexivity. Qed.

Lemma imports_no_calls (h : host) (m : machine) :
  calls (snd (imports h m)) = calls m.
Proof.
  destruct (silent_imports (fun _ => True) (fun _ => true) (fun _ _ _ => I)
              h m I) as [_ H].
  rewrite !filter_all in H. exact H.
Qed.

(** With the packages loaded, their check does nothing. *)
Lemma silent_ensure_packages_loaded (cls : sys_call -> bool) (h : host) :
  silent packages_loaded cls (ensure_packages h).
Proof.
  intros m Hi. destruct Hi as (H1 & H2 & H3).
  assert (E : ensure_packages h m = (Done tt, m)).
  { unfold ensure_packages, try_except, bind.
    rewrite (import_module_loaded h "PIL" m H1).
    rewrite (import_module_loaded h "numpy" m H2).
    rewrite (import_module_loaded h "caca" m H3). reflexivity. }
  rewrite E. split; [repeat split; assumption|reflexivity].
Qed.

Lemma silent_ensure_packages (inv : list string -> Prop)
      (cls : sys_call -> bool) (h : host) :
  (forall (name : string) (ms : list string), inv ms -> inv (name :: ms)) ->
  (forall text : string, cls (Print text) = false) ->
  cls (Run (pip_install h)) = false ->
  silent inv cls (ensure_packages h).
Proof.
  intros Hcons Hp Hr. unfold ensure_packages.
  apply silent_try_except.
  - repeat (apply silent_bind;
            [apply silent_import_module; exact Hcons|intros _]).
    apply silent_import_module. exact Hcons.
  - apply silent_bind; [apply silent_call; apply Hp|intros _].
    apply silent_subprocess_run. exact Hr.
Qed.

Lemma argv_eqb_eq (a b : list string) : argv_eqb a b = true -> a = b.
Proof.
  revert b. induction a as [|x a IH]; intros [|y b] H; cbn in H;
    try discriminate H; [reflexivity|].
  apply andb_true_iff in H. destruct H as [H1 H2].
  apply String.eqb_eq in H1. apply IH in H2. congruence.
Qed.

Lemma silent_main_packages (h : host) :
  silent packages_loaded is_unexpected (main h).
Proof.
  pose proof packages_loaded_cons as Hcons. unfold main.
  apply silent_bind; [apply silent_call; reflexivity|intros _].
  apply silent_bind; [apply silent_call; reflexivity|intros _].
  apply silent_bind; [apply silent_call; reflexivity|intros _].
  apply silent_bind.
  { apply silent_check_and_install_dependencies;
      [intros text H; exact H|intros name; reflexivity|reflexivity
      |reflexivity|reflexivity|].
    apply silent_ensure_packages_loaded. }
  intros _.
  apply silent_bind; [apply silent_input; reflexivity|intros app_to_run].
  apply silent_run_xorg_app_in_xephyr.
  intros c Hr Hn. destruct c; try discriminate Hr; exact Hn.
Qed.

(** X14: the installation of the Python packages is dead code in the script: by
    the time the dependency check looks for them, the imports at the top of
    the script have loaded them, or have ended the script. Whatever the
    surroundings, the only commands the script runs to their end are the
    three [apt-get] ones, the notice of the installation is never printed,
    and the script makes no call at all unless the three packages could be
    imported. *)
Theorem pip_install_unreachable (h : host) :
  (forall argv : list string,
      In (Run argv) (calls (snd (script h))) ->
      argv = apt_xephyr \/ argv = apt_ffmpeg \/ argv = apt_caca) /\
  ~ In (Print "Required Python packages not found. Installing...")
       (calls (snd (script h))) /\
  (calls (snd (script h)) <> [] ->
   packages_loaded (modules (snd (script h)))).
Proof.
  assert (G : List.filter is_unexpected (calls (snd (script h))) = [] /\
              (calls (snd (script h)) <> [] ->
               packages_loaded (modules (snd (script h))))).
  { unfold script, bind.
    pose proof (imports_done h (boot h)) as Hd.
    pose proof (imports_no_calls h (boot h)) as Hc.
    destruct (imports h (boot h)) as [[[]|e] m1]; cbn [fst snd] in *.
    - destruct (silent_main_packages h m1 (Hd eq_refl)) as [Hi Hf].
      rewrite Hf, Hc. split; [reflexivity|]. intros _. exact Hi.
    - rewrite Hc. split; [reflexivity|]. intros H. contradiction H.
      reflexivity. }
  destruct G as [G1 G2].
  assert (Hno : forall c : sys_call,
             In c (calls (snd (script h))) -> is_unexpected c = false).
  { intros c Hin. destruct (is_unexpected c) eqn:E; [|reflexivity].
    assert (Hf : In c (List.filter is_unexpected (calls (snd (script h)))))
      by (apply List.filter_In; split; assumption).
    rewrite G1 in Hf. contradiction. }
  split; [|split; [|exact G2]].
  - intros argv Hin. apply Hno in Hin. cbn [is_unexpected] in Hin.
    apply negb_false_iff in Hin. rewrite !orb_true_iff in Hin.
    destruct Hin as [[H|H]|H]; apply argv_eqb_eq in H; auto.
  - intros Hin. apply Hno in Hin. discriminate Hin.
Qed.


(** *** The calls of the loop among the calls of the script *)

Lemma pumped_filter (l : list sys_call) :
  pumped (List.filter is_pump l) = pumped l.
Proof.
  induction l as [|c l IH]; [reflexivity|].
  destruct c; cbn [List.filter is_pump pumped]; rewrite ?IH; reflexivity.
Qed.

Lemma in_pumped (ev : event) (l : list sys_call) :
  In (Pump ev) l -> In ev (pumped l).
Proof.
  induction l as [|c l IH]; [contradiction|].
  intros [->|H]; [left; reflexivity|].
  destruct c; cbn [pumped]; try (apply IH; exact H).
  right. apply IH. exact H.
Qed.

Lemma silent_pumped {A : Type} (c : M A) (m : machine) :
  silent (fun _ => True) is_pump c ->
  pumped (calls (snd (c m))) = pumped (calls m).
Proof.
  intros H. destruct (H m I) as [_ Hf].
  rewrite <- pumped_filter, Hf. apply pumped_filter.
Qed.

Section PumpsPrefix.
Variable tr : list event.

Lemma pumps_prefix_silent {A : Type} (c : M A) :
  silent (fun _ => True) is_pump c -> pumps_prefix tr c.
Proof.
  intros H m. exists 0. rewrite (silent_pumped c m H). cbn [firstn].
  symmetry. apply app_nil_r.
Qed.

Lemma pumps_prefix_bind {A B : Type} (c : M A) (k : A -> M B) :
  silent (fun _ => True) is_pump c -> (forall a : A, pumps_prefix tr (k a)) ->
  pumps_prefix tr (bind c k).
Proof.
  intros Hc Hk m. unfold bind. pose proof (silent_pumped c m Hc) as E.
  destruct (c m) as [[a|e] m1]; cbn [snd] in *.
  - destruct (Hk a m1) as [j Hj]. exists j. rewrite Hj, E. reflexivity.
  - exists 0. rewrite E. cbn [firstn]. symmetry. apply app_nil_r.
Qed.

Lemma pumps_prefix_floordiv {B : Type} (a b : nat) (k : nat -> M B) :
  pumps_prefix tr (k (a / b)) -> pumps_prefix tr (bind (floordiv a b) k).
Proof.
  intros Hk m. unfold bind, floordiv.
  destruct (Nat.eqb b 0); [|apply Hk].
  exists 0. cbn [throw snd firstn]. symmetry. apply app_nil_r.
Qed.

Lemma pumps_prefix_try_except {A : Type} (body handler : M A)
      (catches : error -> bool) :
  pumps_prefix tr body -> silent (fun _ => True) is_pump handler ->
  pumps_prefix tr (try_except body catches handler).
Proof.
  intros Hb Hh m. unfold try_except. destruct (Hb m) as [j Hj].
  destruct (body m) as [[a|e] m1]; cbn [snd] in *; [exists j; exact Hj|].
  destruct (catches e); [|exists j; exact Hj].
  exists j. rewrite (silent_pumped handler m1 Hh). exact Hj.
Qed.

Lemma pumps_prefix_try_finally {A : Type} (body : M A) (fin : M unit) :
  pumps_prefix tr body -> silent (fun _ => True) is_pump fin ->
  pumps_prefix tr (try_finally body fin).
Proof.
  intros Hb Hf m. unfold try_finally. destruct (Hb m) as [j Hj].
  destruct (body m) as [r m1]; cbn [snd] in *.
  pose proof (silent_pumped fin m1 Hf) as E.
  destruct (fin m1) as [[[]|e] m2]; cbn [snd] in *;
    exists j; rewrite E; exact Hj.
Qed.

End PumpsPrefix.

Lemma pumps_prefix_pump (h : host) (cw ch : nat) (out : outcome)
      (st : pump_state) :
  run (capture h) cw ch = Some (out, st) ->
  pumps_prefix (trace st) (pump h cw ch).
Proof.
  intros Hrun m. unfold pump. rewrite Hrun. cbv zeta.
  destruct (first_interrupt h (clock m) _) as [j|]; cbn [snd calls].
  - exists j. rewrite pumped_app, firstn_map, pumped_pump. reflexivity.
  - exists (List.length (trace st)).
    rewrite pumped_app, pumped_pump, firstn_all. reflexivity.
Qed.

(** Whatever happens, the loop calls the function makes are the first
    calls of the run of the loop over what ffmpeg writes. *)
Lemma run_xorg_app_in_xephyr_pumps (h : host) (command : string)
      (width height scale_factor : nat) (out : outcome) (st : pump_state) :
  run (capture h) (width / (8 * scale_factor)) (height / (16 * scale_factor))
  = Some (out, st) ->
  pumps_prefix (trace st)
    (run_xorg_app_in_xephyr h command width height scale_factor).
Proof.
  intros Hrun m. unfold run_xorg_app_in_xephyr.
  pose proof (fun (_ : string) (ms : list string) (H : True) => H) as HT.
  assert (H : pumps_prefix (trace st)
            (run! _ := call h (SetEnv "DISPLAY" ":1") in
             run! _ := popen h Xephyr (xephyr_cmd width height) in
             run! _ := call h (Sleep 2) in
             try_finally
               (try_except (render h command width height scale_factor)
                  is_KeyboardInterrupt
                  (call h (Print (nl ++ "Exiting..."))))
               (cleanup h))).
  { apply pumps_prefix_bind; [apply silent_call; reflexivity|intros _].
    apply pumps_prefix_bind; [apply silent_popen; reflexivity|intros _].
    apply pumps_prefix_bind; [apply silent_call; reflexivity|intros _].
    apply pumps_prefix_try_finally;
      [|apply silent_cleanup; intros p; reflexivity].
    apply pumps_prefix_try_except; [|apply silent_call; reflexivity].
    unfold render.
    apply pumps_prefix_bind; [apply silent_popen; reflexivity|intros _].
    apply pumps_prefix_floordiv. apply pumps_prefix_floordiv.
    apply pumps_prefix_bind; [apply silent_new_canvas; reflexivity|intros _].
    apply pumps_prefix_bind; [apply silent_new_display; reflexivity|intros _].
    apply pumps_prefix_bind; [apply silent_popen; reflexivity|intros _].
    apply pumps_prefix_bind; [apply silent_call; reflexivity|intros _].
    apply (pumps_prefix_pump h _ _ out st Hrun). }
  exact (H (MkMachine (calls m) (clock m) (modules m) [])).
Qed.

(** X15: as the script runs it, the loop draws a canvas of 50 columns and 18
    rows: whatever the surroundings do, the loop calls the script makes are
    the first calls of the run of the loop over what ffmpeg writes with
    that geometry, and every read asks for 2700 bytes. *)
Theorem script_loop_geometry (h : host) :
  exists (out : outcome) (st : pump_state),
    run (capture h) 50 18 = Some (out, st) /\
    pumped (calls (snd (script h))) `prefix_of` trace st /\
    forall (n : nat) (data : list Byte.byte),
      In (Pump (EvRead n data)) (calls (snd (script h))) ->
      n = 2700 /\ List.length data <= 2700.
Proof.
  destruct (run_total (capture h) 50 18) as [[out st] Hrun].
  exists out, st. split; [exact Hrun|].
  pose proof (fun (_ : string) (ms : list string) (H : True) => H) as HT.
  assert (Hmain : pumps_prefix (trace st) (main h)).
  { unfold main.
    apply pumps_prefix_bind; [apply silent_call; reflexivity|intros _].
    apply pumps_prefix_bind; [apply silent_call; reflexivity|intros _].
    apply pumps_prefix_bind; [apply silent_call; reflexivity|intros _].
    apply pumps_prefix_bind.
    { apply silent_check_and_install_dependencies;
        [intros text _; reflexivity|intros name; reflexivity|reflexivity
        |reflexivity|reflexivity|].
      apply silent_ensure_packages;
        [exact HT|intros text; reflexivity|reflexivity]. }
    intros _.
    apply pumps_prefix_bind; [apply silent_input; reflexivity|intros app].
    apply (run_xorg_app_in_xephyr_pumps h app 800 600 2 out st). exact Hrun. }
  assert (Hscript : pumps_prefix (trace st) (run! _ := imports h in main h)).
  { apply pumps_prefix_bind; [apply silent_imports; exact HT|intros _].
    exact Hmain. }
  destruct (Hscript (boot h)) as [j Hj]. fold (script h) in Hj.
  cbn [boot calls pumped app] in Hj.
  assert (Hpre : pumped (calls (snd (script h))) `prefix_of` trace st).
  { exists (skipn j (trace st)). rewrite Hj. symmetry. apply take_drop. }
  split; [exact Hpre|].
  intros n data Hin. apply in_pumped in Hin.
  destruct Hpre as [rest Hrest].
  assert (Hin' : In (EvRead n data) (trace st)).
  { rewrite Hrest. apply in_or_app. left. exact Hin. }
  apply (run_read_sizes _ _ _ _ _ Hrun) in Hin'.
  change (50 * 18 * 3) with 2700 in Hin'. destruct Hin' as [-> Hd].
  split; [reflexivity|exact Hd].
Qed.


(** *** The dependency check on its own *)

Lemma ran_app (l1 l2 : list sys_call) : ran (l1 ++ l2) = ran l1 ++ ran l2.
Proof.
  induction l1 as [|c l1 IH]; [reflexivity|].
  destruct c; cbn [ran app]; rewrite IH; reflexivity.
Qed.

Ltac unfold_check :=
  cbv beta iota zeta delta
      [finish ensure_packages import_module load shutil_which subprocess_run
       call checkpoint emit bind ret throw try_except
       calls clock modules bound fst snd].

Ltac branch_check :=
  match goal with
  | |- context [interrupt ?h ?k] => destruct (interrupt h k) eqn:?
  | |- context [which ?h ?n] => destruct (which h n) eqn:?
  | |- context [is_loaded ?n ?m] => destruct (is_loaded n m) eqn:?
  | |- context [finder ?h ?n] => destruct (finder h n) eqn:?
  | |- context [is_ImportError ?e] => destruct (is_ImportError e) eqn:?
  | |- context [run_status ?h ?a] => destruct (run_status h a) eqn:?
  | |- context [Z.eqb ?c 0] => destruct (Z.eqb_spec c 0); [subst c|]
  end; cbv beta iota.

Ltac give_ran :=
  first [exists []; split; [rewrite app_nil_r; reflexivity|]
        |eexists; split;
         [repeat rewrite <- app_assoc; cbn [app]; reflexivity|]];
  cbn [ran app].

(** The check of the packages and the last notice. *)
Lemma finish_effect (h : host) (m : machine) :
  exists cs : list sys_call,
    calls (snd (finish h m)) = calls m ++ cs /\
    (ran cs = [] \/ ran cs = [pip_install h]) /\
    (fst (finish h m) = Done tt ->
     Forall (fun argv => run_status h argv = Some 0%Z) (ran cs)).
Proof.
  destruct m as [cs0 t mods bnd]. unfold_check.
  repeat branch_check; give_ran;
    (split; [auto|]);
    try (intros Hd; discriminate Hd);
    intros _; repeat constructor; assumption.
Qed.

Lemma check_unfold (h : host) :
  check_and_install_dependencies h
  = (run! _ := call h (Print "Checking dependencies...") in
     run! found := shutil_which h "Xephyr" in
     run! _ := (if found then ret tt
                else run! _ := call h (Print "Xephyr not found. Installing...") in
                     subprocess_run h apt_xephyr) in
     run! found := shutil_which h "ffmpeg" in
     run! _ := (if found then ret tt
                else run! _ := call h (Print "ffmpeg not found. Installing...") in
                     subprocess_run h apt_ffmpeg) in
     run! found := shutil_which h "cacaview" in
     run! _ := (if found then ret tt
                else run! _ := call h (Print "libcaca not found. Installing...") in
                     subprocess_run h apt_caca) in
     finish h).
Proof. reflexivity. Qed.

Lemma apt_commands_differ (h : host) :
  apt_xephyr <> apt_ffmpeg /\ apt_xephyr <> apt_caca /\
  apt_ffmpeg <> apt_caca /\ apt_xephyr <> pip_install h /\
  apt_ffmpeg <> pip_install h /\ apt_caca <> pip_install h.
Proof. repeat split; discriminate. Qed.

(** X16: what the dependency check runs, whoever calls it: of the four
    commands, in their order, those for the tools [shutil.which] did not
    find and at most the one for the packages; it runs no command for a
    tool that was found; and it returns only when every command it ran
    exited with status 0, a command having been run for every tool that was
    not found. *)
Theorem install_commands (h : host) (m : machine) :
  exists cs : list sys_call,
    calls (snd (check_and_install_dependencies h m)) = calls m ++ cs /\
    ran cs `sublist_of`
      [apt_xephyr; apt_ffmpeg; apt_caca; pip_install h] /\
    (In apt_xephyr (ran cs) -> which h "Xephyr" = false) /\
    (In apt_ffmpeg (ran cs) -> which h "ffmpeg" = false) /\
    (In apt_caca (ran cs) -> which h "cacaview" = false) /\
    (fst (check_and_install_dependencies h m) = Done tt ->
     Forall (fun argv => run_status h argv = Some 0%Z) (ran cs) /\
     (which h "Xephyr" = false -> In apt_xephyr (ran cs)) /\
     (which h "ffmpeg" = false -> In apt_ffmpeg (ran cs)) /\
     (which h "cacaview" = false -> In apt_caca (ran cs))).
Proof.
  destruct (apt_commands_differ h) as (D1 & D2 & D3 & D4 & D5 & D6).
  rewrite check_unfold. destruct m as [cs0 t mods bnd].
  cbv beta iota zeta delta
      [shutil_which subprocess_run call checkpoint emit bind ret throw
       calls clock modules bound fst snd].
  repeat branch_check.
  all: try match goal with
           | |- context [finish ?h ?m0] =>
               let cs := fresh "cs" in
               let E := fresh "E" in
               let R := fresh "R" in
               let F := fresh "F" in
               destruct (finish_effect h m0) as (cs & E & R & F);
               destruct (finish h m0) as [r [cs' t' ms' b']];
               cbn [fst snd calls] in E, F; subst cs'; cbv beta iota;
               eexists; split;
               [repeat rewrite <- app_assoc; cbn [app]; reflexivity|];
               cbn [ran app]; rewrite ?ran_app; cbn [ran app];
               destruct R as [R|R]; rewrite R in *; cbn [app]
           end.
  all: try give_ran.
  all: repeat match goal with
              | |- _ /\ _ => split
              end.
  all: try (intros Hd; discriminate Hd).
  all: try (repeat constructor; fail).
  all: try (intros Hin; cbn [In] in Hin; try reflexivity; try assumption;
            repeat (destruct Hin as [Hin|Hin]; [congruence|]);
            try contradiction; fail).
  all: try (intros Hd; specialize (F Hd); repeat split;
            [repeat constructor; try assumption;
             inversion F; assumption|..];
            intros Hw; try discriminate Hw; cbn [In]; auto 6; fail).
Qed.

End Script.
